(** * id_reader: boundary detection and scoring for ISO/IEC 7810 ID-1 documents

    A shallow embedding of
    [src/preprocessing/document_detection/iso_id1_document_detector.cpp],
    of [src/preprocessing/document_detection/document_detector.cpp], of the
    C interface of [src/api/id_reader_api.cpp], and of the pure parts of its
    callers in [tests/detection_test_framework.cpp] and
    [examples/c/simple_detection.c], followed by their properties.

    Conventions.
    - C++ [double] and [float] values are rationals ([Q]) and their
      comparisons are exact; [int] values are integers ([Z]) without
      overflow.  Where a [double] is truncated or rounded to an [int] (the
      scale factor of the working image, the size that [cv::resize] computes
      from it, the coordinates mapped back), every operation rounds its
      result to the nearest binary64 value ([binary64]), because the integer
      depends on it; the [float] sums and averages of the test framework
      round to the nearest binary32 value ([binary32]).  Elsewhere the
      operations are exact.
    - A division whose divisor is zero is made visible: it yields the outcome
      [DivisionByZero] instead of an IEEE infinity or NaN.
    - The detector's data members are a record; a member function takes the
      detector and returns the detector after the call where it assigns
      members.
    - The OpenCV primitives the detector calls are the fields of the class
      [CvOps]; they are total functions.  A statement assumes about them
      what it says, either as its own hypotheses or through the class
      [CvSound].  The size arithmetic of [cv::resize] is written out,
      because the detector depends on it, and with it the one rejection
      that is modelled, that of an empty target size; a statement about a
      detection says nothing of an image that another primitive rejects (a
      depth other than 8 bits, two channels).
    - The module [Ref] holds exact versions of the geometric primitives; the
      statements about concrete images are evaluated with them.

    Contents: outcomes and numbers; geometry and images; the ID-1 detector
    (module [ISO]); the generic detector and the C interface (modules
    [Generic] and [Api]); the callers ([Harness], [Example]); reference
    primitives ([Ref]); the wording of the specification ([Spec]); sample
    inputs ([Samples]); properties. *)

From Stdlib Require Import ZArith QArith Qround Qabs Qpower Lqa Lia List.
From Stdlib Require Import Ascii String.
From Stdlib Require Import Permutation Sorted.
From stdpp Require Import base option gmap strings.
Import ListNotations.

Local Open Scope Z_scope.
Local Open Scope Q_scope.

(** ** Outcomes of a call *)

(** [Ret a]: the call returns [a].  [DivisionByZero]: a division with a zero
    divisor was evaluated.  [CvException]: an OpenCV primitive rejected its
    arguments ([cv::Exception] leaves the function). *)
Inductive outcome (A : Type) : Type :=
  | Ret (a : A)
  | DivisionByZero
  | CvException.
Arguments Ret {A} a.
Arguments DivisionByZero {A}.
Arguments CvException {A}.

#[global] Instance outcome_ret : MRet outcome := fun A a => Ret a.
#[global] Instance outcome_bind : MBind outcome := fun A B f m =>
  match m with
  | Ret a => f a
  | DivisionByZero => DivisionByZero
  | CvException => CvException
  end.

(** ** Numbers *)

Definition Qltb (x y : Q) : bool := negb (Qle_bool y x).

(** [a / b] on doubles, with the zero divisor made visible. *)
Definition fdiv (a b : Q) : outcome Q :=
  if Qeq_bool b 0 then DivisionByZero else Ret (a / b).

(** [floor_log2 q], for [0 < q]: the exponent [k] with
    [2 ^ k <= q < 2 ^ (k + 1)].  The difference of the bit lengths of
    numerator and denominator is [k] or [k + 1]. *)
Definition floor_log2 (q : Q) : Z :=
  let k := (Z.log2 (Qnum q) - Z.log2 (Zpos (Qden q)))%Z in
  if Qle_bool (2 ^ k) q then k else (k - 1)%Z.

(** [static_cast<int>(q)]: truncation towards zero. *)
Definition static_cast_int (q : Q) : Z :=
  if Qltb q 0 then Qceiling q else Qfloor q.

(** [cvRound], used by [cv::saturate_cast<int>(double)]: nearest integer,
    halves to the even neighbour. *)
Definition cvRound (q : Q) : Z :=
  let f := Qfloor q in
  let r := q - inject_Z f in
  if Qltb r (1 # 2) then f
  else if Qltb (1 # 2) r then (f + 1)%Z
  else if Z.even f then f else (f + 1)%Z.

(** The number with a significand of [precision] bits that is nearest to
    [q], halves to the even significand (IEEE 754, round to nearest even).
    The exponent is not bounded: the results that occur here are far from
    overflow and from the subnormal numbers. *)
Definition round_to (precision : Z) (q : Q) : Q :=
  if Qeq_bool q 0 then 0
  else
    let e := (floor_log2 (Qabs q) - (precision - 1))%Z in
    let m := cvRound (Qabs q / 2 ^ e) in
    let r := inject_Z m * 2 ^ e in
    if Qltb q 0 then - r else r.

(** The value of a [double] operation, and of a [float] operation, whose
    exact result is [q]. *)
Definition binary64 (q : Q) : Q := round_to 53 q.
Definition binary32 (q : Q) : Q := round_to 24 q.

(** [a / b] and [a * b] on doubles, rounded. *)
Definition ddiv (a b : Q) : outcome Q :=
  if Qeq_bool b 0 then DivisionByZero else Ret (binary64 (a / b)).

Definition dmul (a b : Q) : Q := binary64 (a * b).

(** [a / b] on floats, rounded. *)
Definition fdivf (a b : Q) : outcome Q :=
  if Qeq_bool b 0 then DivisionByZero else Ret (binary32 (a / b)).

Definition Qmax (x y : Q) : Q := if Qltb x y then y else x.
Definition Qmin (x y : Q) : Q := if Qltb y x then y else x.

(** ** Geometry *)

Record Point := mkPoint { px : Z; py : Z }.
Record Size := mkSize { width : Z; height : Z }.
Record Rect := mkRect { rx : Z; ry : Z; rwidth : Z; rheight : Z }.
Definition Contour := list Point.

#[global] Instance Point_eq_dec : EqDecision Point.
Proof. solve_decision. Defined.

(** [struct DocumentBounds] *)
Record DocumentBounds := mkBounds {
  x1 : Q; y1 : Q;
  x2 : Q; y2 : Q;
  x3 : Q; y3 : Q;
  x4 : Q; y4 : Q;
  confidence : Q
}.

(** ** Images and the OpenCV primitives *)

(** A [cv::Mat]: its dimensions and channel count, and its pixel data, which
    only the primitives look at. *)
Record Mat (Pixels : Type) := mkMat {
  rows : Z;
  cols : Z;
  channels : Z;
  data : Pixels
}.
Arguments mkMat {Pixels}.
Arguments rows {Pixels}.
Arguments cols {Pixels}.
Arguments channels {Pixels}.
Arguments data {Pixels}.

Class CvOps := {
  Pixels : Type;
  (** [cv::cvtColor(m, _, COLOR_BGR2GRAY / COLOR_BGRA2GRAY)] *)
  cv_cvtColor_gray : Mat Pixels -> Pixels;
  (** [cv::createCLAHE(2.0, Size(8, 8))->apply] *)
  cv_clahe : Mat Pixels -> Pixels;
  (** [cv::GaussianBlur(m, _, Size(k, k), 0)] *)
  cv_GaussianBlur : Mat Pixels -> Z -> Pixels;
  (** [cv::meanStdDev]: first channel of the mean and of the deviation *)
  cv_meanStdDev : Mat Pixels -> Q * Q;
  (** [cv::Canny(m, _, low, high)] *)
  cv_Canny : Mat Pixels -> Q -> Q -> Pixels;
  (** [cv::morphologyEx(m, _, MORPH_CLOSE, k x k rectangle)] *)
  cv_morph_close : Mat Pixels -> Z -> Pixels;
  (** pixel data of [cv::resize(m, _, Size(0,0), fx, fy, INTER_AREA)] for the
      target size that [cv_resize] below computes *)
  cv_resize_data : Mat Pixels -> Size -> Pixels;
  (** [cv::findContours(m, _, _, RETR_EXTERNAL, CHAIN_APPROX_SIMPLE)] *)
  cv_findContours : Mat Pixels -> list Contour;
  cv_contourArea : Contour -> Q;
  cv_boundingRect : Contour -> Rect;
  (** [cv::arcLength(c, true)] *)
  cv_arcLength : Contour -> Q;
  (** [cv::approxPolyDP(c, _, epsilon, true)] *)
  cv_approxPolyDP : Contour -> Q -> Contour;
  cv_convexHull : Contour -> Contour;
  (** centre of [cv::minEnclosingCircle] *)
  cv_minEnclosingCircle : Contour -> Q * Q;
  (** [cv::norm] of the vector [(x, y)] *)
  cv_norm : Q -> Q -> Q;
  (** [std::atan2(y, x)] on integer arguments *)
  std_atan2 : Z -> Z -> Q
}.

(** [cv::Mat::empty] and [cv::Mat::size] *)
Definition mat_empty {P} (m : Mat P) : bool := (rows m * cols m =? 0)%Z.
Definition mat_size {P} (m : Mat P) : Size := mkSize (cols m) (rows m).

(** [cv::Size::empty] *)
Definition size_empty (s : Size) : bool :=
  (width s <=? 0)%Z || (height s <=? 0)%Z.

(** ** Library functions

    The algorithms of the C++ standard library that the detectors call. *)

(** [std::remove_if] followed by [erase]: the elements for which the
    predicate is false, in their order. *)
Fixpoint remove_if {A} (pred : A -> outcome bool) (l : list A)
    : outcome (list A) :=
  match l with
  | [] => mret []
  | a :: l' =>
      drop ← pred a;
      kept ← remove_if pred l';
      mret (if drop : bool then kept else a :: kept)
  end.

(** Insertion sort, the model of [std::sort] on the four-element vectors of
    this file (the library sorts fewer than sixteen elements by insertion):
    [lt a b] is the comparator.  An element passes the elements that compare
    below it and stops at the first that does not, so that elements that
    compare equivalent keep the order of the input. *)
Fixpoint sort_insert {A} (lt : A -> A -> bool) (a : A) (l : list A) : list A :=
  match l with
  | [] => [a]
  | b :: l' => if lt b a then b :: sort_insert lt a l' else a :: l
  end.

Fixpoint std_sort {A} (lt : A -> A -> bool) (l : list A) : list A :=
  match l with
  | [] => []
  | a :: l' => sort_insert lt a (std_sort lt l')
  end.

(** [std::unique] followed by [erase]: one element of every run of equal
    neighbours. *)
Fixpoint std_unique (l : list Point) : list Point :=
  match l with
  | [] => []
  | a :: l' =>
      match l' with
      | [] => [a]
      | b :: _ => if decide (a = b) then std_unique l' else a :: std_unique l'
      end
  end.

(** [std::min_element] and [std::max_element]: the first smallest and the
    first largest element for the comparator [lt]. *)
Fixpoint min_element {A} (lt : A -> A -> bool) (best : A) (l : list A) : A :=
  match l with
  | [] => best
  | a :: l' => min_element lt (if lt a best then a else best) l'
  end.

Fixpoint max_element {A} (lt : A -> A -> bool) (best : A) (l : list A) : A :=
  match l with
  | [] => best
  | a :: l' => max_element lt (if lt best a then a else best) l'
  end.

Definition origin : Point := mkPoint 0 0.

Section CvHelpers.
Context `{ops : CvOps}.

(** A matrix of the size of [m] with new pixel data. *)
Definition like (m : Mat Pixels) (ch : Z) (p : Pixels) : Mat Pixels :=
  mkMat (rows m) (cols m) ch p.

(** [cv::resize(src, dst, Size(0, 0), fx, fy, INTER_AREA)]: the target size
    is [Size(saturate_cast<int>(cols * fx), saturate_cast<int>(rows * fy))],
    products of doubles; an empty target size is rejected. *)
Definition cv_resize (src : Mat Pixels) (fx fy : Q) : outcome (Mat Pixels) :=
  let dsize := mkSize (cvRound (dmul (inject_Z (cols src)) fx))
                      (cvRound (dmul (inject_Z (rows src)) fy)) in
  if size_empty dsize then CvException
  else mret (mkMat (height dsize) (width dsize) (channels src)
                   (cv_resize_data src dsize)).

End CvHelpers.

(** ** The detector's parameters *)

(** The data members of [class ISO_ID1_DocumentDetector]. *)
Record ISO_ID1_DocumentDetector := mkISO {
  canny_threshold1_ : Q;
  canny_threshold2_ : Q;
  min_contour_area_ratio_ : Q;
  max_contour_area_ratio_ : Q;
  approx_epsilon_factor_ : Q;
  target_aspect_ratio_ : Q;
  aspect_ratio_tolerance_ : Q
}.

(** The constructor. *)
Definition ISO_ID1_new : ISO_ID1_DocumentDetector :=
  {| canny_threshold1_ := 10;
     canny_threshold2_ := 30;
     min_contour_area_ratio_ := 0.002;
     max_contour_area_ratio_ := 0.99;
     approx_epsilon_factor_ := 0.01;
     target_aspect_ratio_ := 1.586;
     aspect_ratio_tolerance_ := 0.4 |}.

Module ISO.

Definition setCannyThresholds (d : ISO_ID1_DocumentDetector)
    (threshold1 threshold2 : Q) : ISO_ID1_DocumentDetector :=
  {| canny_threshold1_ := threshold1;
     canny_threshold2_ := threshold2;
     min_contour_area_ratio_ := min_contour_area_ratio_ d;
     max_contour_area_ratio_ := max_contour_area_ratio_ d;
     approx_epsilon_factor_ := approx_epsilon_factor_ d;
     target_aspect_ratio_ := target_aspect_ratio_ d;
     aspect_ratio_tolerance_ := aspect_ratio_tolerance_ d |}.

Definition setAreaRatios (d : ISO_ID1_DocumentDetector)
    (min_ratio max_ratio : Q) : ISO_ID1_DocumentDetector :=
  {| canny_threshold1_ := canny_threshold1_ d;
     canny_threshold2_ := canny_threshold2_ d;
     min_contour_area_ratio_ := min_ratio;
     max_contour_area_ratio_ := max_ratio;
     approx_epsilon_factor_ := approx_epsilon_factor_ d;
     target_aspect_ratio_ := target_aspect_ratio_ d;
     aspect_ratio_tolerance_ := aspect_ratio_tolerance_ d |}.

Definition setTargetAspectRatio (d : ISO_ID1_DocumentDetector)
    (ratio tolerance : Q) : ISO_ID1_DocumentDetector :=
  {| canny_threshold1_ := canny_threshold1_ d;
     canny_threshold2_ := canny_threshold2_ d;
     min_contour_area_ratio_ := min_contour_area_ratio_ d;
     max_contour_area_ratio_ := max_contour_area_ratio_ d;
     approx_epsilon_factor_ := approx_epsilon_factor_ d;
     target_aspect_ratio_ := ratio;
     aspect_ratio_tolerance_ := tolerance |}.

(** The six assignments of one resolution bucket; [target_aspect_ratio_] is
    not assigned. *)
Definition assign_bucket (d : ISO_ID1_DocumentDetector)
    (t1 t2 min_ratio max_ratio eps tol : Q) : ISO_ID1_DocumentDetector :=
  {| canny_threshold1_ := t1;
     canny_threshold2_ := t2;
     min_contour_area_ratio_ := min_ratio;
     max_contour_area_ratio_ := max_ratio;
     approx_epsilon_factor_ := eps;
     target_aspect_ratio_ := target_aspect_ratio_ d;
     aspect_ratio_tolerance_ := tol |}.

(** [min_contour_area_ratio_ *= 0.5; aspect_ratio_tolerance_ *= 1.2] *)
Definition widen_for_panorama (d : ISO_ID1_DocumentDetector)
    : ISO_ID1_DocumentDetector :=
  {| canny_threshold1_ := canny_threshold1_ d;
     canny_threshold2_ := canny_threshold2_ d;
     min_contour_area_ratio_ := min_contour_area_ratio_ d * 0.5;
     max_contour_area_ratio_ := max_contour_area_ratio_ d;
     approx_epsilon_factor_ := approx_epsilon_factor_ d;
     target_aspect_ratio_ := target_aspect_ratio_ d;
     aspect_ratio_tolerance_ := aspect_ratio_tolerance_ d * 1.2 |}.

(** Lines 427-473. *)
Definition adaptParametersForImageSize (d : ISO_ID1_DocumentDetector)
    (image_size : Size) : outcome ISO_ID1_DocumentDetector :=
  let min_dimension := Z.min (width image_size) (height image_size) in
  let max_dimension := Z.max (width image_size) (height image_size) in
  let d1 :=
    if (min_dimension <? 400)%Z then
      assign_bucket d 30 90 0.05 0.95 0.02 0.5
    else if (min_dimension <? 800)%Z then
      assign_bucket d 25 75 0.01 0.90 0.015 0.4
    else if (min_dimension <? 1500)%Z then
      assign_bucket d 20 60 0.005 0.85 0.01 0.35
    else
      assign_bucket d 15 45 0.002 0.80 0.008 0.3 in
  aspect_ratio ← fdiv (inject_Z max_dimension) (inject_Z min_dimension);
  if Qltb 2.5 aspect_ratio then mret (widen_for_panorama d1) else mret d1.

Section WithOps.
Context `{ops : CvOps}.

(** Lines 96-131. *)
Definition preprocessImageForID1Document (input : Mat Pixels)
    : bool * Mat Pixels :=
  let gray :=
    if (channels input =? 3)%Z then like input 1 (cv_cvtColor_gray input)
    else if (channels input =? 4)%Z then like input 1 (cv_cvtColor_gray input)
    else input in
  let enhanced := like gray (channels gray) (cv_clahe gray) in
  let blur_size := Z.max 3 (Z.quot (Z.min (rows input) (cols input)) 400) in
  let blur_size :=
    if (Z.rem blur_size 2 =? 0)%Z then (blur_size + 1)%Z else blur_size in
  let blurred :=
    like enhanced (channels enhanced) (cv_GaussianBlur enhanced blur_size) in
  let '(mean_val, stddev_val) := cv_meanStdDev blurred in
  let dynamic_low := Qmax 10 (mean_val - stddev_val) in
  let dynamic_high := Qmin 200 (mean_val + stddev_val) in
  let edges := like blurred 1 (cv_Canny blurred dynamic_low dynamic_high) in
  let kernel_size := Z.max 2 (Z.quot (Z.min (rows input) (cols input)) 800) in
  (true, like edges 1 (cv_morph_close edges kernel_size)).

(** The predicate handed to [std::remove_if] at lines 149-171: [true] means
    the contour is removed. *)
Definition reject_contour (min_area max_area : Q) (edge_image : Mat Pixels)
    (contour : Contour) : outcome bool :=
  let area := cv_contourArea contour in
  if Qltb area min_area || Qltb max_area area then mret true
  else
    let bounds := cv_boundingRect contour in
    if (rx bounds =? 0)%Z && (ry bounds =? 0)%Z
       && (rwidth bounds =? cols edge_image)%Z
       && (rheight bounds =? rows edge_image)%Z
    then
      aspect ← fdiv (inject_Z (rwidth bounds)) (inject_Z (rheight bounds));
      if Qle_bool 1.2 aspect && Qle_bool aspect 2.2 then mret false
      else mret true
    else mret false.

(** Lines 133-176.  The result is the returned flag and the contents of the
    output vector [contours]. *)
Definition findDocumentContours (d : ISO_ID1_DocumentDetector)
    (edge_image : Mat Pixels) : outcome (bool * list Contour) :=
  let contours := cv_findContours edge_image in
  match contours with
  | [] => mret (false, contours)
  | _ =>
      let image_area := inject_Z (rows edge_image * cols edge_image) in
      let min_area := image_area * min_contour_area_ratio_ d in
      let max_area := image_area * max_contour_area_ratio_ d in
      contours ← remove_if (reject_contour min_area max_area edge_image)
                           contours;
      mret (match contours with [] => false | _ => true end, contours)
  end.

(** Lines 203-264. *)
Definition calculateDocumentScore (d : ISO_ID1_DocumentDetector)
    (contour : Contour) (image_size : Size) : outcome Q :=
  if (length contour <? 4)%nat then mret 0
  else
    let score := 0 in
    let area := cv_contourArea contour in
    let image_area := inject_Z (width image_size * height image_size) in
    area_ratio ← fdiv area image_area;
    let area_score :=
      if Qle_bool 0.002 area_ratio && Qle_bool area_ratio 0.99 then
        if Qle_bool 0.01 area_ratio && Qle_bool area_ratio 0.7 then 1
        else if Qltb 0.85 area_ratio then 0.9
        else 0.5
      else 0 in
    let score := score + area_score * 0.25 in
    let bounds := cv_boundingRect contour in
    aspect_ratio ← fdiv (inject_Z (rwidth bounds))
                        (inject_Z (rheight bounds));
    aspect_diff ← fdiv (Qabs (aspect_ratio - target_aspect_ratio_ d))
                       (target_aspect_ratio_ d);
    aspect_score ←
      (if Qle_bool aspect_diff (aspect_ratio_tolerance_ d) then
         q ← fdiv aspect_diff (aspect_ratio_tolerance_ d); mret (1 - q)
       else mret 0);
    let score := score + aspect_score * 0.4 in
    let n := length contour in
    let shape_score :=
      if (n =? 4)%nat then 1
      else if (4 <=? n)%nat && (n <=? 8)%nat then 0.8
      else if (8 <? n)%nat && (n <=? 12)%nat then 0.5
      else 0 in
    let score := score + shape_score * 0.15 in
    let center := cv_minEnclosingCircle contour in
    let image_center :=
      (inject_Z (width image_size) / 2, inject_Z (height image_size) / 2) in
    let distance_from_center :=
      cv_norm (fst center - fst image_center) (snd center - snd image_center) in
    let max_distance :=
      cv_norm (inject_Z (width image_size) / 2)
              (inject_Z (height image_size) / 2) in
    q ← fdiv distance_from_center max_distance;
    let position_score := 1 - q in
    mret (score + position_score * 0.2).

(** The polygon handed to the scorer at lines 186-188. *)
Definition approximate (d : ISO_ID1_DocumentDetector) (contour : Contour)
    : Contour :=
  let epsilon := approx_epsilon_factor_ d * cv_arcLength contour in
  cv_approxPolyDP contour epsilon.

(** The loop of lines 184-198 from index [i] on; the state is
    [(best_score, best_contour_index, best_contour)]. *)
Fixpoint best_loop (d : ISO_ID1_DocumentDetector) (image_size : Size)
    (contours : list Contour) (i : Z) (st : Q * Z * Contour)
    : outcome (Q * Z * Contour) :=
  match contours with
  | [] => mret st
  | c :: rest =>
      let approx := approximate d c in
      score ← calculateDocumentScore d approx image_size;
      let '(best_score, _, _) := st in
      let st' := if Qltb best_score score then (score, i, approx) else st in
      best_loop d image_size rest (i + 1)%Z st'
  end.

(** Lines 178-201.  [best_contour] is the value of the output vector on
    entry; the result is the returned flag and the vector on exit. *)
Definition findBestDocumentContour (d : ISO_ID1_DocumentDetector)
    (contours : list Contour) (image_size : Size) (best_contour : Contour)
    : outcome (bool * Contour) :=
  '(best_score, best_contour_index, best_contour) ←
    best_loop d image_size contours 0%Z (0, (-1)%Z, best_contour);
  mret (negb (best_contour_index =? -1)%Z && Qltb 0.1 best_score,
        best_contour).

(** Lines 330-359. *)
Definition selectFourCorners (points : list Point) : list Point :=
  if (length points <=? 4)%nat then points
  else
    match points with
    | [] => points
    | p0 :: rest =>
        let by_x a b := (px a <? px b)%Z in
        let by_y a b := (py a <? py b)%Z in
        let leftmost := min_element by_x p0 rest in
        let rightmost := max_element by_x p0 rest in
        let topmost := min_element by_y p0 rest in
        let bottommost := max_element by_y p0 rest in
        let corners := [leftmost; rightmost; topmost; bottommost] in
        let corners :=
          std_sort (fun a b => (px a <? px b)%Z
                               || ((px a =? px b)%Z && (py a <? py b)%Z))
                   corners in
        let corners := std_unique corners in
        if (4 <=? length corners)%nat then firstn 4 corners else corners
    end.

(** Lines 304-328. *)
Definition findCornerPoints (contour : Contour) : list Point :=
  if (length contour <=? 4)%nat then contour
  else
    let hull := cv_convexHull contour in
    if (length hull <=? 4)%nat then hull
    else
      let epsilon := 0.02 * cv_arcLength hull in
      let corners := cv_approxPolyDP hull epsilon in
      if (4 <? length corners)%nat then selectFourCorners corners
      else corners.

(** The centroid of lines 367-373: integer sums, then [/= 4]. *)
Definition centroid (points : list Point) : Point :=
  let sx := fold_left (fun acc p => (acc + px p)%Z) points 0%Z in
  let sy := fold_left (fun acc p => (acc + py p)%Z) points 0%Z in
  mkPoint (Z.quot sx 4) (Z.quot sy 4).

(** The angle of line 378. *)
Definition angle_from (c : Point) (p : Point) : Q :=
  std_atan2 (py p - py c)%Z (px p - px c)%Z.

(** The distance of line 397 to [image_tl = (0, 0)]. *)
Definition dist_tl (p : Point) : Q :=
  cv_norm (inject_Z (px p - px origin)) (inject_Z (py p - py origin)).

(** The loop of lines 396-402 from index [i] on.  [min_dist_tl = None]
    stands for the initial [numeric_limits<double>::max()], which every
    distance is below. *)
Fixpoint tl_loop (pts : list (Point * Q)) (i : nat)
    (min_dist_tl : option Q) (tl_idx : nat) : nat :=
  match pts with
  | [] => tl_idx
  | pa :: rest =>
      let dist := dist_tl (fst pa) in
      let better :=
        match min_dist_tl with
        | None => true
        | Some m => Qltb dist m
        end in
      if better then tl_loop rest (S i) (Some dist) i
      else tl_loop rest (S i) min_dist_tl tl_idx
  end.

(** Lines 361-410. *)
Definition sortCornerPoints (points : list Point) : list Point :=
  if negb (length points =? 4)%nat then points
  else
    let c := centroid points in
    let point_angles := map (fun p => (p, angle_from c p)) points in
    let point_angles :=
      std_sort (fun a b => Qltb (snd a) (snd b)) point_angles in
    let tl_idx := tl_loop point_angles 0 None 0 in
    map (fun i => fst (nth ((tl_idx + i) mod 4)%nat point_angles (origin, 0)))
        [0; 1; 2; 3]%nat.

(** Lines 266-302.  [None] is [return false]; [Some b] is [return true]
    with [bounds] filled with [b]. *)
Definition extractDocumentBounds (d : ISO_ID1_DocumentDetector)
    (contour : Contour) (image_size : Size) : outcome (option DocumentBounds) :=
  if (length contour <? 4)%nat then mret None
  else
    let corners :=
      if (length contour =? 4)%nat then contour
      else findCornerPoints contour in
    if negb (length corners =? 4)%nat then mret None
    else
      let sorted_corners := sortCornerPoints corners in
      let at_ i := nth i sorted_corners origin in
      let w := inject_Z (width image_size) in
      let h := inject_Z (height image_size) in
      bx1 ← fdiv (inject_Z (px (at_ 0%nat))) w;
      by1 ← fdiv (inject_Z (py (at_ 0%nat))) h;
      bx2 ← fdiv (inject_Z (px (at_ 1%nat))) w;
      by2 ← fdiv (inject_Z (py (at_ 1%nat))) h;
      bx3 ← fdiv (inject_Z (px (at_ 2%nat))) w;
      by3 ← fdiv (inject_Z (py (at_ 2%nat))) h;
      bx4 ← fdiv (inject_Z (px (at_ 3%nat))) w;
      by4 ← fdiv (inject_Z (py (at_ 3%nat))) h;
      conf ← calculateDocumentScore d contour image_size;
      mret (Some (mkBounds bx1 by1 bx2 by2 bx3 by3 bx4 by4 conf)).

(** Lines 53-64: the working image and the scale factor. *)
Definition select_working_image (input_image : Mat Pixels)
    : outcome (Mat Pixels * Q) :=
  let scale_factor := 1 in
  let target_width := 1200%Z in
  if (target_width <? cols input_image)%Z then
    scale_factor ← ddiv (inject_Z target_width) (inject_Z (cols input_image));
    working_image ← cv_resize input_image scale_factor scale_factor;
    mret (working_image, scale_factor)
  else mret (input_image, scale_factor).

(** Lines 85-91: the contour in the pixel space of the input image. *)
Fixpoint scale_points (scale_factor : Q) (pts : list Point)
    : outcome (list Point) :=
  match pts with
  | [] => mret []
  | point :: rest =>
      x ← ddiv (inject_Z (px point)) scale_factor;
      y ← ddiv (inject_Z (py point)) scale_factor;
      rest' ← scale_points scale_factor rest;
      mret (mkPoint (static_cast_int x) (static_cast_int y) :: rest')
  end.

Definition rescale_contour (scale_factor : Q) (best_contour : Contour)
    : outcome Contour :=
  if negb (Qeq_bool scale_factor 1) then scale_points scale_factor best_contour
  else mret best_contour.

(** Lines 48-94.  The result is the detector after the call and the answer:
    [None] is [return false], [Some b] is [return true] with [bounds = b]. *)
Definition detectDocument (d : ISO_ID1_DocumentDetector)
    (input_image : Mat Pixels)
    : outcome (ISO_ID1_DocumentDetector * option DocumentBounds) :=
  if mat_empty input_image then mret (d, None)
  else
    '(working_image, scale_factor) ← select_working_image input_image;
    d ← adaptParametersForImageSize d (mat_size working_image);
    let '(ok, preprocessed) := preprocessImageForID1Document working_image in
    if negb ok then mret (d, None)
    else
      '(ok, contours) ← findDocumentContours d preprocessed;
      if negb ok then mret (d, None)
      else
        '(ok, best_contour) ←
          findBestDocumentContour d contours (mat_size working_image) [];
        if negb ok then mret (d, None)
        else
          best_contour ← rescale_contour scale_factor best_contour;
          bounds ← extractDocumentBounds d best_contour
                     (mat_size input_image);
          mret (d, bounds).

End WithOps.
End ISO.

(** ** The generic detector and the configuration entry point *)

Module Generic.

(** The data members of [class DocumentDetector]. *)
Record DocumentDetector := mkDetector {
  canny_threshold1_ : Q;
  canny_threshold2_ : Q;
  min_contour_area_ : Q;
  max_contour_area_ : Q;
  approx_epsilon_factor_ : Q
}.

(** The constructor. *)
Definition DocumentDetector_new : DocumentDetector :=
  {| canny_threshold1_ := 50;
     canny_threshold2_ := 150;
     min_contour_area_ := 10000;
     max_contour_area_ := 500000;
     approx_epsilon_factor_ := 0.02 |}.

Definition setCannyThresholds (d : DocumentDetector)
    (threshold1 threshold2 : Q) : DocumentDetector :=
  {| canny_threshold1_ := threshold1;
     canny_threshold2_ := threshold2;
     min_contour_area_ := min_contour_area_ d;
     max_contour_area_ := max_contour_area_ d;
     approx_epsilon_factor_ := approx_epsilon_factor_ d |}.

Definition setContourAreaRange (d : DocumentDetector)
    (min_area max_area : Q) : DocumentDetector :=
  {| canny_threshold1_ := canny_threshold1_ d;
     canny_threshold2_ := canny_threshold2_ d;
     min_contour_area_ := min_area;
     max_contour_area_ := max_area;
     approx_epsilon_factor_ := approx_epsilon_factor_ d |}.

Definition setApproximationEpsilon (d : DocumentDetector)
    (epsilon_factor : Q) : DocumentDetector :=
  {| canny_threshold1_ := canny_threshold1_ d;
     canny_threshold2_ := canny_threshold2_ d;
     min_contour_area_ := min_contour_area_ d;
     max_contour_area_ := max_contour_area_ d;
     approx_epsilon_factor_ := epsilon_factor |}.

(** The detection of the generic detector assigns no data member: its
    functions take the detector and return their result only. *)
Section WithOps.
Context `{ops : CvOps}.

(** Lines 54-77. *)
Definition preprocessImage (d : DocumentDetector) (input : Mat Pixels)
    : bool * Mat Pixels :=
  let gray :=
    if (channels input =? 3)%Z then like input 1 (cv_cvtColor_gray input)
    else if (channels input =? 4)%Z then like input 1 (cv_cvtColor_gray input)
    else input in
  let blurred := like gray (channels gray) (cv_GaussianBlur gray 5) in
  let edges :=
    like blurred 1
         (cv_Canny blurred (canny_threshold1_ d) (canny_threshold2_ d)) in
  (true, like edges 1 (cv_morph_close edges 3)).

(** Lines 79-98. *)
Definition findContours (d : DocumentDetector) (edge_image : Mat Pixels)
    : bool * list Contour :=
  let contours := cv_findContours edge_image in
  match contours with
  | [] => (false, contours)
  | _ =>
      let contours :=
        List.filter
          (fun contour =>
             let area := cv_contourArea contour in
             negb (Qltb area (min_contour_area_ d)
                   || Qltb (max_contour_area_ d) area))
          contours in
      (match contours with [] => false | _ => true end, contours)
  end.

Definition approximate (d : DocumentDetector) (contour : Contour) : Contour :=
  let epsilon := approx_epsilon_factor_ d * cv_arcLength contour in
  cv_approxPolyDP contour epsilon.

(** The loop of lines 105-120; the state is
    [(max_area, best_contour_index, best_contour)]. *)
Fixpoint quadrilateral_loop (d : DocumentDetector) (contours : list Contour)
    (i : Z) (st : Q * Z * Contour) : Q * Z * Contour :=
  match contours with
  | [] => st
  | c :: rest =>
      let approx := approximate d c in
      let st' :=
        if (length approx =? 4)%nat then
          let area := cv_contourArea approx in
          let '(max_area, _, _) := st in
          if Qltb max_area area then (area, i, approx) else st
        else st in
      quadrilateral_loop d rest (i + 1)%Z st'
  end.

(** The loop of lines 124-130; the state is [(max_area, best_contour_index)]. *)
Fixpoint largest_loop (contours : list Contour) (i : Z) (st : Q * Z) : Q * Z :=
  match contours with
  | [] => st
  | c :: rest =>
      let area := cv_contourArea c in
      let st' := if Qltb (fst st) area then (area, i) else st in
      largest_loop rest (i + 1)%Z st'
  end.

(** Lines 100-140. *)
Definition findBestDocumentContour (d : DocumentDetector)
    (contours : list Contour) (best_contour : Contour) : bool * Contour :=
  let '(max_area, best_contour_index, best_contour) :=
    quadrilateral_loop d contours 0%Z (0, (-1)%Z, best_contour) in
  if (best_contour_index =? -1)%Z
     && match contours with [] => false | _ => true end
  then
    let '(_, best_contour_index) :=
      largest_loop contours 0%Z (max_area, best_contour_index) in
    if negb (best_contour_index =? -1)%Z then
      (true, approximate d (nth (Z.to_nat best_contour_index) contours []))
    else (false, best_contour)
  else (negb (best_contour_index =? -1)%Z, best_contour).

Definition centroid (points : list Point) : Point :=
  let sx := fold_left (fun acc p => (acc + px p)%Z) points 0%Z in
  let sy := fold_left (fun acc p => (acc + py p)%Z) points 0%Z in
  mkPoint (Z.quot sx 4) (Z.quot sy 4).

(** The quadrant of lines 201-205. *)
Definition quadrant (c p : Point) : Z :=
  if (px c <=? px p)%Z && (py p <? py c)%Z then 0
  else if (px p <? px c)%Z && (py p <? py c)%Z then 1
  else if (px p <? px c)%Z && (py c <=? py p)%Z then 2
  else 3.

(** Lines 182-222. *)
Definition sortCornerPoints (points : list Point) : list Point :=
  if negb (length points =? 4)%nat then points
  else
    let c := centroid points in
    let point_quadrants := map (fun p => (p, quadrant c p)) points in
    let point_quadrants :=
      std_sort (fun a b => (snd a <? snd b)%Z) point_quadrants in
    let at_ i := fst (nth i point_quadrants (origin, 0%Z)) in
    [at_ 1%nat; at_ 0%nat; at_ 3%nat; at_ 2%nat].

(** Lines 224-254. *)
Definition calculateConfidence (contour : Contour) (image_size : Size)
    : outcome Q :=
  match contour with
  | [] => mret 0
  | _ =>
      let contour_area := cv_contourArea contour in
      let image_area := inject_Z (width image_size * height image_size) in
      area_ratio ← fdiv contour_area image_area;
      let area_confidence :=
        if Qle_bool 0.1 area_ratio && Qle_bool area_ratio 0.8
        then 1 - Qabs (0.4 - area_ratio) / 0.4
        else 0 in
      let perimeter := cv_arcLength contour in
      let approx := cv_approxPolyDP contour (0.02 * perimeter) in
      let n := length approx in
      let shape_confidence :=
        if (n =? 4)%nat then 1
        else if (3 <=? n)%nat && (n <=? 6)%nat then 0.7
        else 0.3 in
      mret ((area_confidence + shape_confidence) / 2)
  end.

(** Lines 142-180. *)
Definition extractDocumentBounds (contour : Contour) (image_size : Size)
    : outcome (option DocumentBounds) :=
  if (length contour <? 4)%nat then mret None
  else
    let w := inject_Z (width image_size) in
    let h := inject_Z (height image_size) in
    '(p1, p2, p3, p4) ←
      (if (length contour =? 4)%nat then
         let sorted_points := sortCornerPoints contour in
         let at_ i := nth i sorted_points origin in
         mret (at_ 0%nat, at_ 1%nat, at_ 2%nat, at_ 3%nat)
       else
         let r := cv_boundingRect contour in
         mret (mkPoint (rx r) (ry r),
               mkPoint (rx r + rwidth r) (ry r),
               mkPoint (rx r + rwidth r) (ry r + rheight r),
               mkPoint (rx r) (ry r + rheight r)));
    bx1 ← fdiv (inject_Z (px p1)) w;
    by1 ← fdiv (inject_Z (py p1)) h;
    bx2 ← fdiv (inject_Z (px p2)) w;
    by2 ← fdiv (inject_Z (py p2)) h;
    bx3 ← fdiv (inject_Z (px p3)) w;
    by3 ← fdiv (inject_Z (py p3)) h;
    bx4 ← fdiv (inject_Z (px p4)) w;
    by4 ← fdiv (inject_Z (py p4)) h;
    conf ← calculateConfidence contour image_size;
    mret (Some (mkBounds bx1 by1 bx2 by2 bx3 by3 bx4 by4 conf)).

(** Lines 31-52. *)
Definition detectDocument (d : DocumentDetector) (input_image : Mat Pixels)
    : outcome (option DocumentBounds) :=
  if mat_empty input_image then mret None
  else
    let '(ok, preprocessed) := preprocessImage d input_image in
    if negb ok then mret None
    else
      let '(ok, contours) := findContours d preprocessed in
      if negb ok then mret None
      else
        let '(ok, best_contour) := findBestDocumentContour d contours [] in
        if negb ok then mret None
        else extractDocumentBounds best_contour (mat_size input_image).

End WithOps.

End Generic.

Module Api.

Inductive id_reader_error_t :=
  | ID_READER_SUCCESS
  | ID_READER_ERROR_INVALID_INPUT
  | ID_READER_ERROR_MEMORY_ALLOCATION
  | ID_READER_ERROR_PROCESSING_FAILED
  | ID_READER_ERROR_NO_DOCUMENT_FOUND
  | ID_READER_ERROR_UNSUPPORTED_FORMAT
  | ID_READER_ERROR_INITIALIZATION_FAILED.

(** [struct id_reader_context] *)
Record id_reader_context := mkContext {
  detector : Generic.DocumentDetector;
  config : gmap string string
}.

Definition with_detector (c : id_reader_context)
    (d : Generic.DocumentDetector) : id_reader_context :=
  {| detector := d; config := config c |}.

Section WithStod.
(** [std::stod]; [None] stands for the exception it throws on a string that
    is not a number. *)
Variable stod : string -> option Q.

(** Lines 119-146.  A null pointer is [None].  The result is the error code
    and the context after the call. *)
Definition id_reader_set_config (context : option id_reader_context)
    (key value : option string)
    : id_reader_error_t * option id_reader_context :=
  match context, key, value with
  | Some ctx, Some key, Some value =>
      let ctx := {| detector := detector ctx;
                    config := <[key := value]> (config ctx) |} in
      let apply (f : Q -> Generic.DocumentDetector) :=
        match stod value with
        | Some v => (ID_READER_SUCCESS, Some (with_detector ctx (f v)))
        | None => (ID_READER_ERROR_PROCESSING_FAILED, Some ctx)
        end in
      if String.eqb key "canny_threshold1" then
        apply (fun threshold =>
                 Generic.setCannyThresholds (detector ctx) threshold 150)
      else if String.eqb key "canny_threshold2" then
        apply (fun threshold =>
                 Generic.setCannyThresholds (detector ctx) 50 threshold)
      else if String.eqb key "min_contour_area" then
        apply (fun area =>
                 Generic.setContourAreaRange (detector ctx) area 500000)
      else if String.eqb key "max_contour_area" then
        apply (fun area =>
                 Generic.setContourAreaRange (detector ctx) 10000 area)
      else (ID_READER_SUCCESS, Some ctx)
  | _, _, _ => (ID_READER_ERROR_INVALID_INPUT, context)
  end.

End WithStod.

(** A decimal reader for [stod]: an optional sign, digits, an optional
    fraction; the rest of the string is ignored, a string without digits is
    refused. *)
Definition digit_of (c : ascii) : option Z :=
  let n := Z.of_nat (nat_of_ascii c) in
  if (48 <=? n)%Z && (n <=? 57)%Z then Some (n - 48)%Z else None.

Fixpoint read_digits (s : string) (acc : Z) (count : nat)
    : Z * nat * string :=
  match s with
  | EmptyString => (acc, count, s)
  | String c rest =>
      match digit_of c with
      | Some v => read_digits rest (10 * acc + v)%Z (S count)
      | None => (acc, count, s)
      end
  end.

Definition stod_decimal (s : string) : option Q :=
  let '(negative, s1) :=
    match s with
    | String "-" r => (true, r)
    | String "+" r => (false, r)
    | _ => (false, s)
    end in
  let '(int_part, n1, s2) := read_digits s1 0%Z 0%nat in
  let '(frac_part, n2) :=
    match s2 with
    | String "." r => let '(v, n, _) := read_digits r 0%Z 0%nat in (v, n)
    | _ => (0%Z, 0%nat)
    end in
  if (n1 + n2 =? 0)%nat then None
  else
    let v := inject_Z int_part
             + inject_Z frac_part / inject_Z (10 ^ Z.of_nat n2) in
    Some (Qred (if negative : bool then - v else v)).

(** *** The rest of the C interface

    [include/id_reader/id_reader.h] and [src/api/id_reader_api.cpp].  A
    C string is a [string]; a [size_t] is an [N]; an enumeration argument
    is the integer the caller passes. *)

(** The values of [id_reader_error_t] (id_reader.h, lines 28-36). *)
Definition error_value (e : id_reader_error_t) : Z :=
  match e with
  | ID_READER_SUCCESS => 0
  | ID_READER_ERROR_INVALID_INPUT => -1
  | ID_READER_ERROR_MEMORY_ALLOCATION => -2
  | ID_READER_ERROR_PROCESSING_FAILED => -3
  | ID_READER_ERROR_NO_DOCUMENT_FOUND => -4
  | ID_READER_ERROR_UNSUPPORTED_FORMAT => -5
  | ID_READER_ERROR_INITIALIZATION_FAILED => -6
  end.

(** The values of [id_reader_document_type_t], [id_reader_country_t] and
    [id_reader_image_format_t] (id_reader.h, lines 39-65). *)
Definition ID_READER_DOCUMENT_UNKNOWN : Z := 0.
Definition ID_READER_DOCUMENT_DRIVERS_LICENSE : Z := 1.
Definition ID_READER_DOCUMENT_PASSPORT : Z := 2.
Definition ID_READER_DOCUMENT_ID_CARD : Z := 3.
Definition ID_READER_DOCUMENT_CREDIT_CARD : Z := 4.

Definition ID_READER_COUNTRY_UNKNOWN : Z := 0.
Definition ID_READER_COUNTRY_US : Z := 1.
Definition ID_READER_COUNTRY_CA : Z := 2.
Definition ID_READER_COUNTRY_GB : Z := 3.
Definition ID_READER_COUNTRY_DE : Z := 4.
Definition ID_READER_COUNTRY_FR : Z := 5.
Definition ID_READER_COUNTRY_AU : Z := 6.

Definition ID_READER_IMAGE_FORMAT_RGB : Z := 0.
Definition ID_READER_IMAGE_FORMAT_RGBA : Z := 1.
Definition ID_READER_IMAGE_FORMAT_BGR : Z := 2.
Definition ID_READER_IMAGE_FORMAT_BGRA : Z := 3.
Definition ID_READER_IMAGE_FORMAT_GRAYSCALE : Z := 4.

(** Lines 45-64. *)
Definition id_reader_error_string (error : Z) : string :=
  if (error =? error_value ID_READER_SUCCESS)%Z then "Success"
  else if (error =? error_value ID_READER_ERROR_INVALID_INPUT)%Z
  then "Invalid input"
  else if (error =? error_value ID_READER_ERROR_MEMORY_ALLOCATION)%Z
  then "Memory allocation failed"
  else if (error =? error_value ID_READER_ERROR_PROCESSING_FAILED)%Z
  then "Processing failed"
  else if (error =? error_value ID_READER_ERROR_NO_DOCUMENT_FOUND)%Z
  then "No document found"
  else if (error =? error_value ID_READER_ERROR_UNSUPPORTED_FORMAT)%Z
  then "Unsupported format"
  else if (error =? error_value ID_READER_ERROR_INITIALIZATION_FAILED)%Z
  then "Initialization failed"
  else "Unknown error".

(** Lines 66-80. *)
Definition id_reader_document_type_string (type : Z) : string :=
  if (type =? ID_READER_DOCUMENT_DRIVERS_LICENSE)%Z then "Driver's License"
  else if (type =? ID_READER_DOCUMENT_PASSPORT)%Z then "Passport"
  else if (type =? ID_READER_DOCUMENT_ID_CARD)%Z then "ID Card"
  else if (type =? ID_READER_DOCUMENT_CREDIT_CARD)%Z then "Credit Card"
  else "Unknown".

(** Lines 82-100. *)
Definition id_reader_country_string (country : Z) : string :=
  if (country =? ID_READER_COUNTRY_US)%Z then "United States"
  else if (country =? ID_READER_COUNTRY_CA)%Z then "Canada"
  else if (country =? ID_READER_COUNTRY_GB)%Z then "United Kingdom"
  else if (country =? ID_READER_COUNTRY_DE)%Z then "Germany"
  else if (country =? ID_READER_COUNTRY_FR)%Z then "France"
  else if (country =? ID_READER_COUNTRY_AU)%Z then "Australia"
  else "Unknown".

(** Lines 102-113.  [context] is the pointer handed in: [None] is a null
    pointer, [Some slot] points at a variable that holds [slot].  The result
    is the error code and the variable after the call.  [enough_memory]
    tells whether [new] succeeds. *)
Definition id_reader_init (enough_memory : bool)
    (context : option (option id_reader_context))
    : id_reader_error_t * option (option id_reader_context) :=
  match context with
  | None => (ID_READER_ERROR_INVALID_INPUT, context)
  | Some _ =>
      if enough_memory then
        (ID_READER_SUCCESS,
         Some (Some {| detector := Generic.DocumentDetector_new;
                       config := ∅ |}))
      else (ID_READER_ERROR_MEMORY_ALLOCATION, context)
  end.

(** Lines 148-165.  [value] is the caller's buffer: [None] is a null
    pointer, [Some s] a buffer that holds the C string [s].  The result is
    the error code and the buffer after the call. *)
Definition id_reader_get_config (context : option id_reader_context)
    (key : option string) (value : option string) (value_size : N)
    : id_reader_error_t * option string :=
  match context, key, value with
  | Some ctx, Some key, Some _ =>
      if (value_size =? 0)%N then (ID_READER_ERROR_INVALID_INPUT, value)
      else
        match config ctx !! key with
        | None => (ID_READER_ERROR_INVALID_INPUT, value)
        | Some config_value =>
            if (value_size <=? N.of_nat (String.length config_value))%N
            then (ID_READER_ERROR_INVALID_INPUT, value)
            else (ID_READER_SUCCESS, Some config_value)
        end
  | _, _, _ => (ID_READER_ERROR_INVALID_INPUT, value)
  end.

(** A sequence of [id_reader_set_config] calls on one context, as the
    callers make them: the return codes are dropped. *)
Definition configure (stod : string -> option Q)
    (calls : list (string * string)) (context : option id_reader_context)
    : option id_reader_context :=
  fold_left
    (fun context call =>
       snd (id_reader_set_config stod context
              (Some (fst call)) (Some (snd call))))
    calls context.

(** [id_reader_image_t] (id_reader.h, lines 68-74); the fields are [data],
    [width], [height], [stride] and [format]. *)
Record id_reader_image_t (Buffer : Type) := mkImage {
  image_data : option Buffer;
  image_width : N;
  image_height : N;
  image_stride : N;
  image_format : Z
}.
Arguments mkImage {Buffer}.
Arguments image_data {Buffer}.
Arguments image_width {Buffer}.
Arguments image_height {Buffer}.
Arguments image_stride {Buffer}.
Arguments image_format {Buffer}.

(** [id_reader_field_t] and [id_reader_result_t] (id_reader.h, lines
    83-98).  [id_reader_document_bounds_t] has the nine fields of
    [DocumentBounds]. *)
Record id_reader_field_t := mkField {
  field_name : option string;
  field_value : option string;
  field_confidence : Q;
  field_box : Rect
}.

Record id_reader_result_t := mkResult {
  document_type : Z;
  country : Z;
  bounds : DocumentBounds;
  fields : option (list id_reader_field_t);
  field_count : N;
  overall_confidence : Q
}.

Inductive ColorConversionCodes :=
  | COLOR_RGB2BGR
  | COLOR_RGBA2BGR
  | COLOR_BGRA2BGR.

(** The two OpenCV calls of [id_reader_process_image]; [None] stands for
    the [cv::Exception] of a call that rejects its arguments. *)
Class CvApiOps `{ops : CvOps} := {
  (** the caller's pixel memory *)
  Buffer : Type;
  (** pixel data of [cv::Mat(rows, cols, CV_8UC(channels), data, step)], a
      header over the caller's memory *)
  cv_Mat_data : Z -> Z -> Z -> Buffer -> Z -> option Pixels;
  (** pixel data of [cv::cvtColor(m, m, code)] *)
  cv_cvtColor : Mat Pixels -> ColorConversionCodes -> option Pixels
}.

Definition or_throw {A} (r : option A) : outcome A :=
  match r with
  | Some a => Ret a
  | None => CvException
  end.

Section ProcessImage.
Context `{api : CvApiOps}.

(** [cv::Mat(image->height, image->width, cv_type, image->data,
    image->stride)] *)
Definition cv_Mat (image : id_reader_image_t Buffer) (buffer : Buffer)
    (channels : Z) : outcome (Mat Pixels) :=
  let rows := Z.of_N (image_height image) in
  let cols := Z.of_N (image_width image) in
  pixels ← or_throw (cv_Mat_data rows cols channels buffer
                       (Z.of_N (image_stride image)));
  mret (mkMat rows cols channels pixels).

(** The conversions of this file produce three channels. *)
Definition cvtColor (m : Mat Pixels) (code : ColorConversionCodes)
    : outcome (Mat Pixels) :=
  pixels ← or_throw (cv_cvtColor m code);
  mret (mkMat (rows m) (cols m) 3 pixels).

(** The [switch] of lines 181-207: [None] is the [default] branch. *)
Definition convert_input (image : id_reader_image_t Buffer) (buffer : Buffer)
    : option (outcome (Mat Pixels)) :=
  let format := image_format image in
  if (format =? ID_READER_IMAGE_FORMAT_RGB)%Z then
    Some (cv_image ← cv_Mat image buffer 3; cvtColor cv_image COLOR_RGB2BGR)
  else if (format =? ID_READER_IMAGE_FORMAT_RGBA)%Z then
    Some (cv_image ← cv_Mat image buffer 4; cvtColor cv_image COLOR_RGBA2BGR)
  else if (format =? ID_READER_IMAGE_FORMAT_BGR)%Z then
    Some (cv_Mat image buffer 3)
  else if (format =? ID_READER_IMAGE_FORMAT_BGRA)%Z then
    Some (cv_image ← cv_Mat image buffer 4; cvtColor cv_image COLOR_BGRA2BGR)
  else if (format =? ID_READER_IMAGE_FORMAT_GRAYSCALE)%Z then
    Some (cv_Mat image buffer 1)
  else None.

(** [try { ... } catch (const std::exception&)] around a body that returns
    an error code: a [cv::Exception] becomes [on_exception]. *)
Definition try_catch {A} (body : outcome A) (on_exception : A) : outcome A :=
  match body with
  | CvException => mret on_exception
  | _ => body
  end.

(** Lines 167-237.  [result] is the pointer handed in: [None] is a null
    pointer, [Some slot] points at a variable that holds [slot]
    ([None]: a null pointer).  The outcome is the error code and the
    variable after the call.  The allocation of the result is taken to
    succeed; the caller's pixel memory, which a conversion may write to, is
    not part of the state. *)
Definition id_reader_process_image (context : option id_reader_context)
    (image : option (id_reader_image_t Buffer))
    (result : option (option id_reader_result_t))
    : outcome (id_reader_error_t * option (option id_reader_result_t)) :=
  match context, image, result with
  | Some ctx, Some img, Some _ =>
      match image_data img with
      | None => mret (ID_READER_ERROR_INVALID_INPUT, result)
      | Some buffer =>
          match convert_input img buffer with
          | None => mret (ID_READER_ERROR_UNSUPPORTED_FORMAT, result)
          | Some converted =>
              try_catch
                (cv_image ← converted;
                 found ← Generic.detectDocument (detector ctx) cv_image;
                 match found with
                 | None => mret (ID_READER_ERROR_NO_DOCUMENT_FOUND, result)
                 | Some b =>
                     mret (ID_READER_SUCCESS,
                           Some (Some
                             {| document_type := ID_READER_DOCUMENT_UNKNOWN;
                                country := ID_READER_COUNTRY_UNKNOWN;
                                bounds :=
                                  mkBounds (x1 b) (y1 b) (x2 b) (y2 b)
                                           (x3 b) (y3 b) (x4 b) (y4 b)
                                           (confidence b);
                                fields := None;
                                field_count := 0%N;
                                overall_confidence := confidence b |}))
                 end)
                (ID_READER_ERROR_PROCESSING_FAILED, result)
          end
      end
  | _, _, _ => mret (ID_READER_ERROR_INVALID_INPUT, result)
  end.

End ProcessImage.

End Api.

(** ** The callers of the C interface *)

(** The test framework, [tests/detection_test_framework.cpp]. *)
Module Harness.

(** [struct TestResult], lines 20-27. *)
Record TestResult := mkTestResult {
  image_name : string;
  detection_success : bool;
  confidence : Q;
  processing_time_ms : Q;
  bounds : DocumentBounds;
  error_message : string
}.

(** [struct TestStatistics] with its default member initialisers, lines
    29-39. *)
Record TestStatistics := mkStatistics {
  total_images : Z;
  successful_detections : Z;
  failed_detections : Z;
  average_confidence : Q;
  average_processing_time : Q;
  min_confidence : Q;
  max_confidence : Q;
  min_processing_time : Q;
  max_processing_time : Q
}.

Definition TestStatistics_new : TestStatistics :=
  {| total_images := 0;
     successful_detections := 0;
     failed_detections := 0;
     average_confidence := 0;
     average_processing_time := 0;
     min_confidence := 1;
     max_confidence := 0;
     min_processing_time := 999999;
     max_processing_time := 0 |}.

(** Lines 51-66, without the console output.  The result is the returned
    flag and the member [context_] after the call. *)
Definition initialize (stod : string -> option Q) (enough_memory : bool)
    : bool * option Api.id_reader_context :=
  match Api.id_reader_init enough_memory (Some None) with
  | (Api.ID_READER_SUCCESS, Some context_) =>
      (true,
       Api.configure stod
         [("canny_threshold1", "50"); ("canny_threshold2", "150");
          ("min_contour_area", "5000"); ("max_contour_area", "500000")]%string
         context_)
  | (_, Some context_) => (false, context_)
  | (_, None) => (false, None)
  end.

(** One iteration of the loop of lines 171-185; the state is [stats],
    [total_confidence] and [total_processing_time].  The two totals are
    sums of floats. *)
Definition accumulate (st : TestStatistics * Q * Q) (result : TestResult)
    : TestStatistics * Q * Q :=
  let '(stats, total_confidence, total_processing_time) := st in
  let time := processing_time_ms result in
  let min_time := Qmin (min_processing_time stats) time in
  let max_time := Qmax (max_processing_time stats) time in
  if detection_success result then
    ({| total_images := total_images stats;
        successful_detections := (successful_detections stats + 1)%Z;
        failed_detections := failed_detections stats;
        average_confidence := average_confidence stats;
        average_processing_time := average_processing_time stats;
        min_confidence := Qmin (min_confidence stats) (confidence result);
        max_confidence := Qmax (max_confidence stats) (confidence result);
        min_processing_time := min_time;
        max_processing_time := max_time |},
     binary32 (total_confidence + confidence result),
     binary32 (total_processing_time + time))
  else
    ({| total_images := total_images stats;
        successful_detections := successful_detections stats;
        failed_detections := (failed_detections stats + 1)%Z;
        average_confidence := average_confidence stats;
        average_processing_time := average_processing_time stats;
        min_confidence := min_confidence stats;
        max_confidence := max_confidence stats;
        min_processing_time := min_time;
        max_processing_time := max_time |},
     total_confidence,
     binary32 (total_processing_time + time)).

(** Lines 160-194.  The averages divide a float by an [int], which is
    converted to a float first. *)
Definition calculateStatistics (results : list TestResult)
    : outcome TestStatistics :=
  let stats :=
    {| total_images := Z.of_nat (length results);
       successful_detections := successful_detections TestStatistics_new;
       failed_detections := failed_detections TestStatistics_new;
       average_confidence := average_confidence TestStatistics_new;
       average_processing_time := average_processing_time TestStatistics_new;
       min_confidence := min_confidence TestStatistics_new;
       max_confidence := max_confidence TestStatistics_new;
       min_processing_time := min_processing_time TestStatistics_new;
       max_processing_time := max_processing_time TestStatistics_new |} in
  if (total_images stats =? 0)%Z then mret stats
  else
    let '(stats, total_confidence, total_processing_time) :=
      fold_left accumulate results (stats, 0, 0) in
    average_confidence' ←
      (if (0 <? successful_detections stats)%Z then
         fdivf total_confidence
               (binary32 (inject_Z (successful_detections stats)))
       else mret (average_confidence stats));
    average_processing_time' ←
      fdivf total_processing_time (binary32 (inject_Z (total_images stats)));
    mret {| total_images := total_images stats;
            successful_detections := successful_detections stats;
            failed_detections := failed_detections stats;
            average_confidence := average_confidence';
            average_processing_time := average_processing_time';
            min_confidence := min_confidence stats;
            max_confidence := max_confidence stats;
            min_processing_time := min_processing_time stats;
            max_processing_time := max_processing_time stats |}.

End Harness.

(** The C example, [examples/c/simple_detection.c]: its loader of 24-bit
    BMP files.  A file is the list of its bytes; the headers are read into
    packed structures on a little-endian machine; [int] has 32 bits, [long]
    and [size_t] have 64. *)
Module Example.

(** The unsigned value of little-endian bytes, and the [int32_t] with the
    same bits. *)
Definition unsigned (bytes : list Byte.byte) : Z :=
  fold_right (fun b acc => (Z.of_N (Byte.to_N b) + 256 * acc)%Z) 0%Z bytes.

Definition int32 (u : Z) : Z :=
  if (u <? 2 ^ 31)%Z then u else (u - 2 ^ 32)%Z.

(** The member of [size] bytes at byte [at_] of the file. *)
Definition member (file : list Byte.byte) (at_ size : nat) : Z :=
  unsigned (firstn size (skipn at_ file)).

Definition INT_MAX : Z := 2 ^ 31 - 1.
Definition INT_MIN : Z := - 2 ^ 31.

(** The value of an [int] converted to [size_t], which has 64 bits. *)
Definition size_t (z : Z) : Z := z mod 2 ^ 64.

(** [fread(_, size, nmemb, file)] on a file with [available] bytes left: the
    number of complete items read; zero when [size] or [nmemb] is zero. *)
Definition fread (size nmemb : Z) (available : nat) : Z :=
  if (size =? 0)%Z || (nmemb =? 0)%Z then 0%Z
  else Z.min nmemb (Z.of_nat available / size).

(** What [load_bmp_image] returns: a buffer, [NULL], or, where the C
    standard leaves the behaviour of the function open (overflow of a signed
    operation), nothing that can be relied on. *)
Inductive loaded :=
  | Buffer (image_data : list Byte.byte)
  | NULL
  | Unspecified.

(** Lines 42-86, without the console output.  [file] is [None] when the
    file cannot be opened; [malloc n] tells whether an allocation of [n]
    bytes succeeds; [out] holds [*width], [*height] and [*stride] on entry,
    the result holds them on exit.  [sizeof(BMPHeader)] is 14 and
    [sizeof(BMPInfoHeader)] is 40; [header.type] is at byte 0,
    [header.offset] at byte 10, [info.width] at byte 18, [info.height] at
    byte 22 and [info.bits_per_pixel] at byte 28.  The signed operations
    that can overflow are [-info.height], [*width * 3 + 3] and
    [*height * *stride]. *)
Definition load_bmp_image (file : option (list Byte.byte))
    (malloc : Z -> bool)
    (out : Z * Z * Z) : loaded * (Z * Z * Z) :=
  match file with
  | None => (NULL, out)
  | Some file =>
      if (length file <? 14 + 40)%nat then (NULL, out)
      else
        let header_type := member file 0 2 in
        let header_offset := member file 10 4 in
        let info_width := int32 (member file 18 4) in
        let info_height := int32 (member file 22 4) in
        let info_bits_per_pixel := member file 28 2 in
        if negb (header_type =? 19778)%Z || negb (info_bits_per_pixel =? 24)%Z
        then (NULL, out)
        else
          let width := info_width in
          if (info_height =? INT_MIN)%Z then (Unspecified, out)
          else
            let height :=
              if (0 <? info_height)%Z then info_height
              else (- info_height)%Z in
            if (width * 3 <? INT_MIN)%Z || (INT_MAX <? width * 3 + 3)%Z
            then (Unspecified, out)
            else
              let stride := Z.land (width * 3 + 3) (Z.lnot 3) in
              let out := (width, height, stride) in
              if (height * stride <? INT_MIN)%Z
                 || (INT_MAX <? height * stride)%Z
              then (Unspecified, out)
              else if negb (malloc (size_t (height * stride)))
              then (NULL, out)
              else
                let rest := skipn (Z.to_nat header_offset) file in
                let items_read :=
                  fread (size_t stride) (size_t height) (length rest) in
                if negb (items_read =? size_t height)%Z then (NULL, out)
                else (Buffer (firstn (Z.to_nat (height * stride)) rest), out)
  end.

End Example.

(** ** Reference values of the OpenCV primitives

    Exact rational versions of the geometric primitives, used to evaluate the
    detector on concrete polygons.  An image is given by its size and by the
    contours that contour extraction finds in its edge map at the working
    resolution. *)

Module Ref.

(** Twice the signed area (shoelace sum) of the closed polygon. *)
Fixpoint shoelace (first : Point) (l : list Point) : Z :=
  match l with
  | [] => 0
  | p :: rest =>
      let q := match rest with [] => first | q :: _ => q end in
      (px p * py q - px q * py p + shoelace first rest)%Z
  end.

Definition contourArea (c : Contour) : Q :=
  match c with
  | [] => 0
  | first :: _ => inject_Z (Z.abs (shoelace first c)) / 2
  end.

(** The up-right bounding rectangle of integer points: both borders count. *)
Definition boundingRect (c : Contour) : Rect :=
  match c with
  | [] => mkRect 0 0 0 0
  | p :: rest =>
      let xmin := fold_left (fun m q => Z.min m (px q)) rest (px p) in
      let xmax := fold_left (fun m q => Z.max m (px q)) rest (px p) in
      let ymin := fold_left (fun m q => Z.min m (py q)) rest (py p) in
      let ymax := fold_left (fun m q => Z.max m (py q)) rest (py p) in
      mkRect xmin ymin (xmax - xmin + 1) (ymax - ymin + 1)
  end.

(** Square root, rounded down to twelve decimal places. *)
Definition sqrt12 (q : Q) : Q :=
  inject_Z (Z.sqrt (Qfloor (q * 1000000000000000000000000)))
  / 1000000000000.

Definition norm (x y : Q) : Q := sqrt12 (x * x + y * y).

Fixpoint path_length (first : Point) (l : list Point) : Q :=
  match l with
  | [] => 0
  | p :: rest =>
      let q := match rest with [] => first | q :: _ => q end in
      norm (inject_Z (px q - px p)) (inject_Z (py q - py p))
      + path_length first rest
  end.

Definition arcLength (c : Contour) : Q :=
  match c with
  | [] => 0
  | first :: _ => path_length first c
  end.

(** The smallest enclosing circle by exhaustion: it is centred at the
    midpoint of two of the points or at the circumcentre of three. *)
Definition sqdist (c : Q * Q) (p : Point) : Q :=
  let dx := inject_Z (px p) - fst c in
  let dy := inject_Z (py p) - snd c in
  dx * dx + dy * dy.

Definition midpoint (a b : Point) : Q * Q :=
  (inject_Z (px a + px b) / 2, inject_Z (py a + py b) / 2).

Definition circumcentre (a b c : Point) : option (Q * Q) :=
  let d := (2 * (px a * (py b - py c) + px b * (py c - py a)
                 + px c * (py a - py b)))%Z in
  if (d =? 0)%Z then None
  else
    let na := (px a * px a + py a * py a)%Z in
    let nb := (px b * px b + py b * py b)%Z in
    let nc := (px c * px c + py c * py c)%Z in
    let ux := (na * (py b - py c) + nb * (py c - py a)
               + nc * (py a - py b))%Z in
    let uy := (na * (px c - px b) + nb * (px a - px c)
               + nc * (px b - px a))%Z in
    Some (inject_Z ux / inject_Z d, inject_Z uy / inject_Z d).

Definition circle_candidates (c : Contour) : list ((Q * Q) * Q) :=
  flat_map (fun a =>
    flat_map (fun b =>
      let m := midpoint a b in
      (m, sqdist m a)
      :: flat_map (fun e =>
           match circumcentre a b e with
           | Some u => [(u, sqdist u a)]
           | None => []
           end) c) c) c.

Definition encloses (c : Contour) (k : (Q * Q) * Q) : bool :=
  forallb (fun p => Qle_bool (sqdist (fst k) p) (snd k)) c.

Definition clamp (lo hi : Z) (q : Q) : Q :=
  Qmax (inject_Z lo) (Qmin (inject_Z hi) q).

(** The centre of the smallest candidate that encloses all points.  The
    centre of the smallest enclosing circle lies in the bounding box of the
    points; the clamp makes this evident without changing it. *)
Definition minEnclosingCircle (c : Contour) : Q * Q :=
  let ok := List.filter (encloses c) (circle_candidates c) in
  match ok with
  | [] => (0, 0)
  | k :: rest =>
      let best :=
        fold_left (fun b k' => if Qltb (snd k') (snd b) then k' else b)
                  rest k in
      let b := boundingRect c in
      (clamp (rx b) (rx b + rwidth b - 1) (Qred (fst (fst best))),
       clamp (ry b) (ry b + rheight b - 1) (Qred (snd (fst best))))
  end.

(** A surrogate of [atan2(y, x)] with rational values: it orders directions
    exactly as the angle in (-pi, pi] does, from -2 (just above the negative
    x axis, clockwise side) to 2 (the negative x axis). *)
Definition atan2 (y x : Z) : Q :=
  if (y =? 0)%Z && (x =? 0)%Z then 0
  else if (0 <=? y)%Z then
    if (0 <=? x)%Z then inject_Z y / inject_Z (x + y)
    else 1 + inject_Z (- x) / inject_Z (- x + y)
  else
    if (0 <=? x)%Z then - (inject_Z (- y) / inject_Z (x - y))
    else - 1 - inject_Z (- x) / inject_Z (- x - y).

(** The points of a contour of an image lie in the image. *)
Definition insideb (m : Mat (list Contour)) (p : Point) : bool :=
  (0 <=? px p)%Z && (px p <? cols m)%Z && (0 <=? py p)%Z && (py p <? rows m)%Z.

(** The primitives on images hand the contour list of the image on, and
    contour extraction returns those of its contours that lie in the image;
    the polygon simplifications are the identity, which is what they compute
    on the convex polygons with few, far apart corners used below. *)
Definition ops : CvOps :=
  {| Pixels := list Contour;
     cv_cvtColor_gray := fun m => data m;
     cv_clahe := fun m => data m;
     cv_GaussianBlur := fun m _ => data m;
     cv_meanStdDev := fun _ => (128, 40);
     cv_Canny := fun m _ _ => data m;
     cv_morph_close := fun m _ => data m;
     cv_resize_data := fun m _ => data m;
     cv_findContours := fun m => List.filter (forallb (insideb m)) (data m);
     cv_contourArea := contourArea;
     cv_boundingRect := boundingRect;
     cv_arcLength := arcLength;
     cv_approxPolyDP := fun c _ => c;
     cv_convexHull := fun c => c;
     cv_minEnclosingCircle := minEnclosingCircle;
     cv_norm := norm;
     std_atan2 := atan2 |}.

(** A three-channel image of the given size with the given contours. *)
Definition image (w h : Z) (contours : list Contour) : Mat (list Contour) :=
  mkMat h w 3 contours.

Definition rectangle (x0 y0 x1 y1 : Z) : Contour :=
  [mkPoint x0 y0; mkPoint x1 y0; mkPoint x1 y1; mkPoint x0 y1].

(** The caller's pixel memory is the contour list of the image; the matrix
    header and the colour conversions hand it on, and a conversion rejects
    an empty matrix. *)
Definition api_ops : @Api.CvApiOps ops :=
  {| Api.Buffer := list Contour;
     Api.cv_Mat_data := fun _ _ _ buffer _ => Some (buffer : @Pixels ops);
     Api.cv_cvtColor := fun m _ =>
       if mat_empty m then None else Some (data m) |}.

End Ref.

(** ** The specification's wording

    Definitions that follow the text of the specification, to be compared
    with the code above. *)

Module Spec.

(** The ParameterBundle of section 3, without the target aspect ratio. *)
Record ParameterBundle := mkBundle {
  edgeThresholdLow : Q;
  edgeThresholdHigh : Q;
  minAreaRatio : Q;
  maxAreaRatio : Q;
  approxEpsilonFactor : Q;
  aspectTolerance : Q
}.

(** The table of section 4.1, by the smaller dimension. *)
Definition bucket (m : Z) : ParameterBundle :=
  if (m <? 400)%Z then mkBundle 30 90 0.05 0.95 0.02 0.50
  else if (m <=? 799)%Z then mkBundle 25 75 0.01 0.90 0.015 0.40
  else if (m <=? 1499)%Z then mkBundle 20 60 0.005 0.85 0.01 0.35
  else mkBundle 15 45 0.002 0.80 0.008 0.30.

(** "the ratio of larger to smaller dimension exceeds 2.5" *)
Definition panoramic (w h : Z) : bool :=
  Qltb 2.5 (inject_Z (Z.max w h) / inject_Z (Z.min w h)).

(** The selector of section 4.1. *)
Definition select (w h : Z) : ParameterBundle :=
  let b := bucket (Z.min w h) in
  if panoramic w h then
    mkBundle (edgeThresholdLow b) (edgeThresholdHigh b)
             (minAreaRatio b / 2) (maxAreaRatio b)
             (approxEpsilonFactor b) (aspectTolerance b * 1.2)
  else b.

Definition bundle_of (d : ISO_ID1_DocumentDetector) : ParameterBundle :=
  mkBundle (canny_threshold1_ d) (canny_threshold2_ d)
           (min_contour_area_ratio_ d) (max_contour_area_ratio_ d)
           (approx_epsilon_factor_ d) (aspect_ratio_tolerance_ d).

Definition bundle_eq (a b : ParameterBundle) : Prop :=
  edgeThresholdLow a == edgeThresholdLow b
  /\ edgeThresholdHigh a == edgeThresholdHigh b
  /\ minAreaRatio a == minAreaRatio b
  /\ maxAreaRatio a == maxAreaRatio b
  /\ approxEpsilonFactor a == approxEpsilonFactor b
  /\ aspectTolerance a == aspectTolerance b.

(** Area score of section 4.4. *)
Definition areaScore (areaRatio : Q) : Q :=
  if Qltb areaRatio 0.002 || Qltb 0.99 areaRatio then 0
  else if Qle_bool 0.01 areaRatio && Qle_bool areaRatio 0.70 then 1
  else if Qltb 0.85 areaRatio then 0.9
  else 0.5.

(** Shape-regularity score: 1.0 for exactly 4 vertices, 0.8 for up to 8,
    0.5 for 9 to 12, else 0. *)
Definition shapeScore (vertices : nat) : Q :=
  if (vertices =? 4)%nat then 1
  else if (vertices <=? 8)%nat then 0.8
  else if (9 <=? vertices)%nat && (vertices <=? 12)%nat then 0.5
  else 0.

(** Aspect score: max(0, 1 - |aspectRatio - target| / (target x tolerance)). *)
Definition aspectScore (aspectRatio target tolerance : Q) : Q :=
  Qmax 0 (1 - Qabs (aspectRatio - target) / (target * tolerance)).

Section WithOps.
Context `{ops : CvOps}.

(** Centeredness score: 1 - (distance of the enclosing-circle centre from the
    image centre) / (half diagonal of the image). *)
Definition centerednessScore (contour : Contour) (image_size : Size) : Q :=
  let c := cv_minEnclosingCircle contour in
  let cx := inject_Z (width image_size) / 2 in
  let cy := inject_Z (height image_size) / 2 in
  1 - cv_norm (fst c - cx) (snd c - cy) / cv_norm cx cy.

Definition areaRatio (contour : Contour) (image_size : Size) : Q :=
  cv_contourArea contour
  / inject_Z (width image_size * height image_size).

Definition aspectRatio (contour : Contour) : Q :=
  inject_Z (rwidth (cv_boundingRect contour))
  / inject_Z (rheight (cv_boundingRect contour)).

(** The weighted sum of section 4.4. *)
Definition weightedScore (target tolerance : Q) (contour : Contour)
    (image_size : Size) : Q :=
  0.25 * areaScore (areaRatio contour image_size)
  + 0.40 * aspectScore (aspectRatio contour) target tolerance
  + 0.15 * shapeScore (length contour)
  + 0.20 * centerednessScore contour image_size.

(** The same with the target ratio 1.586 of the ID-1 format. *)
Definition documentScore (tolerance : Q) (contour : Contour)
    (image_size : Size) : Q :=
  weightedScore 1.586 tolerance contour image_size.

(** The admission rule of section 4.3. *)
Definition full_frame (edge_image : Mat Pixels) (contour : Contour) : bool :=
  let b := cv_boundingRect contour in
  (rx b =? 0)%Z && (ry b =? 0)%Z
  && (rwidth b =? cols edge_image)%Z && (rheight b =? rows edge_image)%Z.

Definition keeps (d : ISO_ID1_DocumentDetector) (edge_image : Mat Pixels)
    (contour : Contour) : bool :=
  let imageArea := inject_Z (rows edge_image * cols edge_image) in
  let area := cv_contourArea contour in
  Qle_bool (min_contour_area_ratio_ d * imageArea) area
  && Qle_bool area (max_contour_area_ratio_ d * imageArea)
  && (if full_frame edge_image contour
      then Qle_bool 1.2 (aspectRatio contour)
           && Qle_bool (aspectRatio contour) 2.2
      else true).

(** Section 4.4: the candidate as the scorer sees it, simplified by polygon
    approximation with epsilon = epsilonFactor x perimeter. *)
Definition approximation (d : ISO_ID1_DocumentDetector) (contour : Contour)
    : Contour :=
  cv_approxPolyDP contour (approx_epsilon_factor_ d * cv_arcLength contour).

(** Section 4.7: a contour of the working image in the pixel space of the
    original image: each coordinate divided by the scale factor, a division
    of doubles, and truncated to an integer. *)
Definition mapBack (scale : Q) (contour : Contour) : Contour :=
  map (fun p =>
         mkPoint (static_cast_int (binary64 (inject_Z (px p) / scale)))
                 (static_cast_int (binary64 (inject_Z (py p) / scale))))
      contour.

(** Section 3: the stages of a detection that computes on the image
    [working] and hands the winning contour, mapped back by [back], to the
    normalisation against the size of the image [original]. *)
Definition detectAt (d : ISO_ID1_DocumentDetector)
    (original working : Mat Pixels) (back : Contour -> Contour)
    : outcome (ISO_ID1_DocumentDetector * option DocumentBounds) :=
  d ← ISO.adaptParametersForImageSize d (mat_size working);
  let '(ok, edges) := ISO.preprocessImageForID1Document working in
  if negb ok then mret (d, None)
  else
    '(ok, contours) ← ISO.findDocumentContours d edges;
    if negb ok then mret (d, None)
    else
      '(ok, best) ←
        ISO.findBestDocumentContour d contours (mat_size working) [];
      if negb ok then mret (d, None)
      else
        bounds ← ISO.extractDocumentBounds d (back best) (mat_size original);
        mret (d, bounds).

(** Section 4.6: the centroid of four integer points as integer arithmetic
    gives it (the coordinate sums divided by four, truncated), the angle of
    a point from it, and the distance of a point to the origin (0,0). *)
Definition centroid4 (points : list Point) : Point :=
  mkPoint (Z.quot (fold_right Z.add 0%Z (map px points)) 4)
          (Z.quot (fold_right Z.add 0%Z (map py points)) 4).

Definition angle (c p : Point) : Q :=
  std_atan2 (py p - py c)%Z (px p - px c)%Z.

Definition distanceToOrigin (p : Point) : Q :=
  cv_norm (inject_Z (px p)) (inject_Z (py p)).

End WithOps.
End Spec.

(** ** Vocabulary of the statements *)

(** Sorting by a rational key: the comparator handed to [std::sort], lists in
    strictly ascending key order, and lists whose elements are distinct and
    have pairwise different keys. *)
Section SortByKey.
Context {A : Type} (key : A -> Q).

Definition key_lt (a b : A) : bool := Qltb (key a) (key b).

Definition ascending : list A -> Prop :=
  StronglySorted (fun a b => key a < key b).

Definition distinct_keys (l : list A) : Prop :=
  List.NoDup l /\ forall a b, In a l -> In b l -> key a == key b -> a = b.

End SortByKey.

Section Vocabulary.
Context `{ops : CvOps}.

(** [scored d image_size c s]: the candidate [c], once simplified by the
    polygon approximation of section 4.4, is given the score [s]. *)
Definition scored (d : ISO_ID1_DocumentDetector) (image_size : Size)
    (c : Contour) (s : Q) : Prop :=
  ISO.calculateDocumentScore d (Spec.approximation d c) image_size = Ret s.

(** A point with its angle, as pushed into [point_angles]. *)
Definition tag (c : Point) (p : Point) : Point * Q := (p, ISO.angle_from c p).

End Vocabulary.

(** [inside s p]: the pixel [p] belongs to an image of size [s]. *)
Definition inside (s : Size) (p : Point) : Prop :=
  (0 <= px p < width s)%Z /\ (0 <= py p < height s)%Z.

(** A unit-interval value. *)
Definition unit_interval (q : Q) : Prop := 0 <= q /\ q <= 1.

(** What the safety of the pipeline needs from the primitives: contours lie
    in their image; polygon approximation and convex hull select among the
    points they are given; the bounding box of a non-empty contour is not
    degenerate; the centre of the enclosing circle of points of an image
    lies in the image; the norm is non-negative, positive on vectors with
    components of at least one half, and monotone in the size of the
    components. *)
Class CvSound `{ops : CvOps} : Prop := {
  findContours_inside :
    forall m c p, In c (cv_findContours m) -> In p c -> inside (mat_size m) p;
  approxPolyDP_subset :
    forall c epsilon p, In p (cv_approxPolyDP c epsilon) -> In p c;
  convexHull_subset :
    forall c p, In p (cv_convexHull c) -> In p c;
  boundingRect_positive :
    forall c, c <> [] ->
      (0 < rwidth (cv_boundingRect c))%Z /\ (0 < rheight (cv_boundingRect c))%Z;
  circle_centre_inside :
    forall c s, c <> [] -> (forall p, In p c -> inside s p) ->
      (0 <= fst (cv_minEnclosingCircle c) <= inject_Z (width s))
      /\ (0 <= snd (cv_minEnclosingCircle c) <= inject_Z (height s));
  norm_nonneg : forall x y, 0 <= cv_norm x y;
  norm_positive : forall x y, 1 # 2 <= x -> 1 # 2 <= y -> 0 < cv_norm x y;
  norm_monotone :
    forall x y x' y', Qabs x <= x' -> Qabs y <= y' ->
      cv_norm x y <= cv_norm x' y'
}.

(** The postcondition of a detection: every field of the bounds lies in
    the unit interval. *)
Definition bounds_in_range (b : DocumentBounds) : Prop :=
  unit_interval (confidence b)
  /\ unit_interval (x1 b) /\ unit_interval (y1 b)
  /\ unit_interval (x2 b) /\ unit_interval (y2 b)
  /\ unit_interval (x3 b) /\ unit_interval (y3 b)
  /\ unit_interval (x4 b) /\ unit_interval (y4 b).

(** What the generic detector needs besides, for the contours it turns into
    their bounding box: the box of points of an image lies in the image (its
    right and lower borders are one past the largest coordinates). *)
Class CvSoundRect `{ops : CvOps} : Prop := {
  boundingRect_inside :
    forall c s, c <> [] -> (forall p, In p c -> inside s p) ->
      (0 <= rx (cv_boundingRect c))%Z
      /\ (0 <= rwidth (cv_boundingRect c))%Z
      /\ (rx (cv_boundingRect c) + rwidth (cv_boundingRect c) <= width s)%Z
      /\ (0 <= ry (cv_boundingRect c))%Z
      /\ (0 <= rheight (cv_boundingRect c))%Z
      /\ (ry (cv_boundingRect c) + rheight (cv_boundingRect c) <= height s)%Z
}.

(** The comparator of [selectFourCorners] (line 350) and its order: by
    [x], then by [y]. *)
Definition lexb (a b : Point) : bool :=
  (px a <? px b)%Z || ((px a =? px b)%Z && (py a <? py b)%Z).

Definition lex_lt (a b : Point) : Prop :=
  (px a < px b)%Z \/ (px a = px b /\ (py a < py b)%Z).

Definition lex_le (a b : Point) : Prop := lex_lt a b \/ a = b.

(** [first_least key l p]: [p] is the first element of [l] whose key is the
    least one, what [std::min_element] returns; [first_greatest] likewise for
    [std::max_element]. *)
Definition first_least {A} (key : A -> Z) (l : list A) (p : A) : Prop :=
  exists before after,
    l = before ++ p :: after
    /\ (forall q, In q before -> (key p < key q)%Z)
    /\ (forall q, In q after -> (key p <= key q)%Z).

Definition first_greatest {A} (key : A -> Z) (l : list A) (p : A) : Prop :=
  exists before after,
    l = before ++ p :: after
    /\ (forall q, In q before -> (key q < key p)%Z)
    /\ (forall q, In q after -> (key q <= key p)%Z).

(** The key by which the generic detector sorts its tagged corners. *)
Definition quadrant_key (a : Point * Z) : Q := inject_Z (snd a).

(** The keys that [id_reader_set_config] hands on to the detector. *)
Definition detector_key (key : string) : bool :=
  String.eqb key "canny_threshold1" || String.eqb key "canny_threshold2"
  || String.eqb key "min_contour_area" || String.eqb key "max_contour_area".

(** One parameter of each pair is at the value of the constructor, and so
    is the epsilon factor. *)
Definition partner_at_default (d : Generic.DocumentDetector) : Prop :=
  (Generic.canny_threshold1_ d = 50 \/ Generic.canny_threshold2_ d = 150)
  /\ (Generic.min_contour_area_ d = 10000
      \/ Generic.max_contour_area_ d = 500000)
  /\ Generic.approx_epsilon_factor_ d = 0.02.

(** The successful results of a test run. *)
Definition successes (results : list Harness.TestResult)
    : list Harness.TestResult :=
  List.filter Harness.detection_success results.

(** The detector of a context that the C interface can be in: the context
    of [id_reader_init], after any sequence of configuration calls. *)
Definition configured_detector (stod : string -> option Q)
    (calls : list (string * string)) : option Generic.DocumentDetector :=
  match Api.id_reader_init true (Some None) with
  | (_, Some context) => Api.detector <$> Api.configure stod calls context
  | (_, None) => None
  end.

(** ** Sample inputs *)

Module Samples.

(** A right triangle in a 200 x 200 frame; its hypotenuse is a diameter of
    its enclosing circle, whose centre is the centre of the frame. *)
Definition triangle : Contour :=
  [mkPoint 50 50; mkPoint 150 150; mkPoint 150 50].

(** A 1200 x 800 photograph that shows one rectangle, centred,
    600 x 400. *)
Definition card : Contour := Ref.rectangle 300 200 900 600.
Definition small_photo : Mat (list Contour) := Ref.image 1200 800 [card].

(** The value of a score, 0 when there is none. *)
Definition score_value (m : outcome Q) : Q :=
  match m with Ret s => s | _ => 0 end.

(** The score of a candidate of the 1200 x 800 frame. *)
Definition score_of (c : Contour) : Q :=
  score_value (@ISO.calculateDocumentScore Ref.ops ISO_ID1_new
                 (@Spec.approximation Ref.ops ISO_ID1_new c)
                 (mkSize 1200 800)).

(** Three candidates of the 1200 x 800 frame: a narrow upright rectangle,
    and two rectangles of the same size at the same distance to the left
    and to the right of the centre, which score alike. *)
Definition narrow_card : Contour := Ref.rectangle 100 100 160 500.
Definition left_card : Contour := Ref.rectangle 200 200 800 600.
Definition right_card : Contour := Ref.rectangle 400 200 1000 600.
Definition candidates : list Contour := [narrow_card; left_card; right_card].


(** A 3264 x 2448 photograph whose working image (1200 x 900) shows the
    rectangle (75,150)-(1125,750).  The scale factor, the double nearest to
    1200 / 3264, lies above 1200 / 3264: mapped back, the corner (75,150)
    is (203,407), where the exact quotients are 204 and 408. *)
Definition phone_card : Contour := Ref.rectangle 75 150 1125 750.
Definition phone_photo : Mat (list Contour) :=
  Ref.image 3264 2448 [phone_card].

(** A portrait photograph, 1000 x 3000. *)
Definition portrait : Mat (list Contour) := Ref.image 1000 3000 [].

(** A 300 x 200 image with one rectangle covering 10.5 % of it, and a
    detector configured by its setters. *)
Definition stamp : Contour := Ref.rectangle 100 70 200 133.
Definition thumbnail : Mat (list Contour) := Ref.image 300 200 [stamp].
Definition configured : ISO_ID1_DocumentDetector :=
  ISO.setAreaRatios (ISO.setCannyThresholds ISO_ID1_new 100 200) 0.3 0.6.

(** Four corners of a quadrilateral, and the same corners in another order. *)
Definition corners : list Point :=
  [mkPoint 10 10; mkPoint 110 12; mkPoint 108 70; mkPoint 12 68].
Definition corners_shuffled : list Point :=
  [mkPoint 108 70; mkPoint 10 10; mkPoint 12 68; mkPoint 110 12].

(** Four corners of which two lie in the same direction from the integer
    point (4, 3), though not from their centroid (4.25, 3.5); and the same
    corners with those two exchanged. *)
Definition tied_corners : list Point :=
  [mkPoint 6 5; mkPoint 8 7; mkPoint 0 2; mkPoint 3 0].
Definition tied_corners_swapped : list Point :=
  [mkPoint 8 7; mkPoint 6 5; mkPoint 0 2; mkPoint 3 0].

(** A rectangle with a fifth vertex on its upper side. *)
Definition pentagon : Contour :=
  [mkPoint 0 0; mkPoint 50 0; mkPoint 100 0; mkPoint 100 60; mkPoint 0 60].

(** The context of [id_reader_init], and the 1200 x 800 sample as a caller
    hands it to the C interface: BGR pixels in rows of 3600 bytes. *)
Definition fresh_context : Api.id_reader_context :=
  Api.mkContext Generic.DocumentDetector_new ∅.

Definition api_image : Api.id_reader_image_t (list Contour) :=
  Api.mkImage (Some [card]) 1200 800 3600 Api.ID_READER_IMAGE_FORMAT_BGR.

(** A test run of three detections with the confidence 0.9f. *)
Definition no_bounds : DocumentBounds := mkBounds 0 0 0 0 0 0 0 0 0.
Definition rounded_run : list Harness.TestResult :=
  [Harness.mkTestResult "a.jpg" true (binary32 0.9) 12 no_bounds EmptyString;
   Harness.mkTestResult "b.jpg" true (binary32 0.9) 12 no_bounds EmptyString;
   Harness.mkTestResult "c.jpg" true (binary32 0.9) 12 no_bounds EmptyString].

(** A top-down bitmap of 2 x 2 pixels: 54 header bytes, then two rows of
    6 pixel bytes and 2 padding bytes. *)
Definition bytes (l : list N) : list Byte.byte :=
  map (fun n => match Byte.of_N n with Some b => b | None => Byte.x00 end) l.

Definition bitmap : list Byte.byte :=
  bytes [66; 77; 70; 0; 0; 0; 0; 0; 0; 0; 54; 0; 0; 0;
         40; 0; 0; 0; 2; 0; 0; 0; 254; 255; 255; 255; 1; 0; 24; 0;
         0; 0; 0; 0; 16; 0; 0; 0; 0; 0; 0; 0; 0; 0; 0; 0;
         0; 0; 0; 0; 0; 0; 0; 0;
         1; 2; 3; 4; 5; 6; 0; 0; 7; 8; 9; 10; 11; 12; 0; 0]%N.

(** The headers of a bitmap without rows, two pixels wide from right to
    left: width -2, height 0. *)
Definition bitmap_without_rows : list Byte.byte :=
  bytes [66; 77; 54; 0; 0; 0; 0; 0; 0; 0; 54; 0; 0; 0;
         40; 0; 0; 0; 254; 255; 255; 255; 0; 0; 0; 0; 1; 0; 24; 0;
         0; 0; 0; 0; 0; 0; 0; 0; 0; 0; 0; 0; 0; 0; 0; 0;
         0; 0; 0; 0; 0; 0; 0; 0]%N.

End Samples.

(** * Properties *)

(** ** Arithmetic and the outcome monad *)

Lemma Qltb_lt (x y : Q) : Qltb x y = true <-> x < y.
Proof.
  unfold Qltb. rewrite negb_true_iff. split; intros H.
  - destruct (Qlt_le_dec x y) as [|Hle]; [assumption|].
    apply Qle_bool_iff in Hle. congruence.
  - destruct (Qle_bool y x) eqn:E; [|reflexivity].
    apply Qle_bool_iff in E. lra.
Qed.

Lemma Qltb_ge (x y : Q) : Qltb x y = false <-> y <= x.
Proof.
  unfold Qltb. rewrite negb_false_iff. apply Qle_bool_iff.
Qed.

Lemma Qle_bool_gt (x y : Q) : Qle_bool x y = false <-> y < x.
Proof.
  split; intros H.
  - destruct (Qlt_le_dec y x) as [|Hle]; [assumption|].
    apply Qle_bool_iff in Hle. congruence.
  - destruct (Qle_bool x y) eqn:E; [|reflexivity].
    apply Qle_bool_iff in E. lra.
Qed.

Lemma bind_Ret {A B} (f : A -> outcome B) (a : A) : (Ret a ≫= f) = f a.
Proof. reflexivity. Qed.

Lemma bind_returns {A B} (f : A -> outcome B) (m : outcome A) (b : B) :
  (m ≫= f) = Ret b -> exists a, m = Ret a /\ f a = Ret b.
Proof. destruct m; simpl; intros H; try discriminate. eauto. Qed.

Lemma fdiv_Ret (a b : Q) : ~ b == 0 -> fdiv a b = Ret (a / b).
Proof.
  intros Hb. unfold fdiv. destruct (Qeq_bool b 0) eqn:E; [|reflexivity].
  apply Qeq_bool_iff in E. contradiction.
Qed.

Lemma inject_Z_pos (z : Z) : (0 < z)%Z -> 0 < inject_Z z.
Proof. intros H. change 0 with (inject_Z 0). rewrite <- Zlt_Qlt. exact H. Qed.

Lemma inject_Z_nonzero (z : Z) : z <> 0%Z -> ~ inject_Z z == 0.
Proof.
  intros H E. apply H. unfold Qeq in E. simpl in E. lia.
Qed.

Ltac qbool :=
  repeat match goal with
  | H : Qle_bool _ _ = true |- _ => apply Qle_bool_iff in H
  | H : Qle_bool _ _ = false |- _ => apply Qle_bool_gt in H
  | H : Qltb _ _ = true |- _ => apply Qltb_lt in H
  | H : Qltb _ _ = false |- _ => apply Qltb_ge in H
  end.

(** ** Rounding of doubles *)

Lemma pow2_pos (z : Z) : 0 < 2 ^ z.
Proof. apply Qpower_0_lt. reflexivity. Qed.

Lemma pow2_plus (a b : Z) : 2 ^ (a + b) == 2 ^ a * 2 ^ b.
Proof. apply Qpower_plus. discriminate. Qed.

Lemma pow2_log2 (n : positive) :
  2 ^ Z.log2 (Zpos n) <= inject_Z (Zpos n)
  /\ inject_Z (Zpos n) < 2 * 2 ^ Z.log2 (Zpos n).
Proof.
  destruct (Z.log2_spec (Zpos n)) as [Hl Hu]; [reflexivity|].
  pose proof (Z.log2_nonneg (Zpos n)) as H0.
  split.
  - change 2 with (inject_Z 2). rewrite <- Zpower_Qpower by exact H0.
    rewrite <- Zle_Qle. exact Hl.
  - rewrite <- (Qpower_1_r 2) at 1. rewrite <- pow2_plus.
    change 2 with (inject_Z 2). rewrite <- Zpower_Qpower by lia.
    rewrite <- Zlt_Qlt. rewrite Z.add_comm. exact Hu.
Qed.

(** [floor_log2] is the exponent of the leading bit. *)
Lemma floor_log2_spec (q : Q) :
  0 < q -> 2 ^ floor_log2 q <= q /\ q < 2 * 2 ^ floor_log2 q.
Proof.
  intros Hq. destruct q as [n d].
  assert (Hn : (0 < n)%Z) by (unfold Qlt in Hq; simpl in Hq; lia).
  destruct n as [|n|n]; try lia. clear Hn.
  unfold floor_log2. cbn [Qnum Qden].
  set (ln := Z.log2 (Zpos n)). set (ld := Z.log2 (Zpos d)).
  destruct (pow2_log2 n) as [Hn1 Hn2]. destruct (pow2_log2 d) as [Hd1 Hd2].
  fold ln in Hn1, Hn2. fold ld in Hd1, Hd2.
  pose proof (pow2_pos ln) as Pn. pose proof (pow2_pos ld) as Pd.
  pose proof (pow2_pos (ln - ld)) as Pk.
  assert (Hk : 2 ^ (ln - ld) * 2 ^ ld == 2 ^ ln).
  { rewrite <- pow2_plus. replace (ln - ld + ld)%Z with ln by lia.
    reflexivity. }
  assert (Hk1 : 2 * 2 ^ (ln - ld - 1) == 2 ^ (ln - ld)).
  { rewrite <- (Qpower_1_r 2) at 1. rewrite <- pow2_plus.
    replace (1 + (ln - ld - 1))%Z with (ln - ld)%Z by lia. reflexivity. }
  assert (Hqv : Zpos n # d == inject_Z (Zpos n) / inject_Z (Zpos d))
    by apply Qmake_Qdiv.
  set (N := inject_Z (Zpos n)) in *. set (D := inject_Z (Zpos d)) in *.
  set (A := 2 ^ ln) in *. set (B := 2 ^ ld) in *.
  set (K := 2 ^ (ln - ld)) in *.
  assert (HD : 0 < D) by lra.
  assert (Hmul : (Zpos n # d) * D == N).
  { rewrite Hqv. field. lra. }
  set (x := Zpos n # d) in *.
  destruct (Qle_bool K x) eqn:E.
  - apply Qle_bool_iff in E. fold K. split; [exact E|].
    apply Qnot_le_lt. intros Hc.
    assert (2 * K * D <= x * D) by nra.
    assert (2 * K * B <= 2 * K * D) by nra.
    nra.
  - apply Qle_bool_gt in E.
    set (K1 := 2 ^ (ln - ld - 1)) in *.
    split; [|lra].
    apply Qnot_lt_le. intros Hc.
    assert (x * D < K1 * D) by nra.
    assert (K1 * D < K1 * (2 * B)) by nra.
    nra.
Qed.

Lemma cvRound_near (q : Q) :
  q - (1 # 2) <= inject_Z (cvRound q) /\ inject_Z (cvRound q) <= q + (1 # 2).
Proof.
  unfold cvRound.
  pose proof (Qfloor_le q) as Hf. pose proof (Qlt_floor q) as Hc.
  rewrite inject_Z_plus in Hc. change (inject_Z 1) with 1 in Hc.
  destruct (Qltb (q - inject_Z (Qfloor q)) (1 # 2)) eqn:E1; qbool; [lra|].
  destruct (Qltb (1 # 2) (q - inject_Z (Qfloor q))) eqn:E2; qbool.
  - rewrite inject_Z_plus. change (inject_Z 1) with 1. lra.
  - destruct (Z.even (Qfloor q)); [lra|].
    rewrite inject_Z_plus. change (inject_Z 1) with 1. lra.
Qed.

Lemma cvRound_unique (q : Q) (n : Z) :
  inject_Z n - (1 # 2) < q -> q < inject_Z n + (1 # 2) -> cvRound q = n.
Proof.
  intros Hl Hu. destruct (cvRound_near q) as [H1 H2].
  assert (Hlt : inject_Z (cvRound q) < inject_Z (n + 1)).
  { rewrite inject_Z_plus. change (inject_Z 1) with 1. lra. }
  assert (Hgt : inject_Z n < inject_Z (cvRound q + 1)).
  { rewrite inject_Z_plus. change (inject_Z 1) with 1. lra. }
  rewrite <- Zlt_Qlt in Hlt, Hgt. lia.
Qed.

(** The relative error of a rounding is at most [2 ^ -53]. *)
Lemma binary64_error (q : Q) :
  0 < q ->
  q * (1 - (1 # 9007199254740992)) <= binary64 q
  /\ binary64 q <= q * (1 + (1 # 9007199254740992)).
Proof.
  intros Hq. unfold binary64, round_to. change (53 - 1)%Z with 52%Z.
  assert (E0 : Qeq_bool q 0 = false).
  { destruct (Qeq_bool q 0) eqn:E; [|reflexivity].
    apply Qeq_bool_iff in E. lra. }
  assert (E1 : Qltb q 0 = false) by (apply Qltb_ge; lra).
  rewrite E0, E1.
  assert (Ha : Qabs q = q).
  { destruct q as [n d]. unfold Qlt in Hq. simpl in Hq.
    destruct n; try lia. reflexivity. }
  rewrite Ha.
  destruct (floor_log2_spec q Hq) as [Hl _].
  set (f := floor_log2 q) in *.
  pose proof (pow2_pos (f - 52)) as Pe.
  pose proof (cvRound_near (q / 2 ^ (f - 52))) as [H1 H2].
  set (m := inject_Z (cvRound (q / 2 ^ (f - 52)))) in *.
  assert (Hf : 2 ^ f == 2 ^ (f - 52) * 4503599627370496).
  { replace f with ((f - 52) + 52)%Z at 1 by lia. rewrite pow2_plus.
    assert (H52 : 2 ^ 52 == 4503599627370496) by (vm_compute; reflexivity).
    rewrite H52. reflexivity. }
  set (E := 2 ^ (f - 52)) in *.
  assert (Hd : q / E * E == q) by (field; lra).
  set (x := q / E) in *.
  split; nra.
Qed.

Lemma binary64_nonneg (q : Q) :
  0 <= q ->
  0 <= binary64 q /\ binary64 q <= q * (1 + (1 # 9007199254740992)).
Proof.
  intros Hq. destruct (Qeq_bool q 0) eqn:E.
  - unfold binary64, round_to. rewrite E. apply Qeq_bool_iff in E. lra.
  - assert (Hp : 0 < q).
    { apply Qle_lteq in Hq. destruct Hq as [Hq|Hq]; [exact Hq|].
      symmetry in Hq. apply Qeq_bool_iff in Hq. congruence. }
    destruct (binary64_error q Hp). split; [nra|assumption].
Qed.

(** A rounding of a positive number is positive. *)
Lemma round_to_positive (precision : Z) (q : Q) :
  (1 <= precision)%Z -> 0 < q -> 0 < round_to precision q.
Proof.
  intros Hp Hq. unfold round_to.
  assert (E0 : Qeq_bool q 0 = false).
  { destruct (Qeq_bool q 0) eqn:E; [|reflexivity].
    apply Qeq_bool_iff in E. lra. }
  assert (E1 : Qltb q 0 = false) by (apply Qltb_ge; lra).
  rewrite E0, E1.
  assert (Ha : Qabs q = q).
  { destruct q as [n d]. unfold Qlt in Hq. simpl in Hq.
    destruct n; try lia. reflexivity. }
  rewrite Ha.
  destruct (floor_log2_spec q Hq) as [Hl _].
  set (f := floor_log2 q) in *.
  pose proof (pow2_pos (f - (precision - 1))) as Pe.
  pose proof (cvRound_near (q / 2 ^ (f - (precision - 1)))) as [H1 _].
  assert (Hf : 2 ^ f == 2 ^ (f - (precision - 1)) * 2 ^ (precision - 1)).
  { rewrite <- pow2_plus.
    replace (f - (precision - 1) + (precision - 1))%Z with f by lia.
    reflexivity. }
  assert (Hone : 1 <= 2 ^ (precision - 1)).
  { apply Qpower_1_le; [lra|lia]. }
  set (E := 2 ^ (f - (precision - 1))) in *.
  assert (Hd : q / E * E == q) by (field; lra).
  set (x := q / E) in *.
  assert (Hx : 1 <= x) by nra.
  assert (Hm : (0 < cvRound x)%Z).
  { rewrite Zlt_Qlt. change (inject_Z 0) with 0. lra. }
  assert (Hmq : 1 <= inject_Z (cvRound x)).
  { change 1 with (inject_Z 1). rewrite <- Zle_Qle. lia. }
  nra.
Qed.

Lemma fdivf_Ret (a b : Q) : ~ b == 0 -> fdivf a b = Ret (binary32 (a / b)).
Proof.
  intros Hb. unfold fdivf. destruct (Qeq_bool b 0) eqn:E; [|reflexivity].
  apply Qeq_bool_iff in E. contradiction.
Qed.

Lemma ddiv_Ret (a b : Q) : ~ b == 0 -> ddiv a b = Ret (binary64 (a / b)).
Proof.
  intros Hb. unfold ddiv. destruct (Qeq_bool b 0) eqn:E; [|reflexivity].
  apply Qeq_bool_iff in E. contradiction.
Qed.

(** ** The parameter selector *)

(** The selector's wording "width:height (or height:width) exceeds 2.5" is
    the test on the ratio of the larger to the smaller dimension. *)
Lemma panoramic_wording (w h : Z) :
  (0 < w)%Z -> (0 < h)%Z ->
  Spec.panoramic w h = true
  <-> 2.5 < inject_Z w / inject_Z h \/ 2.5 < inject_Z h / inject_Z w.
Proof.
  intros Hw Hh. unfold Spec.panoramic. rewrite Qltb_lt.
  assert (Hsmall : forall a b : Z, (0 < b)%Z -> (a <= b)%Z ->
                     inject_Z a / inject_Z b <= 1).
  { intros a b Hb Hab. apply Qle_shift_div_r; [apply inject_Z_pos; lia|].
    rewrite Qmult_1_l. rewrite <- Zle_Qle. exact Hab. }
  destruct (Z.le_ge_cases w h) as [Hle|Hle].
  - rewrite Z.max_r, Z.min_l by lia. split; [auto|].
    intros [H|H]; [|exact H].
    specialize (Hsmall w h Hh Hle). lra.
  - rewrite Z.max_l, Z.min_r by lia. split; [auto|].
    intros [H|H]; [exact H|].
    assert (Hhw : (h <= w)%Z) by lia.
    specialize (Hsmall h w Hw Hhw). lra.
Qed.

Lemma bucket_cases (m : Z) :
  ((m <? 400)%Z = true /\ (m < 400)%Z)
  \/ ((m <? 400)%Z = false /\ (m <? 800)%Z = true /\ (m <=? 799)%Z = true)
  \/ ((m <? 400)%Z = false /\ (m <? 800)%Z = false /\ (m <=? 799)%Z = false
      /\ (m <? 1500)%Z = true /\ (m <=? 1499)%Z = true)
  \/ ((m <? 400)%Z = false /\ (m <? 800)%Z = false /\ (m <=? 799)%Z = false
      /\ (m <? 1500)%Z = false /\ (m <=? 1499)%Z = false).
Proof.
  destruct (Z.lt_ge_cases m 400); [left|right].
  { split; [apply Z.ltb_lt|]; lia. }
  destruct (Z.lt_ge_cases m 800); [left|right].
  { repeat split; [apply Z.ltb_ge|apply Z.ltb_lt|apply Z.leb_le]; lia. }
  destruct (Z.lt_ge_cases m 1500); [left|right].
  { repeat split;
      [apply Z.ltb_ge|apply Z.ltb_ge|apply Z.leb_gt
      |apply Z.ltb_lt|apply Z.leb_le]; lia. }
  repeat split;
    [apply Z.ltb_ge|apply Z.ltb_ge|apply Z.leb_gt
    |apply Z.ltb_ge|apply Z.leb_gt]; lia.
Qed.

(** The selector returns on a non-empty frame, and what it returns. *)
Lemma adaptParametersForImageSize_select
    (d : ISO_ID1_DocumentDetector) (image_size : Size) :
  (0 < width image_size)%Z -> (0 < height image_size)%Z ->
  exists d',
    ISO.adaptParametersForImageSize d image_size = Ret d'
    /\ Spec.bundle_eq (Spec.bundle_of d')
                      (Spec.select (width image_size) (height image_size))
    /\ target_aspect_ratio_ d' = target_aspect_ratio_ d
    /\ 0 < min_contour_area_ratio_ d'
    /\ min_contour_area_ratio_ d' < max_contour_area_ratio_ d'
    /\ 0 < canny_threshold1_ d' /\ 0 < canny_threshold2_ d'.
Proof.
  intros Hw Hh.
  unfold ISO.adaptParametersForImageSize, Spec.select, Spec.panoramic.
  set (m := Z.min (width image_size) (height image_size)).
  set (M := Z.max (width image_size) (height image_size)).
  assert (Hm : (0 < m)%Z) by (subst m; lia).
  rewrite fdiv_Ret by (apply inject_Z_nonzero; lia).
  rewrite bind_Ret. unfold Spec.bucket.
  destruct (bucket_cases m)
    as [[-> _]|[(-> & -> & ->)|[(-> & -> & -> & -> & ->)
                               |(-> & -> & -> & -> & ->)]]];
    destruct (Qltb 2.5 (inject_Z M / inject_Z m));
    (eexists; split; [reflexivity|]);
    unfold Spec.bundle_eq; simpl; repeat split; try reflexivity; lra.
Qed.

(** C8.  For a working image of positive width and height,
    [adaptParametersForImageSize] returns (no division by zero), the six
    adaptive parameters are those of the table of section 4.1 for the smaller
    dimension, with the minimum area ratio halved and the aspect tolerance
    multiplied by 1.2 when the larger dimension is more than 2.5 times the
    smaller; the target aspect ratio is untouched; and in every case
    0 < minAreaRatio < maxAreaRatio and both thresholds are positive. *)
Theorem adaptParametersForImageSize_table
    (d : ISO_ID1_DocumentDetector) (image_size : Size) :
  (0 < width image_size)%Z -> (0 < height image_size)%Z ->
  exists d',
    ISO.adaptParametersForImageSize d image_size = Ret d'
    /\ Spec.bundle_eq (Spec.bundle_of d')
                      (Spec.select (width image_size) (height image_size))
    /\ target_aspect_ratio_ d' = target_aspect_ratio_ d
    /\ 0 < min_contour_area_ratio_ d'
    /\ min_contour_area_ratio_ d' < max_contour_area_ratio_ d'
    /\ 0 < canny_threshold1_ d' /\ 0 < canny_threshold2_ d'.
Proof. apply adaptParametersForImageSize_select. Qed.

(** The theorem at a 1600 x 500 frame: second bucket, panoramic. *)
Lemma adaptParametersForImageSize_table_witness :
  exists d',
    ISO.adaptParametersForImageSize ISO_ID1_new (mkSize 1600 500) = Ret d'
    /\ Spec.bundle_eq (Spec.bundle_of d') (Spec.select 1600 500)
    /\ target_aspect_ratio_ d' = target_aspect_ratio_ ISO_ID1_new
    /\ 0 < min_contour_area_ratio_ d'
    /\ min_contour_area_ratio_ d' < max_contour_area_ratio_ d'
    /\ 0 < canny_threshold1_ d' /\ 0 < canny_threshold2_ d'.
Proof.
  apply (adaptParametersForImageSize_table ISO_ID1_new (mkSize 1600 500));
    simpl; lia.
Defined.

(** ** The contour filter *)

Section Filter.
Context `{ops : CvOps}.

Lemma remove_if_filter {A} (pred : A -> outcome bool) (keep : A -> bool)
    (l : list A) :
  (forall a, In a l -> pred a = Ret (negb (keep a))) ->
  remove_if pred l = Ret (List.filter keep l).
Proof.
  induction l as [|a l IH]; intros H; simpl; [reflexivity|].
  rewrite (H a) by (left; reflexivity). rewrite bind_Ret.
  rewrite IH by (intros b Hb; apply H; right; exact Hb).
  rewrite bind_Ret. destruct (keep a); reflexivity.
Qed.

(** The predicate of the code removes what the admission rule does not
    keep. *)
Lemma reject_contour_keeps (d : ISO_ID1_DocumentDetector)
    (edge_image : Mat Pixels) (contour : Contour) :
  (0 < rows edge_image)%Z ->
  let image_area := inject_Z (rows edge_image * cols edge_image) in
  ISO.reject_contour (image_area * min_contour_area_ratio_ d)
                     (image_area * max_contour_area_ratio_ d)
                     edge_image contour
  = Ret (negb (Spec.keeps d edge_image contour)).
Proof.
  intros Hrows image_area. unfold ISO.reject_contour, Spec.keeps.
  fold image_area. unfold Qltb.
  rewrite (Qmult_comm image_area (min_contour_area_ratio_ d)).
  rewrite (Qmult_comm image_area (max_contour_area_ratio_ d)).
  destruct (Qle_bool (min_contour_area_ratio_ d * image_area)
                     (cv_contourArea contour)); simpl; [|reflexivity].
  destruct (Qle_bool (cv_contourArea contour)
                     (max_contour_area_ratio_ d * image_area));
    simpl; [|reflexivity].
  unfold Spec.full_frame.
  set (b := cv_boundingRect contour).
  destruct ((rx b =? 0)%Z && (ry b =? 0)%Z
            && (rwidth b =? cols edge_image)%Z
            && (rheight b =? rows edge_image)%Z) eqn:E; [|reflexivity].
  apply andb_prop in E. destruct E as [_ E]. apply Z.eqb_eq in E.
  rewrite fdiv_Ret by (apply inject_Z_nonzero; lia).
  rewrite bind_Ret. unfold Spec.aspectRatio. fold b.
  destruct (Qle_bool 1.2 _ && Qle_bool _ 2.2); reflexivity.
Qed.

(** The admission rule, in words. *)
Lemma keeps_wording (d : ISO_ID1_DocumentDetector) (edge_image : Mat Pixels)
    (contour : Contour) :
  Spec.keeps d edge_image contour = true
  <-> (let imageArea := inject_Z (rows edge_image * cols edge_image) in
       min_contour_area_ratio_ d * imageArea <= cv_contourArea contour
       /\ cv_contourArea contour <= max_contour_area_ratio_ d * imageArea)
      /\ (Spec.full_frame edge_image contour = true ->
          1.2 <= Spec.aspectRatio contour /\ Spec.aspectRatio contour <= 2.2).
Proof.
  unfold Spec.keeps. rewrite !andb_true_iff, !Qle_bool_iff.
  destruct (Spec.full_frame edge_image contour).
  - rewrite andb_true_iff, !Qle_bool_iff. tauto.
  - intuition discriminate.
Qed.

(** The output vector of [findDocumentContours] and its flag. *)
Lemma findDocumentContours_kept (d : ISO_ID1_DocumentDetector)
    (edge_image : Mat Pixels) :
  (0 < rows edge_image)%Z ->
  let kept :=
    List.filter (Spec.keeps d edge_image) (cv_findContours edge_image) in
  ISO.findDocumentContours d edge_image
  = Ret (match kept with [] => false | _ => true end, kept).
Proof.
  intros Hrows kept. subst kept. unfold ISO.findDocumentContours.
  destruct (cv_findContours edge_image) as [|c0 l0] eqn:Ef; [reflexivity|].
  rewrite (remove_if_filter _ (Spec.keeps d edge_image)).
  - rewrite bind_Ret. reflexivity.
  - intros c _. apply (reject_contour_keeps d edge_image c Hrows).
Qed.

Lemma filter_nil_iff {A} (f : A -> bool) (l : list A) :
  List.filter f l = [] <-> forall a, In a l -> f a = false.
Proof.
  split.
  - intros E a Ha. destruct (f a) eqn:K; [|reflexivity].
    assert (Hin : In a (List.filter f l)) by (apply filter_In; tauto).
    rewrite E in Hin. destruct Hin.
  - intros H. destruct (List.filter f l) as [|a l'] eqn:E; [reflexivity|].
    assert (Hin : In a (List.filter f l)) by (rewrite E; left; reflexivity).
    apply filter_In in Hin. destruct Hin as [Hin K].
    rewrite (H a Hin) in K. discriminate.
Qed.

(** C9.  For an edge map with at least one row, [findDocumentContours]
    returns, and its output vector holds exactly the extracted contours that
    the admission rule keeps, in their order: a contour is kept if and only
    if its area lies between [minAreaRatio] and [maxAreaRatio] times the
    image area and, when its bounding box is the whole image, its
    bounding-box aspect ratio lies in [1.2, 2.2].  The function reports
    failure exactly when no contour was extracted or every contour was
    filtered out. *)
Theorem findDocumentContours_filter (d : ISO_ID1_DocumentDetector)
    (edge_image : Mat Pixels) :
  (0 < rows edge_image)%Z ->
  let found := cv_findContours edge_image in
  let kept := List.filter (Spec.keeps d edge_image) found in
  exists ok,
    ISO.findDocumentContours d edge_image = Ret (ok, kept)
    /\ (ok = false
        <-> found = []
            \/ (forall c, In c found -> Spec.keeps d edge_image c = false))
    /\ (ok = true <-> kept <> [])
    /\ (forall c,
          Spec.keeps d edge_image c = true
          <-> (let imageArea :=
                 inject_Z (rows edge_image * cols edge_image) in
               min_contour_area_ratio_ d * imageArea <= cv_contourArea c
               /\ cv_contourArea c <= max_contour_area_ratio_ d * imageArea)
              /\ (Spec.full_frame edge_image c = true ->
                  1.2 <= Spec.aspectRatio c /\ Spec.aspectRatio c <= 2.2)).
Proof.
  intros Hrows found kept.
  pose proof (filter_nil_iff (Spec.keeps d edge_image) found) as Hnone.
  fold kept in Hnone.
  exists (match kept with [] => false | _ => true end).
  split; [|split; [|split]].
  - apply findDocumentContours_kept. exact Hrows.
  - rewrite <- Hnone. destruct kept eqn:Ek.
    + tauto.
    + split; [discriminate|]. intros [Hf|Hk]; [|discriminate].
      subst kept. rewrite Hf in Ek. discriminate.
  - destruct kept; split; congruence.
  - intros c. apply keeps_wording.
Qed.

End Filter.

(** The theorem on the 1200 x 800 sample. *)
Lemma findDocumentContours_filter_witness :
  exists ok,
    @ISO.findDocumentContours Ref.ops ISO_ID1_new Samples.small_photo
    = Ret (ok, List.filter (@Spec.keeps Ref.ops ISO_ID1_new Samples.small_photo)
                           [Samples.card]).
Proof.
  destruct (@findDocumentContours_filter Ref.ops ISO_ID1_new
              Samples.small_photo) as (ok & H & _); [reflexivity|].
  exists ok. exact H.
Defined.

(** ** The scorer *)

Lemma area_score_wording (r : Q) :
  (if Qle_bool 0.002 r && Qle_bool r 0.99 then
     if Qle_bool 0.01 r && Qle_bool r 0.7 then 1
     else if Qltb 0.85 r then 0.9 else 0.5
   else 0) = Spec.areaScore r.
Proof.
  unfold Spec.areaScore.
  destruct (Qle_bool 0.002 r) eqn:E1; destruct (Qle_bool r 0.99) eqn:E2;
  destruct (Qltb r 0.002) eqn:E3; destruct (Qltb 0.99 r) eqn:E4; simpl;
  qbool; try lra; try reflexivity.
  destruct (Qle_bool 0.01 r) eqn:E5; destruct (Qle_bool r 0.7) eqn:E6;
    destruct (Qle_bool r 0.70) eqn:E7; simpl; qbool; try lra; reflexivity.
Qed.

Lemma areaScore_le_1 r : Spec.areaScore r <= 1.
Proof.
  unfold Spec.areaScore.
  destruct (_ || _); [lra|]. destruct (_ && _); [lra|].
  destruct (Qltb _ _); lra.
Qed.

Lemma shape_score_wording (n : nat) :
  (4 <= n)%nat ->
  (if (n =? 4)%nat then 1
   else if (4 <=? n)%nat && (n <=? 8)%nat then 0.8
   else if (8 <? n)%nat && (n <=? 12)%nat then 0.5
   else 0) = Spec.shapeScore n.
Proof.
  intros H. unfold Spec.shapeScore.
  do 13 (destruct n as [|n]; [try lia; reflexivity|]). reflexivity.
Qed.

Lemma shapeScore_le_1 n : Spec.shapeScore n <= 1.
Proof.
  unfold Spec.shapeScore.
  destruct (_ =? _)%nat; [lra|]. destruct (_ <=? _)%nat; [lra|].
  destruct (_ && _); lra.
Qed.

Lemma aspect_score_wording (ar t tol : Q) :
  0 < t -> 0 < tol ->
  let diff := Qabs (ar - t) / t in
  (Qle_bool diff tol = true ->
     1 - diff / tol == Spec.aspectScore ar t tol)
  /\ (Qle_bool diff tol = false -> 0 == Spec.aspectScore ar t tol).
Proof.
  intros Ht Htol diff. unfold Spec.aspectScore, Qmax.
  assert (Hd : Qabs (ar - t) / (t * tol) == diff / tol).
  { subst diff. field. split; lra. }
  assert (Hdiff : 0 <= diff).
  { subst diff. apply Qle_shift_div_l; [exact Ht|].
    rewrite Qmult_0_l. apply Qabs_nonneg. }
  split; intros E; qbool.
  - assert (Hq : diff / tol <= 1).
    { apply Qle_shift_div_r; [exact Htol|]. lra. }
    destruct (Qltb 0 (1 - Qabs (ar - t) / (t * tol))) eqn:E2; qbool.
    + rewrite Hd. reflexivity.
    + rewrite Hd in E2. lra.
  - assert (Hq : 1 < diff / tol).
    { apply Qlt_shift_div_l; [exact Htol|]. lra. }
    destruct (Qltb 0 (1 - Qabs (ar - t) / (t * tol))) eqn:E2; qbool.
    + rewrite Hd in E2. lra.
    + reflexivity.
Qed.

Lemma aspectScore_le_1 ar t tol :
  0 < t -> 0 < tol -> Spec.aspectScore ar t tol <= 1.
Proof.
  intros Ht Htol. unfold Spec.aspectScore, Qmax.
  destruct (Qltb _ _); [|lra].
  assert (0 <= Qabs (ar - t) / (t * tol)).
  { apply Qle_shift_div_l; [nra|]. rewrite Qmult_0_l. apply Qabs_nonneg. }
  lra.
Qed.

Section Score.
Context `{ops : CvOps}.

(** With at least four vertices the score is the weighted sum, for any
    positive target ratio. *)
Lemma calculateDocumentScore_sum
    (d : ISO_ID1_DocumentDetector) (contour : Contour) (image_size : Size) :
  (4 <= length contour)%nat ->
  (0 < width image_size)%Z -> (0 < height image_size)%Z ->
  (0 < rheight (cv_boundingRect contour))%Z ->
  0 < target_aspect_ratio_ d ->
  0 < aspect_ratio_tolerance_ d ->
  0 < cv_norm (inject_Z (width image_size) / 2)
              (inject_Z (height image_size) / 2) ->
  exists s,
    ISO.calculateDocumentScore d contour image_size = Ret s
    /\ s == Spec.weightedScore (target_aspect_ratio_ d)
              (aspect_ratio_tolerance_ d) contour image_size.
Proof.
  intros Hn Hw Hh Hb Ht0 Htol Hmax.
  unfold ISO.calculateDocumentScore.
  replace (length contour <? 4)%nat with false
    by (symmetry; apply Nat.ltb_ge; exact Hn).
  assert (Harea : ~ inject_Z (width image_size * height image_size) == 0).
  { apply inject_Z_nonzero. pose proof (Z.mul_pos_pos _ _ Hw Hh). lia. }
  assert (Hrh : ~ inject_Z (rheight (cv_boundingRect contour)) == 0).
  { apply inject_Z_nonzero. lia. }
  set (diff := Qabs (Spec.aspectRatio contour - target_aspect_ratio_ d)
               / target_aspect_ratio_ d).
  destruct (aspect_score_wording (Spec.aspectRatio contour)
              (target_aspect_ratio_ d) (aspect_ratio_tolerance_ d) Ht0 Htol)
    as [Hle Hgt]. fold diff in Hle, Hgt.
  set (maxd := cv_norm _ _) in Hmax.
  rewrite (fdiv_Ret _ _ Harea), bind_Ret.
  rewrite (fdiv_Ret _ _ Hrh), bind_Ret.
  fold (Spec.aspectRatio contour).
  rewrite (fdiv_Ret (Qabs (Spec.aspectRatio contour - target_aspect_ratio_ d))
                    (target_aspect_ratio_ d)) by lra.
  rewrite bind_Ret. fold diff.
  simpl fst; simpl snd. fold maxd.
  set (dist := cv_norm _ _).
  rewrite (fdiv_Ret dist maxd) by lra.
  rewrite area_score_wording, (shape_score_wording _ Hn).
  fold (Spec.areaRatio contour image_size).
  unfold Spec.weightedScore, Spec.centerednessScore.
  simpl fst; simpl snd. fold maxd. fold dist.
  destruct (Qle_bool diff (aspect_ratio_tolerance_ d)) eqn:E.
  - rewrite (fdiv_Ret diff (aspect_ratio_tolerance_ d)) by lra.
    rewrite !bind_Ret.
    eexists; split; [reflexivity|].
    rewrite <- (Hle eq_refl). ring.
  - rewrite !bind_Ret.
    eexists; split; [reflexivity|].
    rewrite <- (Hgt eq_refl). ring.
Qed.

Lemma aspectScore_target (ar t t' tol : Q) :
  t == t' -> Spec.aspectScore ar t tol == Spec.aspectScore ar t' tol.
Proof.
  intros Ht. unfold Spec.aspectScore, Qmax.
  assert (Hx : 1 - Qabs (ar - t) / (t * tol)
               == 1 - Qabs (ar - t') / (t' * tol))
    by (rewrite Ht; reflexivity).
  unfold Qltb. rewrite Hx. destruct (negb _); [exact Hx|reflexivity].
Qed.

(** C2, amended.  A contour with fewer than four vertices is scored 0.  For
    a contour with at least four vertices, in an image of positive width and
    height, with a non-degenerate bounding box, the target ratio 1.586 and a
    positive tolerance, [calculateDocumentScore] returns the weighted sum
    0.25 areaScore + 0.40 aspectScore + 0.15 shapeScore
    + 0.20 centerednessScore of section 4.4, and this total is at most 1
    (the norm of the external library being non-negative, and positive on
    the half diagonal). *)
Theorem calculateDocumentScore_weighted_sum
    (d : ISO_ID1_DocumentDetector) (contour : Contour) (image_size : Size) :
  ((length contour < 4)%nat ->
     ISO.calculateDocumentScore d contour image_size = Ret 0)
  /\ ((4 <= length contour)%nat ->
      (0 < width image_size)%Z -> (0 < height image_size)%Z ->
      (0 < rheight (cv_boundingRect contour))%Z ->
      target_aspect_ratio_ d == 1.586 ->
      0 < aspect_ratio_tolerance_ d ->
      0 <= cv_norm
             (fst (cv_minEnclosingCircle contour)
              - inject_Z (width image_size) / 2)
             (snd (cv_minEnclosingCircle contour)
              - inject_Z (height image_size) / 2) ->
      0 < cv_norm (inject_Z (width image_size) / 2)
                  (inject_Z (height image_size) / 2) ->
      exists s,
        ISO.calculateDocumentScore d contour image_size = Ret s
        /\ s == Spec.documentScore (aspect_ratio_tolerance_ d) contour
                  image_size
        /\ s <= 1).
Proof.
  split.
  - intros Hn. unfold ISO.calculateDocumentScore.
    replace (length contour <? 4)%nat with true
      by (symmetry; apply Nat.ltb_lt; exact Hn).
    reflexivity.
  - intros Hn Hw Hh Hb Ht Htol Hdist Hmax.
    assert (Ht0 : 0 < target_aspect_ratio_ d) by (rewrite Ht; lra).
    destruct (calculateDocumentScore_sum d contour image_size
                Hn Hw Hh Hb Ht0 Htol Hmax) as (s & Hs & Hsum).
    exists s. split; [exact Hs|].
    assert (Hdoc : s == Spec.documentScore (aspect_ratio_tolerance_ d)
                          contour image_size).
    { rewrite Hsum. unfold Spec.documentScore, Spec.weightedScore.
      rewrite (aspectScore_target _ _ _ _ Ht). reflexivity. }
    split; [exact Hdoc|].
    rewrite Hdoc. unfold Spec.documentScore, Spec.weightedScore.
    pose proof (areaScore_le_1 (Spec.areaRatio contour image_size)) as Ha.
    pose proof (shapeScore_le_1 (length contour)) as Hsh.
    pose proof (aspectScore_le_1 (Spec.aspectRatio contour) 1.586
                  (aspect_ratio_tolerance_ d) ltac:(lra) Htol) as Hasp.
    assert (Hpos : Spec.centerednessScore contour image_size <= 1).
    { unfold Spec.centerednessScore. cbv zeta.
      set (dist := cv_norm _ _) in Hdist |- *.
      set (maxd := cv_norm _ _) in Hmax |- *.
      assert (0 <= dist / maxd).
      { apply Qle_shift_div_l; [exact Hmax|]. rewrite Qmult_0_l. exact Hdist. }
      lra. }
    lra.
Qed.
End Score.

(** The theorem on the sample card in the 1200 x 800 frame. *)
Lemma calculateDocumentScore_weighted_sum_witness :
  exists s,
    @ISO.calculateDocumentScore Ref.ops ISO_ID1_new Samples.card
      (mkSize 1200 800) = Ret s
    /\ s == @Spec.documentScore Ref.ops (aspect_ratio_tolerance_ ISO_ID1_new)
              Samples.card (mkSize 1200 800)
    /\ s <= 1.
Proof.
  apply (proj2 (@calculateDocumentScore_weighted_sum Ref.ops ISO_ID1_new
                  Samples.card (mkSize 1200 800))).
  - simpl. lia.
  - simpl. lia.
  - simpl. lia.
  - vm_compute. reflexivity.
  - reflexivity.
  - reflexivity.
  - apply Qle_bool_iff. vm_compute. reflexivity.
  - apply Qltb_lt. vm_compute. reflexivity.
Defined.

(** C2 as stated fails on a contour with three vertices: the code returns 0,
    the weighted sum of the four sub-scores is not 0. *)
Lemma calculateDocumentScore_triangle_counterexample :
  @ISO.calculateDocumentScore Ref.ops ISO_ID1_new Samples.triangle
    (mkSize 200 200) = Ret 0
  /\ ~ 0 == @Spec.documentScore Ref.ops (aspect_ratio_tolerance_ ISO_ID1_new)
              Samples.triangle (mkSize 200 200).
Proof.
  split; [reflexivity|].
  intros H. vm_compute in H. discriminate H.
Qed.

(** ** Selection of the best candidate *)

Section Best.
Context `{ops : CvOps}.
Variable d : ISO_ID1_DocumentDetector.
Variable image_size : Size.

Lemma best_loop_first_maximum (contours : list Contour) (scores : list Q) :
  Forall2 (scored d image_size) contours scores ->
  forall (i : Z) (b0 : Q) (i0 : Z) (c0 : Contour),
  exists b1 i1 c1,
    ISO.best_loop d image_size contours i (b0, i0, c0) = Ret (b1, i1, c1)
    /\ (((forall s, In s scores -> s <= b0) /\ (b1, i1, c1) = (b0, i0, c0))
        \/ (exists (k : nat) c,
              nth_error contours k = Some c
              /\ nth_error scores k = Some b1
              /\ i1 = (i + Z.of_nat k)%Z
              /\ c1 = Spec.approximation d c
              /\ b0 < b1
              /\ (forall s, In s scores -> s <= b1)
              /\ (forall j s, (j < k)%nat -> nth_error scores j = Some s ->
                              s < b1))).
Proof.
  induction 1 as [|c s cs ss Hs _ IH]; intros i b0 i0 c0.
  - exists b0, i0, c0. split; [reflexivity|]. left. split; [|reflexivity].
    intros s [].
  - simpl. unfold scored in Hs.
    change (ISO.approximate d c) with (Spec.approximation d c).
    rewrite Hs, bind_Ret.
    destruct (Qltb b0 s) eqn:E; qbool.
    + destruct (IH (i + 1)%Z s i (Spec.approximation d c))
        as (b1 & i1 & c1 & Hrun & Hcase).
      exists b1, i1, c1. split; [exact Hrun|]. right.
      destruct Hcase
        as [[Hall Heq]|(k & c' & Hc & Hk & Hi & Hc1 & Hlt & Hmax & Hfirst)].
      * inversion Heq; subst. exists 0%nat, c. simpl.
        repeat split; try reflexivity; try assumption.
        -- lia.
        -- intros s' [->|Hin]; [lra|auto].
        -- intros j s' Hj. lia.
      * exists (S k), c'. simpl.
        repeat split; try assumption.
        -- lia.
        -- lra.
        -- intros s' [<-|Hin]; [lra|auto].
        -- intros j s' Hj Hn. destruct j as [|j]; simpl in Hn.
           ++ inversion Hn; subst. exact Hlt.
           ++ apply (Hfirst j); [lia|exact Hn].
    + destruct (IH (i + 1)%Z b0 i0 c0) as (b1 & i1 & c1 & Hrun & Hcase).
      exists b1, i1, c1. split; [exact Hrun|].
      destruct Hcase
        as [[Hall Heq]|(k & c' & Hc & Hk & Hi & Hc1 & Hlt & Hmax & Hfirst)].
      * left. split; [|exact Heq]. intros s' [<-|Hin]; [exact E|auto].
      * right. exists (S k), c'. simpl.
        repeat split; try assumption.
        -- lia.
        -- intros s' [<-|Hin]; [lra|auto].
        -- intros j s' Hj Hn. destruct j as [|j]; simpl in Hn.
           ++ inversion Hn; subst. lra.
           ++ apply (Hfirst j); [lia|exact Hn].
Qed.

(** C3.  Let every candidate of the list, simplified by the polygon
    approximation with epsilon = epsilon factor x perimeter, have a score
    (its evaluation divides by no zero).  Then [findBestDocumentContour]
    returns; it reports success if and only if some candidate scores
    strictly more than 0.1, that is if and only if the best score does; on
    success the output contour is the approximation of the first candidate
    that attains the highest score: every score is at most its score and
    every earlier score is strictly smaller; and when it reports failure, a
    detection that reached it with these candidates answers false. *)
Theorem findBestDocumentContour_first_maximum
    (contours : list Contour) (scores : list Q) (best_contour : Contour) :
  Forall2 (scored d image_size) contours scores ->
  exists ok best,
    ISO.findBestDocumentContour d contours image_size best_contour
    = Ret (ok, best)
    /\ (ok = true <-> exists s, In s scores /\ 0.1 < s)
    /\ (ok = true ->
        exists (k : nat) c s,
          nth_error contours k = Some c
          /\ nth_error scores k = Some s
          /\ best = Spec.approximation d c
          /\ 0.1 < s
          /\ (forall s', In s' scores -> s' <= s)
          /\ (forall j s', (j < k)%nat -> nth_error scores j = Some s' ->
                           s' < s))
    /\ (ok = false ->
        forall (d0 : ISO_ID1_DocumentDetector)
               (input_image working : Mat Pixels) (scale : Q),
          mat_empty input_image = false ->
          ISO.select_working_image input_image = Ret (working, scale) ->
          ISO.adaptParametersForImageSize d0 (mat_size working) = Ret d ->
          ISO.findDocumentContours d
            (snd (ISO.preprocessImageForID1Document working))
          = Ret (true, contours) ->
          image_size = mat_size working ->
          best_contour = [] ->
          ISO.detectDocument d0 input_image = Ret (d, None)).
Proof.
  intros Hscores.
  destruct (best_loop_first_maximum contours scores Hscores 0%Z 0 (-1)%Z
              best_contour) as (b1 & i1 & c1 & Hrun & Hcase).
  assert (Hfind : ISO.findBestDocumentContour d contours image_size
                    best_contour
                  = Ret (negb (i1 =? -1)%Z && Qltb 0.1 b1, c1)).
  { unfold ISO.findBestDocumentContour. rewrite Hrun, bind_Ret. reflexivity. }
  exists (negb (i1 =? -1)%Z && Qltb 0.1 b1), c1.
  split; [exact Hfind|].
  split; [|split].
  - destruct Hcase
      as [[Hall Heq]|(k & c & Hc & Hk & Hi & Hc1 & Hlt & Hmax & Hfirst)].
    + inversion Heq; subst. simpl.
      split; [discriminate|]. intros (s & Hin & Hs).
      specialize (Hall s Hin). lra.
    + assert (Hidx : (i1 =? -1)%Z = false) by (apply Z.eqb_neq; lia).
      rewrite Hidx. simpl. rewrite Qltb_lt. split.
      * intros H. exists b1. split; [|exact H].
        apply nth_error_In with k. exact Hk.
      * intros (s & Hin & Hs). specialize (Hmax s Hin). lra.
  - destruct Hcase
      as [[Hall Heq]|(k & c & Hc & Hk & Hi & Hc1 & Hlt & Hmax & Hfirst)].
    + inversion Heq; subst. simpl. discriminate.
    + intros H. apply andb_prop in H. destruct H as [_ H].
      apply Qltb_lt in H. exists k, c, b1. repeat split; assumption.
  - intros Hok d0 input_image working scale Hne Hsel Had Hcont Hsize Hnil.
    subst image_size best_contour. rewrite Hok in Hfind.
    unfold ISO.detectDocument. rewrite Hne, Hsel, bind_Ret. cbv beta iota.
    rewrite Had, bind_Ret.
    destruct (ISO.preprocessImageForID1Document working) as [ok pre] eqn:Hpre.
    assert (Hpre_ok : ok = true).
    { unfold ISO.preprocessImageForID1Document in Hpre.
      destruct (cv_meanStdDev _) in Hpre. inversion Hpre. reflexivity. }
    subst ok. simpl in Hcont. simpl negb. cbv iota.
    rewrite Hcont, bind_Ret. simpl negb. cbv iota.
    rewrite Hfind, bind_Ret. reflexivity.
Qed.
End Best.

(** The theorem on three candidates of which the second and the third
    attain the highest score: the second is selected. *)
Lemma findBestDocumentContour_first_maximum_witness :
  Samples.score_of Samples.narrow_card < Samples.score_of Samples.left_card
  /\ Samples.score_of Samples.left_card
     == Samples.score_of Samples.right_card
  /\ @ISO.findBestDocumentContour Ref.ops ISO_ID1_new Samples.candidates
       (mkSize 1200 800) []
     = Ret (true, @Spec.approximation Ref.ops ISO_ID1_new Samples.left_card).
Proof.
  assert (Hlow : Samples.score_of Samples.narrow_card
                 < Samples.score_of Samples.left_card)
    by (apply Qltb_lt; vm_compute; reflexivity).
  assert (Htie : Samples.score_of Samples.left_card
                 == Samples.score_of Samples.right_card)
    by (apply Qeq_bool_iff; vm_compute; reflexivity).
  assert (Hfloor : 0.1 < Samples.score_of Samples.left_card)
    by (apply Qltb_lt; vm_compute; reflexivity).
  split; [exact Hlow|]. split; [exact Htie|].
  destruct (@findBestDocumentContour_first_maximum Ref.ops ISO_ID1_new
              (mkSize 1200 800) Samples.candidates
              (map Samples.score_of Samples.candidates) [])
    as (ok & best & Hrun & Hok & Hsel & _).
  - repeat constructor; vm_compute; reflexivity.
  - assert (E : ok = true).
    { apply Hok. exists (Samples.score_of Samples.left_card).
      split; [right; left; reflexivity|exact Hfloor]. }
    subst ok. rewrite Hrun. f_equal. f_equal.
    destruct (Hsel eq_refl)
      as (k & c & s & Hc & Hs & Hbest & _ & Hmax & Hfirst).
    destruct k as [|[|[|k]]].
    + exfalso. injection Hs as <-.
      pose proof (Hmax _ (or_intror (or_introl eq_refl))) as H. simpl in H.
      lra.
    + injection Hc as <-. exact Hbest.
    + exfalso. injection Hs as <-.
      pose proof (Hfirst 1%nat _ ltac:(lia) eq_refl) as H. simpl in H. lra.
    + exfalso. simpl in Hc. destruct k; discriminate Hc.
Defined.

(** ** Ordering of the corners *)

Lemma sort_insert_perm {A} (lt : A -> A -> bool) (a : A) (l : list A) :
  Permutation (sort_insert lt a l) (a :: l).
Proof.
  induction l as [|b l IH]; simpl; [reflexivity|].
  destruct (lt b a); [|reflexivity].
  rewrite IH. apply perm_swap.
Qed.

Lemma std_sort_perm {A} (lt : A -> A -> bool) (l : list A) :
  Permutation (std_sort lt l) l.
Proof.
  induction l as [|a l IH]; simpl; [reflexivity|].
  rewrite sort_insert_perm. apply perm_skip. exact IH.
Qed.

Section SortByKey.
Context {A : Type} (key : A -> Q).

Lemma sort_insert_ascending (a : A) (l : list A) :
  ascending key l ->
  (forall b, In b l -> ~ key a == key b) ->
  ascending key (sort_insert (key_lt key) a l).
Proof.
  induction 1 as [|b l Hl IH Hb]; intros Hne; simpl.
  - repeat constructor.
  - unfold key_lt at 1. destruct (Qltb (key b) (key a)) eqn:E; qbool.
    + constructor.
      * apply IH. intros x Hx. apply Hne. right. exact Hx.
      * rewrite List.Forall_forall in Hb |- *. intros x Hx.
        apply (Permutation_in _ (sort_insert_perm _ a l)) in Hx.
        destruct Hx as [<-|Hx]; [exact E|apply Hb; exact Hx].
    + assert (Hab : key a < key b).
      { assert (~ key a == key b) by (apply Hne; left; reflexivity).
        apply Qle_lteq in E. destruct E as [E|E]; [exact E|contradiction]. }
      constructor; [constructor; assumption|].
      constructor; [exact Hab|].
      rewrite List.Forall_forall in Hb |- *. intros x Hx.
      specialize (Hb x Hx). simpl in Hb. lra.
Qed.

Lemma distinct_keys_perm (l l' : list A) :
  Permutation l l' -> distinct_keys key l -> distinct_keys key l'.
Proof.
  intros P [Hnd Hinj]. split.
  - apply (Permutation_NoDup P Hnd).
  - intros a b Ha Hb. apply Hinj; eapply Permutation_in;
      try (apply Permutation_sym; exact P); assumption.
Qed.

Lemma std_sort_ascending (l : list A) :
  distinct_keys key l -> ascending key (std_sort (key_lt key) l).
Proof.
  induction l as [|a l IH]; intros [Hnd Hinj]; simpl; [constructor|].
  inversion Hnd as [|? ? Hnot Hnd']; subst.
  apply sort_insert_ascending.
  - apply IH. split; [exact Hnd'|].
    intros x y Hx Hy. apply Hinj; right; assumption.
  - intros b Hb E. apply (Permutation_in _ (std_sort_perm _ l)) in Hb.
    apply Hnot.
    rewrite (Hinj a b);
      [exact Hb|left; reflexivity|right; exact Hb|exact E].
Qed.

Lemma ascending_unique (l l' : list A) :
  ascending key l -> ascending key l' -> Permutation l l' -> l = l'.
Proof.
  intros Hl. revert l'. induction Hl as [|a l Hl IH Ha]; intros l' Hl' P.
  - apply Permutation_nil in P. symmetry. exact P.
  - destruct Hl' as [|a' l' Hl' Ha'].
    + apply Permutation_sym, Permutation_nil in P. discriminate.
    + assert (Haa : a = a').
      { assert (H1 : In a (a' :: l'))
          by (apply (Permutation_in _ P); left; reflexivity).
        assert (H2 : In a' (a :: l))
          by (apply (Permutation_in _ (Permutation_sym P)); left; reflexivity).
        destruct H1 as [H1|H1]; [symmetry; exact H1|].
        destruct H2 as [H2|H2]; [exact H2|].
        rewrite List.Forall_forall in Ha, Ha'.
        specialize (Ha a' H2). specialize (Ha' a H1). simpl in *. lra. }
      subst a'. f_equal. apply IH; [exact Hl'|].
      apply Permutation_cons_inv with a. exact P.
Qed.

(** [std::sort] on elements with pairwise different keys does not depend on
    the order of its input. *)
Lemma std_sort_order_independent (l l' : list A) :
  distinct_keys key l -> Permutation l l' ->
  std_sort (key_lt key) l = std_sort (key_lt key) l'.
Proof.
  intros Hd P. apply ascending_unique.
  - apply std_sort_ascending. exact Hd.
  - apply std_sort_ascending. apply (distinct_keys_perm _ _ P Hd).
  - rewrite !std_sort_perm. exact P.
Qed.

End SortByKey.

Lemma fold_left_add_perm (f : Point -> Z) (l l' : list Point) :
  Permutation l l' ->
  forall acc, fold_left (fun a p => (a + f p)%Z) l acc
              = fold_left (fun a p => (a + f p)%Z) l' acc.
Proof.
  induction 1 as [|x l l' _ IH|x y l|l l' l'' _ IH1 _ IH2]; intros acc; simpl.
  - reflexivity.
  - apply IH.
  - f_equal. lia.
  - rewrite IH1. apply IH2.
Qed.

Lemma centroid_perm (l l' : list Point) :
  Permutation l l' -> ISO.centroid l = ISO.centroid l'.
Proof.
  intros P. unfold ISO.centroid.
  rewrite (fold_left_add_perm px l l' P), (fold_left_add_perm py l l' P).
  reflexivity.
Qed.


Section Corners.
Context `{ops : CvOps}.

(** The loop of lines 396-402 stops at the first entry of least distance:
    no entry is nearer and every earlier entry is strictly farther. *)
Lemma tl_loop_nearest (l : list (Point * Q)) :
  forall (i : nat) (m : option Q) (idx : nat),
    (ISO.tl_loop l i m idx = idx
     /\ forall p, In p l -> exists mv, m = Some mv /\ mv <= ISO.dist_tl (fst p))
    \/ (exists (j : nat) p,
          nth_error l j = Some p
          /\ ISO.tl_loop l i m idx = (i + j)%nat
          /\ (forall q, In q l -> ISO.dist_tl (fst p) <= ISO.dist_tl (fst q))
          /\ (forall j' q, (j' < j)%nat -> nth_error l j' = Some q ->
                ISO.dist_tl (fst p) < ISO.dist_tl (fst q))
          /\ (forall mv, m = Some mv -> ISO.dist_tl (fst p) < mv)).
Proof.
  induction l as [|p rest IH]; intros i m idx.
  - left. split; [reflexivity|]. intros p [].
  - simpl.
    destruct (match m with
              | None => true
              | Some m0 => Qltb (ISO.dist_tl (fst p)) m0
              end) eqn:B.
    + right.
      destruct (IH (S i) (Some (ISO.dist_tl (fst p))) i)
        as [[Hr Hall]|(j & q & Hq & Hr & Hmin & Hfirst & Hlt)].
      * exists 0%nat, p. simpl. repeat split.
        -- rewrite Hr. lia.
        -- intros q [<-|Hin]; [lra|].
           destruct (Hall q Hin) as (mv & E & Hle).
           inversion E; subst. exact Hle.
        -- intros j' q Hj'. lia.
        -- intros mv ->. qbool. exact B.
      * specialize (Hlt _ eq_refl).
        exists (S j), q. simpl. repeat split.
        -- exact Hq.
        -- rewrite Hr. lia.
        -- intros x [<-|Hin]; [lra|apply Hmin; exact Hin].
        -- intros j' x Hj' Hx. destruct j' as [|j']; simpl in Hx.
           ++ inversion Hx; subst. exact Hlt.
           ++ apply (Hfirst j'); [lia|exact Hx].
        -- intros mv ->. qbool. lra.
    + destruct m as [mv|]; [|discriminate]. qbool.
      destruct (IH (S i) (Some mv) idx)
        as [[Hr Hall]|(j & q & Hq & Hr & Hmin & Hfirst & Hlt)].
      * left. split; [exact Hr|].
        intros x [<-|Hin]; [exists mv; split; [reflexivity|exact B]|].
        apply Hall. exact Hin.
      * specialize (Hlt _ eq_refl).
        right. exists (S j), q. simpl. repeat split.
        -- exact Hq.
        -- rewrite Hr. lia.
        -- intros x [<-|Hin]; [lra|apply Hmin; exact Hin].
        -- intros j' x Hj' Hx. destruct j' as [|j']; simpl in Hx.
           ++ inversion Hx; subst. lra.
           ++ apply (Hfirst j'); [lia|exact Hx].
        -- intros mv' E. inversion E; subst. exact Hlt.
Qed.

(** The code's centroid and distance are those of section 4.6. *)
Lemma fold_left_add_sum (f : Point -> Z) (l : list Point) :
  forall acc,
    fold_left (fun a p => (a + f p)%Z) l acc
    = (acc + fold_right Z.add 0%Z (map f l))%Z.
Proof.
  induction l as [|p l IH]; intros acc; simpl; [lia|].
  rewrite IH. lia.
Qed.

Lemma centroid_wording (points : list Point) :
  ISO.centroid points = Spec.centroid4 points.
Proof.
  unfold ISO.centroid, Spec.centroid4. rewrite !fold_left_add_sum.
  reflexivity.
Qed.

Lemma dist_tl_wording (p : Point) :
  ISO.dist_tl p = Spec.distanceToOrigin p.
Proof.
  unfold ISO.dist_tl, Spec.distanceToOrigin, origin. simpl.
  rewrite !Z.sub_0_r. reflexivity.
Qed.

Lemma tagged_distinct (c : Point) (points : list Point) :
  List.NoDup points ->
  (forall p q, In p points -> In q points ->
     ISO.angle_from c p == ISO.angle_from c q -> p = q) ->
  distinct_keys snd (map (tag c) points).
Proof.
  intros Hnd Hinj. split.
  - clear Hinj. induction Hnd as [|p l Hp Hl IH]; simpl; constructor.
    + intros Hin. apply in_map_iff in Hin. destruct Hin as (q & E & Hq).
      inversion E; subst. contradiction.
    + exact IH.
  - intros a b Ha Hb E.
    apply in_map_iff in Ha. destruct Ha as (p & <- & Hp).
    apply in_map_iff in Hb. destruct Hb as (q & <- & Hq).
    simpl in E. rewrite (Hinj p q Hp Hq E). reflexivity.
Qed.

(** C7, amended.  Take four distinct points whose angles from their integer
    centroid (the coordinate sums divided by four and truncated, as the code
    computes it) are pairwise different.  Then [sortCornerPoints] gives the
    same result on every permutation of them: the points in ascending order
    of their angle from that centroid, rotated so that the point nearest to
    the origin comes first; of several nearest points it is the first in the
    ascending order. *)
Theorem sortCornerPoints_order_independent (points points' : list Point) :
  length points = 4%nat ->
  List.NoDup points ->
  (forall p q, In p points -> In q points ->
     Spec.angle (Spec.centroid4 points) p
     == Spec.angle (Spec.centroid4 points) q -> p = q) ->
  Permutation points points' ->
  ISO.sortCornerPoints points' = ISO.sortCornerPoints points
  /\ exists (sorted : list Point) (k : nat) (nearest : Point),
       Permutation sorted points
       /\ StronglySorted
            (fun p q => Spec.angle (Spec.centroid4 points) p
                        < Spec.angle (Spec.centroid4 points) q) sorted
       /\ nth_error sorted k = Some nearest
       /\ (forall q, In q points ->
             Spec.distanceToOrigin nearest <= Spec.distanceToOrigin q)
       /\ (forall j q, (j < k)%nat -> nth_error sorted j = Some q ->
             Spec.distanceToOrigin nearest < Spec.distanceToOrigin q)
       /\ ISO.sortCornerPoints points = skipn k sorted ++ firstn k sorted.
Proof.
  intros Hlen Hnd Hinj P.
  rewrite <- (centroid_wording points) in *.
  change (@Spec.angle ops) with (@ISO.angle_from ops) in *.
  set (c := ISO.centroid points) in *.
  pose proof (tagged_distinct c points Hnd Hinj) as Hd.
  assert (Hsort : ISO.sortCornerPoints points
                  = let pa := std_sort (key_lt snd) (map (tag c) points) in
                    let k := ISO.tl_loop pa 0 None 0 in
                    map (fun i => fst (nth ((k + i) mod 4)%nat pa (origin, 0)))
                        [0; 1; 2; 3]%nat).
  { unfold ISO.sortCornerPoints. rewrite Hlen. reflexivity. }
  split.
  - rewrite Hsort. unfold ISO.sortCornerPoints.
    rewrite <- (Permutation_length P), Hlen. simpl negb. cbv iota.
    rewrite <- (centroid_perm _ _ P). fold c.
    change (fun p => (p, ISO.angle_from c p)) with (tag c).
    change (fun a b : Point * Q => Qltb (snd a) (snd b))
      with (@key_lt (Point * Q) snd).
    rewrite <- (std_sort_order_independent snd (map (tag c) points)
                  (map (tag c) points') Hd (Permutation_map _ P)).
    reflexivity.
  - rewrite Hsort. cbv zeta.
    set (pa := std_sort (key_lt snd) (map (tag c) points)).
    assert (Hperm : Permutation pa (map (tag c) points)) by apply std_sort_perm.
    assert (Hasc : ascending snd pa) by (apply std_sort_ascending; exact Hd).
    assert (Htag : forall a, In a pa -> snd a = ISO.angle_from c (fst a)).
    { intros a Ha. apply (Permutation_in _ Hperm) in Ha.
      apply in_map_iff in Ha. destruct Ha as (p & <- & _). reflexivity. }
    assert (Hpts : Permutation (map fst pa) points).
    { rewrite Hperm, map_map. simpl. rewrite map_id. reflexivity. }
    assert (Hlen4 : length pa = 4%nat).
    { rewrite (Permutation_length Hperm), length_map. exact Hlen. }
    destruct (tl_loop_nearest pa 0 None 0)
      as [[_ Hall]|(j & p & Hj & Hr & Hmin & Hfirst & _)].
    { destruct pa as [|a pa']; [discriminate|].
      destruct (Hall a (or_introl eq_refl)) as (mv & E & _). discriminate. }
    exists (map fst pa), j, (fst p).
    rewrite Hr. simpl Nat.add.
    assert (Hj4 : (j < 4)%nat).
    { rewrite <- Hlen4. apply nth_error_Some. rewrite Hj. discriminate. }
    split; [exact Hpts|]. split.
    { clear - Hasc Htag. induction Hasc as [|a l Hl IH Ha]; simpl; constructor.
      - apply IH. intros x Hx. apply Htag. right. exact Hx.
      - rewrite List.Forall_forall in Ha |- *. intros y Hy.
        apply in_map_iff in Hy. destruct Hy as (x & <- & Hx).
        rewrite <- (Htag a (or_introl eq_refl)), <- (Htag x (or_intror Hx)).
        apply Ha. exact Hx. }
    split; [rewrite nth_error_map, Hj; reflexivity|].
    split.
    { intros q Hq. rewrite <- !dist_tl_wording.
      apply (Hmin (tag c q)).
      apply (Permutation_in _ (Permutation_sym Hperm)).
      apply in_map. exact Hq. }
    split.
    { intros j' q Hj' Hq. rewrite <- !dist_tl_wording.
      rewrite nth_error_map in Hq.
      destruct (nth_error pa j') as [a|] eqn:Ea; [|discriminate].
      simpl in Hq. inversion Hq; subst q.
      apply (Hfirst j' a Hj' Ea). }
    destruct pa as [|a0 [|a1 [|a2 [|a3 [|? ?]]]]]; try discriminate.
    destruct j as [|[|[|[|j]]]]; try lia; reflexivity.
Qed.
End Corners.

(** The theorem on the sample corners and a shuffle of them: both are
    returned clockwise from the upper left corner. *)
Lemma sortCornerPoints_order_independent_witness :
  @ISO.sortCornerPoints Ref.ops Samples.corners_shuffled
  = @ISO.sortCornerPoints Ref.ops Samples.corners
  /\ @ISO.sortCornerPoints Ref.ops Samples.corners
     = [mkPoint 10 10; mkPoint 110 12; mkPoint 108 70; mkPoint 12 68].
Proof.
  split; [|vm_compute; reflexivity].
  apply (@sortCornerPoints_order_independent Ref.ops Samples.corners
           Samples.corners_shuffled).
  - reflexivity.
  - repeat (constructor; [simpl; intuition congruence|]). constructor.
  - intros p q Hp Hq H. simpl in Hp, Hq.
    destruct Hp as [<-|[<-|[<-|[<-|[]]]]];
      destruct Hq as [<-|[<-|[<-|[<-|[]]]]];
      try reflexivity; vm_compute in H; discriminate H.
  - apply Stdlib.Sorting.Permutation.NoDup_Permutation.
    + repeat (constructor; [simpl; intuition congruence|]). constructor.
    + repeat (constructor; [simpl; intuition congruence|]). constructor.
    + intros x. simpl. intuition.
Defined.

(** C7 as stated fails on the corners (6,5), (8,7), (0,2), (3,0).  Their
    centroid is (17/4, 14/4), and the angle of a corner [p] from it is the
    angle of the vector [4 p - (17, 14)]: the four angles are pairwise
    different.  The code measures the angles from the integer point (4, 3),
    from where (6,5) and (8,7) lie in the same direction; the sort leaves
    them in the order of the input, and two orders of the input give two
    results. *)
Lemma sortCornerPoints_centroid_counterexample :
  List.NoDup Samples.tied_corners
  /\ Permutation Samples.tied_corners Samples.tied_corners_swapped
  /\ (fold_right Z.add 0%Z (map px Samples.tied_corners) = 17%Z
      /\ fold_right Z.add 0%Z (map py Samples.tied_corners) = 14%Z)
  /\ (forall p q,
        In p Samples.tied_corners -> In q Samples.tied_corners ->
        Ref.atan2 (4 * py p - 14) (4 * px p - 17)
        == Ref.atan2 (4 * py q - 14) (4 * px q - 17) ->
        p = q)
  /\ @ISO.sortCornerPoints Ref.ops Samples.tied_corners
     = [mkPoint 0 2; mkPoint 3 0; mkPoint 6 5; mkPoint 8 7]
  /\ @ISO.sortCornerPoints Ref.ops Samples.tied_corners_swapped
     = [mkPoint 0 2; mkPoint 3 0; mkPoint 8 7; mkPoint 6 5].
Proof.
  split.
  { repeat (constructor; [simpl; intuition congruence|]). constructor. }
  split; [apply perm_swap|].
  split; [split; reflexivity|].
  split.
  { intros p q Hp Hq H. simpl in Hp, Hq.
    destruct Hp as [<-|[<-|[<-|[<-|[]]]]];
      destruct Hq as [<-|[<-|[<-|[<-|[]]]]];
      try reflexivity; vm_compute in H; discriminate H. }
  split; vm_compute; reflexivity.
Qed.

(** ** Working resolution and confidence *)

Section Scaling.
Context `{ops : CvOps}.

Lemma scale_points_map (scale_factor : Q) (pts : list Point) :
  ~ scale_factor == 0 ->
  ISO.scale_points scale_factor pts = Ret (Spec.mapBack scale_factor pts).
Proof.
  intros Hs. induction pts as [|p pts IH]; simpl; [reflexivity|].
  rewrite !(ddiv_Ret _ _ Hs), !bind_Ret, IH, bind_Ret. reflexivity.
Qed.

Lemma select_working_image_native (input_image : Mat Pixels) :
  (cols input_image <= 1200)%Z ->
  ISO.select_working_image input_image = Ret (input_image, 1).
Proof.
  intros Hc. unfold ISO.select_working_image.
  replace (1200 <? cols input_image)%Z with false
    by (symmetry; apply Z.ltb_ge; exact Hc).
  reflexivity.
Qed.

(** The scale factor of an image more than 1200 pixels wide: the double
    nearest to 1200 / width.  It lies strictly between 0 and 1, and the width
    times the factor is 1200 up to the rounding. *)
Lemma scale_factor_range (C : Z) :
  (1200 < C)%Z ->
  let scale := binary64 (1200 / inject_Z C) in
  0 < scale /\ scale < 1
  /\ 1200 * (1 - (1 # 9007199254740992)) <= inject_Z C * scale
  /\ inject_Z C * scale <= 1200 * (1 + (1 # 9007199254740992)).
Proof.
  intros HC scale.
  assert (HCq : 1201 <= inject_Z C).
  { change 1201 with (inject_Z 1201). rewrite <- Zle_Qle. lia. }
  assert (Hq : inject_Z C * (1200 / inject_Z C) == 1200) by (field; lra).
  assert (Hq0 : 0 < 1200 / inject_Z C).
  { apply Qlt_shift_div_l; lra. }
  destruct (binary64_error _ Hq0) as [Hl Hu]. fold scale in Hl, Hu.
  set (q := 1200 / inject_Z C) in *. clearbody scale.
  assert (Hq1 : q * 1201 <= 1200) by nra.
  repeat split; nra.
Qed.

Lemma select_working_image_scaled (input_image : Mat Pixels) :
  (1200 < cols input_image)%Z ->
  let scale := binary64 (1200 / inject_Z (cols input_image)) in
  let h := cvRound (binary64 (inject_Z (rows input_image) * scale)) in
  (0 < h)%Z ->
  ISO.select_working_image input_image
  = Ret (mkMat h 1200 (channels input_image)
           (cv_resize_data input_image (mkSize 1200 h)), scale).
Proof.
  intros Hc scale h Hh.
  assert (Hcols : ~ inject_Z (cols input_image) == 0)
    by (apply inject_Z_nonzero; lia).
  destruct (scale_factor_range _ Hc) as (Hs0 & Hs1 & Hl & Hu).
  fold scale in Hs0, Hs1, Hl, Hu.
  assert (Hw : cvRound (dmul (inject_Z (cols input_image)) scale) = 1200%Z).
  { unfold dmul.
    assert (Hp : 0 < inject_Z (cols input_image) * scale) by lra.
    destruct (binary64_error _ Hp) as [Hl' Hu'].
    apply cvRound_unique; change (inject_Z 1200) with 1200; nra. }
  unfold ISO.select_working_image.
  replace (1200 <? cols input_image)%Z with true
    by (symmetry; apply Z.ltb_lt; exact Hc).
  rewrite (ddiv_Ret _ _ Hcols), bind_Ret.
  change (binary64 (inject_Z 1200 / inject_Z (cols input_image))) with scale.
  unfold cv_resize. rewrite Hw.
  change (cvRound (dmul (inject_Z (rows input_image)) scale)) with h.
  unfold size_empty. simpl.
  replace (h <=? 0)%Z with false by (symmetry; apply Z.leb_gt; exact Hh).
  rewrite bind_Ret. reflexivity.
Qed.

Lemma select_working_image_rejected (input_image : Mat Pixels) :
  (1200 < cols input_image)%Z ->
  let scale := binary64 (1200 / inject_Z (cols input_image)) in
  let h := cvRound (binary64 (inject_Z (rows input_image) * scale)) in
  (h <= 0)%Z ->
  ISO.select_working_image input_image = CvException.
Proof.
  intros Hc scale h Hh.
  assert (Hcols : ~ inject_Z (cols input_image) == 0)
    by (apply inject_Z_nonzero; lia).
  unfold ISO.select_working_image.
  replace (1200 <? cols input_image)%Z with true
    by (symmetry; apply Z.ltb_lt; exact Hc).
  rewrite (ddiv_Ret _ _ Hcols), bind_Ret.
  change (binary64 (inject_Z 1200 / inject_Z (cols input_image))) with scale.
  unfold cv_resize, size_empty. cbn [width height].
  change (cvRound (dmul (inject_Z (rows input_image)) scale)) with h.
  replace (h <=? 0)%Z with true by (symmetry; apply Z.leb_le; exact Hh).
  rewrite orb_true_r. reflexivity.
Qed.

Lemma rescale_contour_scaled (scale : Q) (best_contour : Contour) :
  0 < scale -> scale < 1 ->
  ISO.rescale_contour scale best_contour
  = Ret (Spec.mapBack scale best_contour).
Proof.
  intros H0 H1. unfold ISO.rescale_contour.
  replace (Qeq_bool scale 1) with false.
  - simpl. apply scale_points_map. lra.
  - symmetry. destruct (Qeq_bool scale 1) eqn:E; [|reflexivity].
    apply Qeq_bool_iff in E. lra.
Qed.

(** A detection is the run of its stages on the working image. *)
Lemma detectDocument_at (d : ISO_ID1_DocumentDetector)
    (input_image working : Mat Pixels) (scale : Q)
    (back : Contour -> Contour) :
  mat_empty input_image = false ->
  ISO.select_working_image input_image = Ret (working, scale) ->
  (forall best, ISO.rescale_contour scale best = Ret (back best)) ->
  ISO.detectDocument d input_image
  = Spec.detectAt d input_image working back.
Proof.
  intros Hne Hsel Hback. unfold ISO.detectDocument, Spec.detectAt.
  rewrite Hne, Hsel, bind_Ret. cbv beta iota.
  destruct (ISO.adaptParametersForImageSize d (mat_size working))
    as [d1| |]; [|reflexivity|reflexivity].
  rewrite !bind_Ret.
  destruct (ISO.preprocessImageForID1Document working) as [ok pre].
  destruct ok; [|reflexivity]. simpl negb. cbv iota.
  destruct (ISO.findDocumentContours d1 pre) as [[ok1 contours]| |];
    [|reflexivity|reflexivity].
  rewrite !bind_Ret. destruct ok1; [|reflexivity]. simpl negb. cbv iota.
  destruct (ISO.findBestDocumentContour d1 contours (mat_size working) [])
    as [[ok2 best]| |]; [|reflexivity|reflexivity].
  rewrite !bind_Ret. destruct ok2; [|reflexivity]. simpl negb. cbv iota.
  rewrite Hback, bind_Ret. reflexivity.
Qed.

(** C4, amended.  The choice of the working resolution looks at the width
    only.  A non-empty image at most 1200 pixels wide is processed as it is,
    with scale factor 1, whatever its height: the detection is the run of
    the stages on the image itself, and the winning contour is normalised as
    it is.  A non-empty image more than 1200 pixels wide whose height times
    the scale factor rounds to at least one pixel is resized by the scale
    factor, the double nearest to 1200 / width: the detection is the run of
    the stages on a working image that is exactly 1200 pixels wide, and the
    winning contour is mapped back before the normalisation by dividing each
    coordinate by the scale factor and truncating. *)
Theorem detectDocument_working_resolution (d : ISO_ID1_DocumentDetector)
    (input_image : Mat Pixels) :
  mat_empty input_image = false ->
  ((cols input_image <= 1200)%Z ->
     ISO.select_working_image input_image = Ret (input_image, 1)
     /\ ISO.detectDocument d input_image
        = Spec.detectAt d input_image input_image (fun best => best))
  /\ ((1200 < cols input_image)%Z ->
      let scale := binary64 (1200 / inject_Z (cols input_image)) in
      let h := cvRound (binary64 (inject_Z (rows input_image) * scale)) in
      (0 < h)%Z ->
      exists working,
        ISO.select_working_image input_image = Ret (working, scale)
        /\ cols working = 1200%Z
        /\ rows working = h
        /\ channels working = channels input_image
        /\ data working = cv_resize_data input_image (mkSize 1200 h)
        /\ 0 < scale /\ scale < 1
        /\ Qabs (inject_Z (cols input_image) * scale - 1200)
           <= 1200 * (1 # 9007199254740992)
        /\ ISO.detectDocument d input_image
           = Spec.detectAt d input_image working (Spec.mapBack scale)).
Proof.
  intros Hne. split.
  - intros Hc. pose proof (select_working_image_native _ Hc) as Hsel.
    split; [exact Hsel|].
    apply (detectDocument_at d input_image input_image 1 _ Hne Hsel).
    intros best. reflexivity.
  - intros Hc scale h Hh.
    pose proof (select_working_image_scaled input_image Hc Hh) as Hsel.
    destruct (scale_factor_range _ Hc) as (Hs0 & Hs1 & Hl & Hu).
    fold scale in Hsel, Hs0, Hs1, Hl, Hu. fold h in Hsel.
    eexists. split; [exact Hsel|].
    split; [reflexivity|]. split; [reflexivity|]. split; [reflexivity|].
    split; [reflexivity|].
    split; [exact Hs0|]. split; [exact Hs1|]. split.
    + apply Qabs_Qle_condition. split; lra.
    + apply (detectDocument_at d input_image _ scale _ Hne Hsel).
      intros best. apply rescale_contour_scaled; assumption.
Qed.


(** The stages of a successful call of [detectDocument]. *)
Lemma detectDocument_stages (d : ISO_ID1_DocumentDetector)
    (input_image : Mat Pixels) (d' : ISO_ID1_DocumentDetector)
    (answer : option DocumentBounds) :
  ISO.detectDocument d input_image = Ret (d', answer) ->
  mat_empty input_image = false ->
  exists working scale,
    ISO.select_working_image input_image = Ret (working, scale)
    /\ ISO.adaptParametersForImageSize d (mat_size working) = Ret d'
    /\ forall b, answer = Some b ->
       exists contours best best',
         ISO.findDocumentContours d'
           (snd (ISO.preprocessImageForID1Document working))
         = Ret (true, contours)
         /\ ISO.findBestDocumentContour d' contours (mat_size working) []
            = Ret (true, best)
         /\ ISO.rescale_contour scale best = Ret best'
         /\ ISO.extractDocumentBounds d' best' (mat_size input_image)
            = Ret (Some b).
Proof.
  intros H Hne. unfold ISO.detectDocument in H. rewrite Hne in H.
  apply bind_returns in H. destruct H as ([working scale] & Hsel & H).
  apply bind_returns in H. destruct H as (d1 & Had & H).
  exists working, scale.
  destruct (ISO.preprocessImageForID1Document working) as [ok pre] eqn:Hpre.
  assert (Hok : ok = true).
  { unfold ISO.preprocessImageForID1Document in Hpre.
    destruct (cv_meanStdDev _) in Hpre. inversion Hpre. reflexivity. }
  subst ok. simpl in H.
  apply bind_returns in H. destruct H as ([ok1 contours] & Hfind & H).
  destruct ok1; simpl in H.
  2:{ inversion H; subst. repeat split; try assumption.
      intros b Hb. discriminate. }
  apply bind_returns in H. destruct H as ([ok2 best] & Hbest & H).
  destruct ok2; simpl in H.
  2:{ inversion H; subst. repeat split; try assumption.
      intros b Hb. discriminate. }
  apply bind_returns in H. destruct H as (best' & Hres & H).
  apply bind_returns in H. destruct H as (bounds & Hext & H).
  inversion H; subst.
  repeat split; try assumption.
  intros b ->. exists contours, best, best'. simpl. repeat split; assumption.
Qed.


End Scaling.

(** The theorem on the 3264 x 2448 sample: the working image is 1200 x 900,
    and the corners are mapped back with the rounded scale factor. *)
Lemma detectDocument_working_resolution_witness :
  exists working scale,
    @ISO.select_working_image Ref.ops Samples.phone_photo
    = Ret (working, scale)
    /\ cols working = 1200%Z /\ rows working = 900%Z
    /\ @ISO.detectDocument Ref.ops ISO_ID1_new Samples.phone_photo
       = @Spec.detectAt Ref.ops ISO_ID1_new Samples.phone_photo working
           (Spec.mapBack scale)
    /\ Spec.mapBack scale Samples.phone_card
       = Ref.rectangle 203 407 3060 2039.
Proof.
  destruct (proj2 (@detectDocument_working_resolution Ref.ops ISO_ID1_new
                     Samples.phone_photo eq_refl))
    as (working & Hsel & Hc & Hr & _ & _ & _ & _ & _ & Hdet).
  - reflexivity.
  - reflexivity.
  - exists working, (binary64 (1200 / 3264)).
    split; [exact Hsel|]. split; [exact Hc|]. split; [exact Hr|].
    split; [exact Hdet|]. vm_compute. reflexivity.
Defined.

(** C4 as stated fails on a portrait image: its larger dimension is 3000,
    and it is processed as it is. *)
Lemma select_working_image_portrait_counterexample :
  (1200 < Z.max (cols Samples.portrait) (rows Samples.portrait))%Z
  /\ exists working scale,
       @ISO.select_working_image Ref.ops Samples.portrait
       = Ret (working, scale)
       /\ Z.max (cols working) (rows working) <> 1200%Z
       /\ scale = 1.
Proof.
  split; [reflexivity|].
  exists Samples.portrait, 1. split; [reflexivity|].
  split; [vm_compute; discriminate|reflexivity].
Qed.




(** ** Safety of the pipeline *)

Lemma static_cast_int_nonneg (q : Q) :
  0 <= q -> static_cast_int q = Qfloor q /\ (0 <= Qfloor q)%Z.
Proof.
  intros H. unfold static_cast_int.
  replace (Qltb q 0) with false by (symmetry; apply Qltb_ge; exact H).
  split; [reflexivity|].
  change 0%Z with (Qfloor 0). apply Qfloor_resp_le. exact H.
Qed.

Lemma floor_below (q : Q) (n : Z) : q < inject_Z n -> (Qfloor q < n)%Z.
Proof.
  intros H. pose proof (Qfloor_le q) as Hf.
  rewrite Zlt_Qlt. lra.
Qed.

Lemma in_unit_interval (x w : Z) :
  (0 <= x < w)%Z -> unit_interval (inject_Z x / inject_Z w).
Proof.
  intros [H0 Hw].
  assert (Hp : 0 < inject_Z w) by (apply inject_Z_pos; lia).
  assert (Hx : 0 <= inject_Z x).
  { change 0 with (inject_Z 0). rewrite <- Zle_Qle. exact H0. }
  assert (Hxw : inject_Z x <= inject_Z w) by (rewrite <- Zle_Qle; lia).
  split.
  - apply Qle_shift_div_l; [exact Hp|]. lra.
  - apply Qle_shift_div_r; [exact Hp|]. lra.
Qed.

Lemma areaScore_nonneg r : 0 <= Spec.areaScore r.
Proof.
  unfold Spec.areaScore.
  destruct (_ || _); [lra|]. destruct (_ && _); [lra|].
  destruct (Qltb _ _); lra.
Qed.

Lemma shapeScore_nonneg n : 0 <= Spec.shapeScore n.
Proof.
  unfold Spec.shapeScore.
  destruct (_ =? _)%nat; [lra|]. destruct (_ <=? _)%nat; [lra|].
  destruct (_ && _); lra.
Qed.

Lemma aspectScore_nonneg ar t tol : 0 <= Spec.aspectScore ar t tol.
Proof.
  unfold Spec.aspectScore, Qmax.
  destruct (Qltb 0 _) eqn:E; qbool; lra.
Qed.

Lemma half_pos (n : Z) : (0 < n)%Z -> 1 # 2 <= inject_Z n / 2.
Proof.
  intros H. assert (1 <= inject_Z n).
  { change 1 with (inject_Z 1). rewrite <- Zle_Qle. lia. }
  apply Qle_shift_div_l; lra.
Qed.

Section Safety.
Context `{sound : CvSound}.

Lemma centerednessScore_range (contour : Contour) (image_size : Size) :
  contour <> [] ->
  (0 < width image_size)%Z -> (0 < height image_size)%Z ->
  (forall p, In p contour -> inside image_size p) ->
  unit_interval (Spec.centerednessScore contour image_size).
Proof.
  intros Hne Hw Hh Hin. unfold Spec.centerednessScore. cbv zeta.
  destruct (circle_centre_inside contour image_size Hne Hin)
    as [[Hx0 Hx1] [Hy0 Hy1]].
  set (cx := fst (cv_minEnclosingCircle contour)) in *.
  set (cy := snd (cv_minEnclosingCircle contour)) in *.
  set (W := inject_Z (width image_size)) in *.
  set (H := inject_Z (height image_size)) in *.
  assert (Hmax : 0 < cv_norm (W / 2) (H / 2)).
  { apply norm_positive; apply half_pos; assumption. }
  assert (HW : W / 2 + W / 2 == W) by field.
  assert (HH : H / 2 + H / 2 == H) by field.
  set (w2 := W / 2) in *. set (h2 := H / 2) in *.
  assert (Hd0 : 0 <= cv_norm (cx - w2) (cy - h2)) by apply norm_nonneg.
  assert (Hd1 : cv_norm (cx - w2) (cy - h2) <= cv_norm w2 h2).
  { apply norm_monotone; apply Qabs_Qle_condition; split; lra. }
  set (dist := cv_norm (cx - w2) (cy - h2)) in *.
  set (maxd := cv_norm w2 h2) in *.
  split.
  - assert (dist / maxd <= 1).
    { apply Qle_shift_div_r; [exact Hmax|]. lra. }
    lra.
  - assert (0 <= dist / maxd).
    { apply Qle_shift_div_l; [exact Hmax|]. lra. }
    lra.
Qed.

Lemma long_contour_nonempty (contour : Contour) :
  (4 <= length contour)%nat -> contour <> [].
Proof. intros H E. subst. simpl in H. lia. Qed.

Lemma calculateDocumentScore_returns
    (d : ISO_ID1_DocumentDetector) (contour : Contour) (image_size : Size) :
  (0 < width image_size)%Z -> (0 < height image_size)%Z ->
  0 < target_aspect_ratio_ d -> 0 < aspect_ratio_tolerance_ d ->
  exists s,
    ISO.calculateDocumentScore d contour image_size = Ret s
    /\ ((forall p, In p contour -> inside image_size p) -> unit_interval s).
Proof.
  intros Hw Hh Ht Htol.
  destruct (Nat.lt_ge_cases (length contour) 4) as [Hn|Hn].
  - exists 0. split.
    + unfold ISO.calculateDocumentScore.
      replace (length contour <? 4)%nat with true
        by (symmetry; apply Nat.ltb_lt; exact Hn).
      reflexivity.
    + intros _. split; lra.
  - pose proof (long_contour_nonempty contour Hn) as Hne.
    destruct (boundingRect_positive contour Hne) as [_ Hb].
    assert (Hmax : 0 < cv_norm (inject_Z (width image_size) / 2)
                               (inject_Z (height image_size) / 2)).
    { apply norm_positive; apply half_pos; assumption. }
    destruct (calculateDocumentScore_sum d contour image_size
                Hn Hw Hh Hb Ht Htol Hmax) as (s & Hs & Hsum).
    exists s. split; [exact Hs|].
    intros Hin. unfold unit_interval. rewrite Hsum. unfold Spec.weightedScore.
    pose proof (areaScore_nonneg (Spec.areaRatio contour image_size)).
    pose proof (areaScore_le_1 (Spec.areaRatio contour image_size)).
    pose proof (shapeScore_nonneg (length contour)).
    pose proof (shapeScore_le_1 (length contour)).
    pose proof (aspectScore_nonneg (Spec.aspectRatio contour)
                  (target_aspect_ratio_ d) (aspect_ratio_tolerance_ d)).
    pose proof (aspectScore_le_1 (Spec.aspectRatio contour)
                  (target_aspect_ratio_ d) (aspect_ratio_tolerance_ d) Ht Htol).
    destruct (centerednessScore_range contour image_size Hne Hw Hh Hin).
    split; lra.
Qed.

Lemma best_loop_returns (d : ISO_ID1_DocumentDetector) (image_size : Size)
    (contours : list Contour) :
  (0 < width image_size)%Z -> (0 < height image_size)%Z ->
  0 < target_aspect_ratio_ d -> 0 < aspect_ratio_tolerance_ d ->
  forall (i : Z) (st : Q * Z * Contour),
  exists b1 i1 c1,
    ISO.best_loop d image_size contours i st = Ret (b1, i1, c1)
    /\ ((b1, i1, c1) = st
        \/ exists c, In c contours /\ c1 = ISO.approximate d c).
Proof.
  intros Hw Hh Ht Htol.
  induction contours as [|c rest IH]; intros i st; simpl.
  - destruct st as [[b0 i0] c0]. exists b0, i0, c0. split; [reflexivity|].
    left. reflexivity.
  - destruct (calculateDocumentScore_returns d (ISO.approximate d c) image_size
                Hw Hh Ht Htol) as (s & Hs & _).
    rewrite Hs, bind_Ret. destruct st as [[b0 i0] c0].
    destruct (Qltb b0 s).
    + destruct (IH (i + 1)%Z (s, i, ISO.approximate d c))
        as (b1 & i1 & c1 & Hrun & Hcase).
      exists b1, i1, c1. split; [exact Hrun|]. right.
      destruct Hcase as [E|(c' & Hc' & E)].
      * inversion E; subst. exists c. split; [left|]; reflexivity.
      * exists c'. split; [right; exact Hc'|exact E].
    + destruct (IH (i + 1)%Z (b0, i0, c0)) as (b1 & i1 & c1 & Hrun & Hcase).
      exists b1, i1, c1. split; [exact Hrun|].
      destruct Hcase as [E|(c' & Hc' & E)]; [left; exact E|].
      right. exists c'. split; [right; exact Hc'|exact E].
Qed.

Lemma findBestDocumentContour_returns (d : ISO_ID1_DocumentDetector)
    (contours : list Contour) (image_size : Size) :
  (0 < width image_size)%Z -> (0 < height image_size)%Z ->
  0 < target_aspect_ratio_ d -> 0 < aspect_ratio_tolerance_ d ->
  exists ok best,
    ISO.findBestDocumentContour d contours image_size [] = Ret (ok, best)
    /\ (ok = true -> exists c, In c contours /\ best = ISO.approximate d c).
Proof.
  intros Hw Hh Ht Htol. unfold ISO.findBestDocumentContour.
  match goal with
  | |- context [ISO.best_loop _ _ _ ?i ?st] =>
      destruct (best_loop_returns d image_size contours Hw Hh Ht Htol i st)
        as (b1 & i1 & c1 & Hrun & Hcase)
  end.
  rewrite Hrun, bind_Ret. eexists _, _. split; [reflexivity|].
  intros Hok. destruct Hcase as [E|Hc]; [|exact Hc].
  inversion E; subst. discriminate Hok.
Qed.

End Safety.

Lemma min_element_In {A} (lt : A -> A -> bool) (l : list A) :
  forall best, In (min_element lt best l) (best :: l).
Proof.
  induction l as [|a l IH]; intros best; simpl; [left; reflexivity|].
  destruct (IH (if lt a best then a else best)) as [E|Hin].
  - destruct (lt a best); rewrite <- E; [right; left|left]; reflexivity.
  - right. right. exact Hin.
Qed.

Lemma max_element_In {A} (lt : A -> A -> bool) (l : list A) :
  forall best, In (max_element lt best l) (best :: l).
Proof.
  induction l as [|a l IH]; intros best; simpl; [left; reflexivity|].
  destruct (IH (if lt best a then a else best)) as [E|Hin].
  - destruct (lt best a); rewrite <- E; [right; left|left]; reflexivity.
  - right. right. exact Hin.
Qed.

Lemma std_unique_In (l : list Point) (p : Point) :
  In p (std_unique l) -> In p l.
Proof.
  induction l as [|a l IH]; simpl; [tauto|].
  destruct l as [|b l'].
  - tauto.
  - destruct (decide (a = b)).
    + intros H. right. apply IH. exact H.
    + intros [H|H]; [left; exact H|right; apply IH; exact H].
Qed.

Lemma selectFourCorners_In (points : list Point) (p : Point) :
  In p (ISO.selectFourCorners points) -> In p points.
Proof.
  unfold ISO.selectFourCorners.
  destruct (length points <=? 4)%nat; [tauto|].
  destruct points as [|p0 rest]; [tauto|].
  set (corners := std_unique _).
  assert (Hc : forall q, In q corners -> In q (p0 :: rest)).
  { intros q Hq. subst corners. apply std_unique_In in Hq.
    apply (Permutation_in _ (std_sort_perm _ _)) in Hq.
    destruct Hq as [<-|[<-|[<-|[<-|[]]]]];
      first [apply min_element_In | apply max_element_In]. }
  destruct (4 <=? length corners)%nat; intros H; apply Hc; [|exact H].
  rewrite <- (firstn_skipn 4 corners). apply in_or_app. left. exact H.
Qed.

Section CornerSelection.
Context `{sound : CvSound}.

Lemma findCornerPoints_In (contour : Contour) (p : Point) :
  In p (ISO.findCornerPoints contour) -> In p contour.
Proof.
  unfold ISO.findCornerPoints.
  destruct (length contour <=? 4)%nat; [tauto|].
  destruct (length (cv_convexHull contour) <=? 4)%nat;
    [apply convexHull_subset|].
  destruct (4 <? length _)%nat; intros H.
  - apply selectFourCorners_In in H. apply approxPolyDP_subset in H.
    apply convexHull_subset in H. exact H.
  - apply approxPolyDP_subset in H. apply convexHull_subset in H. exact H.
Qed.

Lemma sortCornerPoints_nth (points : list Point) (i : nat) :
  length points = 4%nat -> (i < 4)%nat ->
  In (nth i (ISO.sortCornerPoints points) origin) points.
Proof.
  intros Hlen Hi. unfold ISO.sortCornerPoints. rewrite Hlen.
  simpl negb. cbv iota.
  set (c := ISO.centroid points).
  set (pa := std_sort _ _).
  assert (Hperm : Permutation pa
                    (map (fun p => (p, ISO.angle_from c p)) points))
    by apply std_sort_perm.
  assert (Hlen4 : length pa = 4%nat).
  { rewrite (Permutation_length Hperm), length_map. exact Hlen. }
  set (k := ISO.tl_loop pa 0 None 0).
  assert (Hnth : forall j, (j < 4)%nat ->
                 In (fst (nth j pa (origin, 0))) points).
  { intros j Hj.
    assert (Hin : In (nth j pa (origin, 0)) pa) by (apply nth_In; lia).
    apply (Permutation_in _ Hperm) in Hin. apply in_map_iff in Hin.
    destruct Hin as (q & <- & Hq). exact Hq. }
  destruct i as [|[|[|[|i]]]]; try lia; cbn [map nth]; apply Hnth;
    apply Nat.mod_upper_bound; lia.
Qed.

Lemma extractDocumentBounds_in_range (d : ISO_ID1_DocumentDetector)
    (contour : Contour) (image_size : Size) :
  (0 < width image_size)%Z -> (0 < height image_size)%Z ->
  0 < target_aspect_ratio_ d -> 0 < aspect_ratio_tolerance_ d ->
  (forall p, In p contour -> inside image_size p) ->
  exists answer,
    ISO.extractDocumentBounds d contour image_size = Ret answer
    /\ forall b, answer = Some b -> bounds_in_range b.
Proof.
  intros Hw Hh Ht Htol Hin. unfold ISO.extractDocumentBounds.
  destruct (length contour <? 4)%nat.
  { exists None. split; [reflexivity|discriminate]. }
  set (corners := if (length contour =? 4)%nat then contour
                  else ISO.findCornerPoints contour).
  assert (Hcorners : forall p, In p corners -> inside image_size p).
  { intros p Hp. apply Hin. subst corners.
    destruct (length contour =? 4)%nat; [exact Hp|].
    apply findCornerPoints_In. exact Hp. }
  destruct (length corners =? 4)%nat eqn:E; simpl negb; cbv iota.
  2:{ exists None. split; [reflexivity|discriminate]. }
  apply Nat.eqb_eq in E.
  assert (Hat : forall i, (i < 4)%nat ->
            inside image_size (nth i (ISO.sortCornerPoints corners) origin)).
  { intros i Hi. apply Hcorners, sortCornerPoints_nth; assumption. }
  assert (HW : ~ inject_Z (width image_size) == 0)
    by (apply inject_Z_nonzero; lia).
  assert (HH : ~ inject_Z (height image_size) == 0)
    by (apply inject_Z_nonzero; lia).
  destruct (calculateDocumentScore_returns d contour image_size Hw Hh Ht Htol)
    as (s & Hs & Hrange).
  cbv zeta.
  repeat (rewrite fdiv_Ret by (first [exact HW|exact HH]); rewrite ?bind_Ret).
  rewrite Hs, bind_Ret.
  eexists. split; [reflexivity|].
  intros b Hb. inversion Hb; subst. unfold bounds_in_range. simpl.
  pose proof (Hat 0%nat ltac:(lia)) as [? ?].
  pose proof (Hat 1%nat ltac:(lia)) as [? ?].
  pose proof (Hat 2%nat ltac:(lia)) as [? ?].
  pose proof (Hat 3%nat ltac:(lia)) as [? ?].
  repeat split; try (apply in_unit_interval; assumption);
    apply (Hrange Hin).
Qed.

End CornerSelection.

Lemma scaled_point_inside (C R : Z) (p : Point) :
  (1200 < C)%Z -> (0 < R <= 2147483647)%Z ->
  let scale := binary64 (1200 / inject_Z C) in
  let h := cvRound (binary64 (inject_Z R * scale)) in
  inside (mkSize 1200 h) p ->
  inside (mkSize C R)
    (mkPoint (static_cast_int (binary64 (inject_Z (px p) / scale)))
             (static_cast_int (binary64 (inject_Z (py p) / scale)))).
Proof.
  intros HC [HR HRmax] scale h [[Hx0 Hx1] [Hy0 Hy1]]. simpl in *.
  destruct (scale_factor_range _ HC) as (Hs0 & Hs1 & Hl & Hu).
  fold scale in Hs0, Hs1, Hl, Hu.
  assert (HRq : 0 < inject_Z R) by (apply inject_Z_pos; exact HR).
  assert (HRm : inject_Z R <= 2147483647).
  { change 2147483647 with (inject_Z 2147483647). rewrite <- Zle_Qle.
    exact HRmax. }
  assert (Hxq : 0 <= inject_Z (px p)).
  { change 0 with (inject_Z 0). rewrite <- Zle_Qle. exact Hx0. }
  assert (Hyq : 0 <= inject_Z (py p)).
  { change 0 with (inject_Z 0). rewrite <- Zle_Qle. exact Hy0. }
  assert (Hx1q : inject_Z (px p) <= 1199).
  { change 1199 with (inject_Z 1199). rewrite <- Zle_Qle. lia. }
  assert (Hy1q : inject_Z (py p) + 1 <= inject_Z h).
  { change 1 with (inject_Z 1). rewrite <- inject_Z_plus, <- Zle_Qle. lia. }
  assert (Hrs : 0 < inject_Z R * scale) by nra.
  destruct (binary64_error _ Hrs) as [_ Hw].
  destruct (cvRound_near (binary64 (inject_Z R * scale))) as [_ Hh].
  fold h in Hh.
  assert (Hqx : 0 <= inject_Z (px p) / scale).
  { apply Qle_shift_div_l; [exact Hs0|]. rewrite Qmult_0_l. exact Hxq. }
  assert (Hqy : 0 <= inject_Z (py p) / scale).
  { apply Qle_shift_div_l; [exact Hs0|]. rewrite Qmult_0_l. exact Hyq. }
  destruct (binary64_nonneg _ Hqx) as [Hbx0 Hbx1].
  destruct (binary64_nonneg _ Hqy) as [Hby0 Hby1].
  assert (Etx : inject_Z (px p) / scale * scale == inject_Z (px p))
    by (field; lra).
  assert (Ety : inject_Z (py p) / scale * scale == inject_Z (py p))
    by (field; lra).
  set (tx := inject_Z (px p) / scale) in *.
  set (ty := inject_Z (py p) / scale) in *.
  set (W := inject_Z R * scale) in *.
  set (bw := binary64 W) in *.
  clearbody h.
  destruct (static_cast_int_nonneg _ Hbx0) as [Ex Hfx].
  destruct (static_cast_int_nonneg _ Hby0) as [Ey Hfy].
  unfold inside. simpl. rewrite Ex, Ey.
  set (bx := binary64 tx) in *. set (by_ := binary64 ty) in *.
  split; (split; [assumption|]); apply floor_below.
  - apply Qnot_le_lt. intros Hc.
    assert (H1 : inject_Z C * scale <= bx * scale) by nra.
    assert (H2 : bx * scale
                 <= tx * scale * (1 + (1 # 9007199254740992))) by nra.
    nra.
  - apply Qnot_le_lt. intros Hc.
    assert (H1 : W <= by_ * scale) by (unfold W; nra).
    assert (H2 : by_ * scale
                 <= ty * scale * (1 + (1 # 9007199254740992))) by nra.
    assert (H3 : W < 2147483647) by (unfold W; nra).
    nra.
Qed.

Section Pipeline.
Context `{sound : CvSound}.

Lemma preprocess_size (input : Mat Pixels) :
  exists pre,
    ISO.preprocessImageForID1Document input = (true, pre)
    /\ mat_size pre = mat_size input.
Proof.
  unfold ISO.preprocessImageForID1Document.
  destruct (cv_meanStdDev _) as [mean_val stddev_val].
  eexists. split; [reflexivity|].
  destruct (channels input =? 3)%Z; [reflexivity|].
  destruct (channels input =? 4)%Z; reflexivity.
Qed.

(** The pipeline on an image whose working image is not empty. *)
Lemma detectDocument_safe (d : ISO_ID1_DocumentDetector)
    (input_image : Mat Pixels) :
  (0 < cols input_image)%Z -> (0 < rows input_image <= 2147483647)%Z ->
  ((cols input_image <= 1200)%Z
   \/ (0 < cvRound (binary64
                      (inject_Z (rows input_image)
                       * binary64 (1200 / inject_Z (cols input_image)))))%Z) ->
  0 < target_aspect_ratio_ d ->
  exists d' answer,
    ISO.detectDocument d input_image = Ret (d', answer)
    /\ forall b, answer = Some b -> bounds_in_range b.
Proof.
  intros Hc [Hr Hrmax] Hwork Ht.
  assert (Hne : mat_empty input_image = false).
  { unfold mat_empty. apply Z.eqb_neq.
    pose proof (Z.mul_pos_pos _ _ Hr Hc). lia. }
  assert (Hsel : exists working scale,
            ISO.select_working_image input_image = Ret (working, scale)
            /\ (0 < cols working)%Z /\ (0 < rows working)%Z
            /\ forall best,
                 (forall p, In p best -> inside (mat_size working) p) ->
                 exists best',
                   ISO.rescale_contour scale best = Ret best'
                   /\ forall p, In p best' -> inside (mat_size input_image) p).
  { destruct (Z.le_gt_cases (cols input_image) 1200) as [Hle|Hgt].
    - exists input_image, 1.
      split; [apply select_working_image_native; exact Hle|].
      split; [exact Hc|]. split; [exact Hr|].
      intros best Hin. exists best. split; [reflexivity|exact Hin].
    - destruct Hwork as [Hle|Hh]; [lia|].
      pose proof (select_working_image_scaled input_image Hgt Hh) as Hsel.
      destruct (scale_factor_range _ Hgt) as (H0 & H1 & _).
      eexists _, _. split; [exact Hsel|]. simpl.
      split; [lia|]. split; [exact Hh|].
      intros best Hin. eexists.
      split; [apply rescale_contour_scaled; assumption|].
      intros p Hp. apply in_map_iff in Hp. destruct Hp as (q & <- & Hq).
      apply (scaled_point_inside (cols input_image) (rows input_image) q
               Hgt (conj Hr Hrmax)).
      apply (Hin q Hq). }
  destruct Hsel as (working & scale & Hsel & Hwc & Hwr & Hback).
  destruct (adaptParametersForImageSize_select d (mat_size working) Hwc Hwr)
    as (d1 & Had & Hbundle & Htarget & _).
  assert (Htol : 0 < aspect_ratio_tolerance_ d1).
  { destruct Hbundle as (_ & _ & _ & _ & _ & Htol). simpl in Htol.
    rewrite Htol. unfold Spec.select, Spec.bucket.
    destruct (Spec.panoramic _ _);
      destruct (_ <? 400)%Z; simpl; try lra;
      destruct (_ <=? 799)%Z; simpl; try lra;
      destruct (_ <=? 1499)%Z; simpl; lra. }
  assert (Ht1 : 0 < target_aspect_ratio_ d1) by (rewrite Htarget; exact Ht).
  destruct (preprocess_size working) as (pre & Hpre & Hsize).
  assert (Hprer : (0 < rows pre)%Z).
  { assert (E : rows pre = rows working) by (inversion Hsize; reflexivity).
    rewrite E. exact Hwr. }
  pose proof (findDocumentContours_kept d1 pre Hprer) as Hfind.
  cbv zeta in Hfind.
  set (kept := List.filter (Spec.keeps d1 pre) (cv_findContours pre)) in Hfind.
  assert (Hkept : forall c p,
            In c kept -> In p c -> inside (mat_size working) p).
  { intros c p Hcin Hp. subst kept. apply filter_In in Hcin.
    rewrite <- Hsize. apply (findContours_inside pre c p); tauto. }
  destruct (findBestDocumentContour_returns d1 kept (mat_size working)
              Hwc Hwr Ht1 Htol) as (ok & best & Hbest & Hwin).
  unfold ISO.detectDocument. rewrite Hne, Hsel, bind_Ret. cbv beta iota.
  rewrite Had, bind_Ret, Hpre. simpl negb. cbv iota.
  rewrite Hfind, bind_Ret.
  destruct kept as [|c0 kept'] eqn:Ek; simpl negb; cbv iota.
  { exists d1, None. split; [reflexivity|discriminate]. }
  rewrite Hbest, bind_Ret.
  destruct ok; simpl negb; cbv iota.
  2:{ exists d1, None. split; [reflexivity|discriminate]. }
  destruct (Hwin eq_refl) as (c & Hcin & ->).
  assert (Hbin : forall p,
            In p (ISO.approximate d1 c) -> inside (mat_size working) p).
  { intros p Hp. unfold ISO.approximate in Hp.
    apply approxPolyDP_subset in Hp. apply (Hkept c p Hcin Hp). }
  destruct (Hback _ Hbin) as (best' & Hres & Hin').
  rewrite Hres, bind_Ret.
  destruct (extractDocumentBounds_in_range d1 best' (mat_size input_image)
              Hc Hr Ht1 Htol Hin') as (answer & Hext & Hrange).
  rewrite Hext, bind_Ret.
  exists d1, answer. split; [reflexivity|exact Hrange].
Qed.

(** X1.  Safety of the pipeline.  Let the primitives be sound, the target
    aspect ratio positive and the image non-empty (its height an [int]).
    Then [detectDocument] evaluates no division with a zero divisor, and
    whenever it answers true, the confidence and the eight corner coordinates
    lie in [0, 1].  (Whether a primitive rejects the image is not part of
    the statement.) *)
Theorem detectDocument_in_range (d : ISO_ID1_DocumentDetector)
    (input_image : Mat Pixels) :
  (0 < cols input_image)%Z -> (0 < rows input_image <= 2147483647)%Z ->
  0 < target_aspect_ratio_ d ->
  ISO.detectDocument d input_image <> DivisionByZero
  /\ forall d' b,
       ISO.detectDocument d input_image = Ret (d', Some b) ->
       bounds_in_range b.
Proof.
  intros Hc Hr Ht.
  destruct (Z.le_gt_cases (cols input_image) 1200) as [Hle|Hgt].
  - destruct (detectDocument_safe d input_image Hc Hr (or_introl Hle) Ht)
      as (d1 & answer & E & Hrange).
    rewrite E. split; [discriminate|].
    intros d' b Hb. apply Hrange. congruence.
  - set (h := cvRound (binary64
                (inject_Z (rows input_image)
                 * binary64 (1200 / inject_Z (cols input_image))))).
    destruct (Z.lt_ge_cases 0 h) as [Hh|Hh].
    + destruct (detectDocument_safe d input_image Hc Hr (or_intror Hh) Ht)
        as (d1 & answer & E & Hrange).
      rewrite E. split; [discriminate|].
      intros d' b Hb. apply Hrange. congruence.
    + assert (E : ISO.detectDocument d input_image = CvException).
      { unfold ISO.detectDocument.
        replace (mat_empty input_image) with false.
        - rewrite (select_working_image_rejected input_image Hgt Hh).
          reflexivity.
        - symmetry. unfold mat_empty. apply Z.eqb_neq.
          destruct Hr as [Hr _]. pose proof (Z.mul_pos_pos _ _ Hr Hc). lia. }
      rewrite E. split; discriminate.
Qed.

End Pipeline.

(** *** Soundness of the reference primitives *)

Lemma fold_min_bounds (f : Point -> Z) (l : list Point) :
  forall a lo,
    (lo <= a)%Z -> (forall q, In q l -> (lo <= f q)%Z) ->
    (lo <= fold_left (fun m q => Z.min m (f q)) l a <= a)%Z.
Proof.
  induction l as [|p l IH]; intros a lo Ha Hl; simpl; [lia|].
  assert (H := IH (Z.min a (f p)) lo).
  assert (Hp : (lo <= f p)%Z) by (apply Hl; left; reflexivity).
  destruct H as [H1 H2]; [lia|intros q Hq; apply Hl; right; exact Hq|]. lia.
Qed.

Lemma fold_max_bounds (f : Point -> Z) (l : list Point) :
  forall a hi,
    (a <= hi)%Z -> (forall q, In q l -> (f q <= hi)%Z) ->
    (a <= fold_left (fun m q => Z.max m (f q)) l a <= hi)%Z.
Proof.
  induction l as [|p l IH]; intros a hi Ha Hl; simpl; [lia|].
  assert (H := IH (Z.max a (f p)) hi).
  assert (Hp : (f p <= hi)%Z) by (apply Hl; left; reflexivity).
  destruct H as [H1 H2]; [lia|intros q Hq; apply Hl; right; exact Hq|]. lia.
Qed.

(** The bounding box of points of an image lies in the image. *)
Lemma boundingRect_extent (c : Contour) (s : Size) :
  c <> [] -> (forall p, In p c -> inside s p) ->
  let b := Ref.boundingRect c in
  (0 <= rx b)%Z /\ (0 < rwidth b)%Z /\ (rx b + rwidth b - 1 < width s)%Z
  /\ (0 <= ry b)%Z /\ (0 < rheight b)%Z /\ (ry b + rheight b - 1 < height s)%Z.
Proof.
  intros Hne Hin. destruct c as [|p rest]; [contradiction|]. simpl.
  destruct (Hin p (or_introl eq_refl)) as [[Hx0 Hx1] [Hy0 Hy1]].
  assert (Hrest : forall q, In q rest -> inside s q)
    by (intros q Hq; apply Hin; right; exact Hq).
  pose proof (fold_min_bounds px rest (px p) 0 Hx0
                (fun q Hq => proj1 (proj1 (Hrest q Hq)))).
  pose proof (fold_max_bounds px rest (px p) (width s - 1) ltac:(lia)
                (fun q Hq => ltac:(destruct (Hrest q Hq) as [[? ?] _]; lia))).
  pose proof (fold_min_bounds py rest (py p) 0 Hy0
                (fun q Hq => proj1 (proj2 (Hrest q Hq)))).
  pose proof (fold_max_bounds py rest (py p) (height s - 1) ltac:(lia)
                (fun q Hq => ltac:(destruct (Hrest q Hq) as [_ [? ?]]; lia))).
  lia.
Qed.

Lemma fold_min_le (f : Point -> Z) (l : list Point) :
  forall a, (fold_left (fun m q => Z.min m (f q)) l a <= a)%Z.
Proof.
  induction l as [|p l IH]; intros a; simpl; [lia|].
  specialize (IH (Z.min a (f p))). lia.
Qed.

Lemma fold_max_ge (f : Point -> Z) (l : list Point) :
  forall a, (a <= fold_left (fun m q => Z.max m (f q)) l a)%Z.
Proof.
  induction l as [|p l IH]; intros a; simpl; [lia|].
  specialize (IH (Z.max a (f p))). lia.
Qed.

Lemma boundingRect_nondegenerate (c : Contour) :
  c <> [] ->
  (0 < rwidth (Ref.boundingRect c))%Z /\ (0 < rheight (Ref.boundingRect c))%Z.
Proof.
  intros Hne. destruct c as [|p rest]; [contradiction|]. simpl.
  pose proof (fold_min_le px rest (px p)).
  pose proof (fold_max_ge px rest (px p)).
  pose proof (fold_min_le py rest (py p)).
  pose proof (fold_max_ge py rest (py p)).
  lia.
Qed.

Lemma clamp_between (lo hi : Z) (q : Q) :
  (lo <= hi)%Z ->
  inject_Z lo <= Ref.clamp lo hi q /\ Ref.clamp lo hi q <= inject_Z hi.
Proof.
  intros H. rewrite Zle_Qle in H. unfold Ref.clamp, Qmax, Qmin.
  destruct (Qltb q (inject_Z hi)) eqn:E1; qbool;
    destruct (Qltb (inject_Z lo) _) eqn:E2; qbool; split; lra.
Qed.

Lemma sqrt12_nonneg (q : Q) : 0 <= Ref.sqrt12 q.
Proof.
  unfold Ref.sqrt12. apply Qle_shift_div_l; [reflexivity|].
  rewrite Qmult_0_l. change 0 with (inject_Z 0). rewrite <- Zle_Qle.
  apply Z.sqrt_nonneg.
Qed.

Lemma sqrt12_monotone (q q' : Q) : q <= q' -> Ref.sqrt12 q <= Ref.sqrt12 q'.
Proof.
  intros H. unfold Ref.sqrt12.
  apply Qmult_le_compat_r; [|discriminate].
  rewrite <- Zle_Qle. apply Z.sqrt_le_mono. apply Qfloor_resp_le.
  apply Qmult_le_compat_r; [exact H|discriminate].
Qed.

Lemma sqrt12_positive (q : Q) : 1 # 2 <= q -> 0 < Ref.sqrt12 q.
Proof.
  intros H. unfold Ref.sqrt12. apply Qlt_shift_div_l; [reflexivity|].
  rewrite Qmult_0_l. change 0 with (inject_Z 0). rewrite <- Zlt_Qlt.
  apply Z.sqrt_pos.
  assert (Hq : 1 <= q * 1000000000000000000000000) by lra.
  apply Qfloor_resp_le in Hq. change (Qfloor 1) with 1%Z in Hq. lia.
Qed.

Lemma square_le (x x' : Q) : Qabs x <= x' -> x * x <= x' * x'.
Proof.
  intros H. apply Qabs_Qle_condition in H. nra.
Qed.

(** The reference primitives are sound. *)
Lemma Ref_sound : @CvSound Ref.ops.
Proof.
  constructor; simpl.
  - intros m c p Hc Hp. apply filter_In in Hc. destruct Hc as [_ Hc].
    rewrite forallb_forall in Hc. specialize (Hc p Hp).
    unfold Ref.insideb in Hc.
    repeat (apply andb_prop in Hc; destruct Hc as [Hc ?]).
    unfold inside. simpl. lia.
  - intros c _ p H. exact H.
  - intros c p H. exact H.
  - apply boundingRect_nondegenerate.
  - intros c s Hne Hin.
    destruct (boundingRect_extent c s Hne Hin)
      as (Hx0 & Hw & Hx1 & Hy0 & Hh & Hy1).
    cbv zeta in Hx0, Hw, Hx1, Hy0, Hh, Hy1.
    assert (HW : 0 <= inject_Z (width s)).
    { change 0 with (inject_Z 0). rewrite <- Zle_Qle. lia. }
    assert (HH : 0 <= inject_Z (height s)).
    { change 0 with (inject_Z 0). rewrite <- Zle_Qle. lia. }
    unfold Ref.minEnclosingCircle.
    destruct (List.filter _ _) as [|k rest].
    + simpl. repeat split; try lra.
    + cbv zeta. simpl fst. simpl snd.
      set (b := Ref.boundingRect c) in *.
      set (best := fold_left _ rest k).
      destruct (clamp_between (rx b) (rx b + rwidth b - 1)
                  (Qred (fst (fst best))) ltac:(lia)) as [Ha Hb].
      destruct (clamp_between (ry b) (ry b + rheight b - 1)
                  (Qred (snd (fst best))) ltac:(lia)) as [Hc Hd].
      assert (0 <= inject_Z (rx b))
        by (change 0 with (inject_Z 0); rewrite <- Zle_Qle; lia).
      assert (0 <= inject_Z (ry b))
        by (change 0 with (inject_Z 0); rewrite <- Zle_Qle; lia).
      assert (inject_Z (rx b + rwidth b - 1) <= inject_Z (width s))
        by (rewrite <- Zle_Qle; lia).
      assert (inject_Z (ry b + rheight b - 1) <= inject_Z (height s))
        by (rewrite <- Zle_Qle; lia).
      repeat split; lra.
  - intros x y. apply sqrt12_nonneg.
  - intros x y Hx Hy. apply sqrt12_positive. nra.
  - intros x y x' y' Hx Hy. apply sqrt12_monotone.
    pose proof (square_le _ _ Hx). pose proof (square_le _ _ Hy). lra.
Qed.

(** The safety theorem on the 3264 x 2448 sample photograph. *)
Lemma detectDocument_in_range_witness :
  exists d' b,
    @ISO.detectDocument Ref.ops ISO_ID1_new Samples.phone_photo
    = Ret (d', Some b)
    /\ bounds_in_range b.
Proof.
  assert (E : exists d' b,
             @ISO.detectDocument Ref.ops ISO_ID1_new Samples.phone_photo
             = Ret (d', Some b))
    by (vm_compute; eexists _, _; reflexivity).
  destruct E as (d' & b & E).
  assert (Hc : (0 < cols Samples.phone_photo)%Z) by reflexivity.
  assert (Hr : (0 < rows Samples.phone_photo <= 2147483647)%Z)
    by (simpl; lia).
  assert (Ht : 0 < target_aspect_ratio_ ISO_ID1_new) by reflexivity.
  exists d', b. split; [exact E|].
  exact (proj2 (@detectDocument_in_range Ref.ops Ref_sound ISO_ID1_new
                  Samples.phone_photo Hc Hr Ht) d' b E).
Defined.

(** The hypothesis on the target ratio cannot be dropped from the safety
    theorem: after [setTargetAspectRatio(-1.586, 0.4)] the confidence of the
    1200 x 800 sample exceeds 1. *)
Lemma detectDocument_negative_target :
  exists d' b,
    @ISO.detectDocument Ref.ops
      (ISO.setTargetAspectRatio ISO_ID1_new (-1.586) 0.4) Samples.small_photo
    = Ret (d', Some b)
    /\ 1 < confidence b.
Proof.
  eexists _, _. split; [vm_compute; reflexivity|].
  apply Qltb_lt. vm_compute. reflexivity.
Qed.

(** ** Configuration and adaptive selection *)

Section Configuration.
Context `{ops : CvOps}.

(** The adaptive selection reads none of the fields it assigns. *)
Lemma adaptParametersForImageSize_ignores_configuration
    (d1 d2 : ISO_ID1_DocumentDetector) (image_size : Size) :
  target_aspect_ratio_ d1 = target_aspect_ratio_ d2 ->
  ISO.adaptParametersForImageSize d1 image_size
  = ISO.adaptParametersForImageSize d2 image_size.
Proof.
  intros Ht. unfold ISO.adaptParametersForImageSize, ISO.assign_bucket.
  rewrite Ht. reflexivity.
Qed.

(** Hence two detectors that differ in their thresholds, area ratios,
    epsilon factor or tolerance only answer every non-empty image alike. *)
Lemma detectDocument_ignores_configuration
    (d1 d2 : ISO_ID1_DocumentDetector) (input_image : Mat Pixels) :
  mat_empty input_image = false ->
  target_aspect_ratio_ d1 = target_aspect_ratio_ d2 ->
  ISO.detectDocument d1 input_image = ISO.detectDocument d2 input_image.
Proof.
  intros Hne Ht. unfold ISO.detectDocument. rewrite Hne.
  destruct (ISO.select_working_image input_image) as [[w s]| |];
    simpl; try reflexivity.
  rewrite (adaptParametersForImageSize_ignores_configuration d1 d2 _ Ht).
  reflexivity.
Qed.

End Configuration.

Section GenericConfiguration.
Context `{ops : CvOps}.

(** X6.  The generic detector hands its configured thresholds to the edge
    detector and filters with its configured area window. *)
Lemma Generic_findContours_window (d : Generic.DocumentDetector)
    (edge_image : Mat Pixels) (c : Contour) :
  In c (snd (Generic.findContours d edge_image))
  <-> In c (cv_findContours edge_image)
      /\ Generic.min_contour_area_ d <= cv_contourArea c
      /\ cv_contourArea c <= Generic.max_contour_area_ d.
Proof.
  unfold Generic.findContours.
  destruct (cv_findContours edge_image) as [|c0 l] eqn:E.
  - simpl. tauto.
  - set (keep := fun contour : Contour =>
                   negb (Qltb (cv_contourArea contour)
                              (Generic.min_contour_area_ d)
                         || Qltb (Generic.max_contour_area_ d)
                                 (cv_contourArea contour))).
    change (In c (List.filter keep (c0 :: l))
            <-> In c (c0 :: l)
                /\ Generic.min_contour_area_ d <= cv_contourArea c
                /\ cv_contourArea c <= Generic.max_contour_area_ d).
    rewrite filter_In. subst keep. cbv beta.
    rewrite negb_true_iff, orb_false_iff, !Qltb_ge. tauto.
Qed.

End GenericConfiguration.

(** C5, evaluated.  A detector configured with [setCannyThresholds(100, 200)]
    and [setAreaRatios(0.3, 0.6)] is run on a 300 x 200 image whose only
    contour covers 10.5 % of the frame.  The call succeeds, although the
    configured window excludes the contour, and leaves the four fields at the
    adaptive values 30, 90, 0.05 and 0.95. *)
Theorem detectDocument_discards_configuration :
  exists d' b,
    @ISO.detectDocument Ref.ops Samples.configured Samples.thumbnail
    = Ret (d', Some b)
    /\ canny_threshold1_ Samples.configured = 100
    /\ canny_threshold2_ Samples.configured = 200
    /\ min_contour_area_ratio_ Samples.configured = 0.3
    /\ max_contour_area_ratio_ Samples.configured = 0.6
    /\ canny_threshold1_ d' = 30
    /\ canny_threshold2_ d' = 90
    /\ min_contour_area_ratio_ d' = 0.05
    /\ max_contour_area_ratio_ d' = 0.95
    /\ Ref.contourArea Samples.stamp < 0.3 * inject_Z (200 * 300).
Proof.
  eexists _, _. split; [vm_compute; reflexivity|].
  repeat split; vm_compute; reflexivity.
Qed.

(** ** Degenerate frames *)

(** C1, evaluated.  On a non-empty image 5000 pixels wide and 2 pixels high
    the target size of the resize is 1200 x 0, the resize raises, and the
    call of [detectDocument] returns neither true nor false. *)
Theorem detectDocument_strip_raises `{ops : CvOps}
    (d : ISO_ID1_DocumentDetector) (ch : Z) (pixels : Pixels) :
  mat_empty (mkMat 2 5000 ch pixels) = false
  /\ ISO.detectDocument d (mkMat 2 5000 ch pixels) = CvException.
Proof. split; reflexivity. Qed.

(** Were an empty working image handed on instead, the adaptive selection
    would divide by its smaller dimension, which is 0. *)
Lemma adaptParametersForImageSize_empty_frame (d : ISO_ID1_DocumentDetector) :
  ISO.adaptParametersForImageSize d (mkSize 1200 0) = DivisionByZero.
Proof. reflexivity. Qed.

(** ** The configuration entry point *)

Section SetConfig.
Variable stod : string -> option Q.

(** C10.  When the value is a number [v], [id_reader_set_config] succeeds,
    records the pair in the configuration map, and calls the two-argument
    setter with [v] and a constant: the key "canny_threshold1" sets the
    second threshold to 150, "canny_threshold2" sets the first to 50,
    "min_contour_area" sets the maximum to 500000 and "max_contour_area" sets
    the minimum to 10000, whatever these fields held before. *)
Theorem id_reader_set_config_resets_partner
    (ctx : Api.id_reader_context) (value : string) (v : Q) :
  stod value = Some v ->
  let d := Api.detector ctx in
  let after key :=
    Api.id_reader_set_config stod (Some ctx) (Some key) (Some value) in
  let result key d' :=
    (Api.ID_READER_SUCCESS,
     Some (Api.mkContext d' (<[key := value]> (Api.config ctx)))) in
  after "canny_threshold1"%string
  = result "canny_threshold1"%string
      (Generic.mkDetector v 150 (Generic.min_contour_area_ d)
         (Generic.max_contour_area_ d) (Generic.approx_epsilon_factor_ d))
  /\ after "canny_threshold2"%string
     = result "canny_threshold2"%string
         (Generic.mkDetector 50 v (Generic.min_contour_area_ d)
            (Generic.max_contour_area_ d) (Generic.approx_epsilon_factor_ d))
  /\ after "min_contour_area"%string
     = result "min_contour_area"%string
         (Generic.mkDetector (Generic.canny_threshold1_ d)
            (Generic.canny_threshold2_ d) v 500000
            (Generic.approx_epsilon_factor_ d))
  /\ after "max_contour_area"%string
     = result "max_contour_area"%string
         (Generic.mkDetector (Generic.canny_threshold1_ d)
            (Generic.canny_threshold2_ d) 10000 v
            (Generic.approx_epsilon_factor_ d)).
Proof.
  intros Hv d after result. subst after result.
  unfold Api.id_reader_set_config. simpl. rewrite Hv.
  repeat split.
Qed.

End SetConfig.

(** The theorem after "canny_threshold2" was set to 200: setting
    "canny_threshold1" to 75 puts the second threshold back to 150. *)
Lemma id_reader_set_config_resets_partner_witness :
  exists ctx1 ctx2,
    Api.id_reader_set_config Api.stod_decimal
      (Some (Api.mkContext Generic.DocumentDetector_new ∅))
      (Some "canny_threshold2"%string) (Some "200"%string)
    = (Api.ID_READER_SUCCESS, Some ctx1)
    /\ Generic.canny_threshold2_ (Api.detector ctx1) = 200
    /\ Api.id_reader_set_config Api.stod_decimal (Some ctx1)
         (Some "canny_threshold1"%string) (Some "75"%string)
       = (Api.ID_READER_SUCCESS, Some ctx2)
    /\ Generic.canny_threshold1_ (Api.detector ctx2) = 75
    /\ Generic.canny_threshold2_ (Api.detector ctx2) = 150.
Proof.
  eexists _, _. split; [reflexivity|]. split; [reflexivity|].
  split.
  - apply (proj1 (id_reader_set_config_resets_partner Api.stod_decimal _
                    "75"%string 75 eq_refl)).
  - split; reflexivity.
Defined.

(** The configuration calls of the test set-up
    ([tests/detection_test_framework.cpp], lines 59-62), in their order.
    The minimum contour area asked for is 5000; the last call puts it back
    to 10000. *)
Lemma id_reader_set_config_test_setup :
  let set key value ctx :=
    snd (Api.id_reader_set_config Api.stod_decimal ctx
           (Some key) (Some value)) in
  let ctx0 := Some (Api.mkContext Generic.DocumentDetector_new ∅) in
  let ctx3 :=
    set "min_contour_area"%string "5000"%string
      (set "canny_threshold2"%string "150"%string
         (set "canny_threshold1"%string "50"%string ctx0)) in
  let ctx4 := set "max_contour_area"%string "500000"%string ctx3 in
  (Generic.min_contour_area_ <$> (Api.detector <$> ctx3)) = Some 5000
  /\ (Generic.min_contour_area_ <$> (Api.detector <$> ctx4)) = Some 10000
  /\ (Api.config <$> ctx4) ≫= (fun m => m !! "min_contour_area"%string)
     = Some "5000"%string.
Proof. repeat split; vm_compute; reflexivity. Qed.

(** ** The detector between two calls *)

Section History.
Context `{ops : CvOps}.

Lemma adaptParametersForImageSize_target (d d' : ISO_ID1_DocumentDetector)
    (image_size : Size) :
  ISO.adaptParametersForImageSize d image_size = Ret d' ->
  target_aspect_ratio_ d' = target_aspect_ratio_ d.
Proof.
  unfold ISO.adaptParametersForImageSize. intros H.
  apply bind_returns in H. destruct H as (r & _ & H).
  repeat match type of H with
         | context [if ?c then _ else _] => destruct c
         end; inversion H; reflexivity.
Qed.

Lemma detectDocument_target (d d' : ISO_ID1_DocumentDetector)
    (input_image : Mat Pixels) (answer : option DocumentBounds) :
  ISO.detectDocument d input_image = Ret (d', answer) ->
  target_aspect_ratio_ d' = target_aspect_ratio_ d.
Proof.
  intros H. destruct (mat_empty input_image) eqn:E.
  - unfold ISO.detectDocument in H. rewrite E in H. inversion H. reflexivity.
  - destruct (detectDocument_stages _ _ _ _ H E) as (w & s & _ & Had & _).
    exact (adaptParametersForImageSize_target _ _ _ Had).
Qed.

(** X2.  [detectDocument] assigns data members, but keeps no memory of the
    images it has seen: after a call on one image, a call on a non-empty
    image gives what it would have given on the detector before the first
    call; and a second call on the same image repeats the answer and leaves
    the detector as the first call left it.  In particular the halving of
    the minimum area ratio for wide frames does not accumulate. *)
Theorem detectDocument_history_independent
    (d d1 : ISO_ID1_DocumentDetector) (first next : Mat Pixels)
    (answer : option DocumentBounds) :
  ISO.detectDocument d first = Ret (d1, answer) ->
  mat_empty next = false ->
  ISO.detectDocument d1 next = ISO.detectDocument d next
  /\ forall d2 answer',
       ISO.detectDocument d1 next = Ret (d2, answer') ->
       ISO.detectDocument d2 next = Ret (d2, answer').
Proof.
  intros H Hne.
  pose proof (detectDocument_target _ _ _ _ H) as Ht.
  split.
  - apply detectDocument_ignores_configuration; assumption.
  - intros d2 answer' H2.
    pose proof (detectDocument_target _ _ _ _ H2) as Ht2.
    rewrite (detectDocument_ignores_configuration d2 d1 next Hne Ht2).
    exact H2.
Qed.

End History.

(** The theorem after a call on the 1000 x 3000 sample, a wide frame: the
    minimum area ratio was halved to 0.0025, and the 1200 x 800 sample is
    answered as by a new detector. *)
Lemma detectDocument_history_independent_witness :
  let d1 :=
    ISO.widen_for_panorama
      (ISO.assign_bucket ISO_ID1_new 20 60 0.005 0.85 0.01 0.35) in
  @ISO.detectDocument Ref.ops ISO_ID1_new Samples.portrait = Ret (d1, None)
  /\ min_contour_area_ratio_ d1 == 0.0025
  /\ @ISO.detectDocument Ref.ops d1 Samples.small_photo
     = @ISO.detectDocument Ref.ops ISO_ID1_new Samples.small_photo.
Proof.
  intros d1.
  assert (H : @ISO.detectDocument Ref.ops ISO_ID1_new Samples.portrait
              = Ret (d1, None)) by (vm_compute; reflexivity).
  split; [exact H|]. split; [reflexivity|].
  exact (proj1 (@detectDocument_history_independent Ref.ops ISO_ID1_new d1
                  Samples.portrait Samples.small_photo None H eq_refl)).
Defined.

Lemma lexb_lt (a b : Point) : lexb a b = true <-> lex_lt a b.
Proof.
  unfold lexb, lex_lt.
  rewrite orb_true_iff, andb_true_iff, Z.ltb_lt, Z.eqb_eq, Z.ltb_lt.
  reflexivity.
Qed.

Lemma lexb_ge (a b : Point) : lexb a b = false -> lex_le b a.
Proof.
  unfold lexb, lex_le, lex_lt. intros H.
  apply orb_false_iff in H. destruct H as [H1 H2].
  apply Z.ltb_ge in H1. apply andb_false_iff in H2.
  destruct a as [ax ay], b as [bx by_]. simpl in *.
  destruct (Z.eq_dec ax bx) as [ ->|Hne].
  - destruct H2 as [H2|H2].
    + apply Z.eqb_neq in H2. contradiction.
    + apply Z.ltb_ge in H2.
      destruct (Z.eq_dec ay by_) as [ ->|Hne]; [right; reflexivity|].
      left. right. split; [reflexivity|lia].
  - left. left. lia.
Qed.

Lemma lex_le_trans (a b c : Point) : lex_le a b -> lex_le b c -> lex_le a c.
Proof.
  unfold lex_le, lex_lt. intros [H1| ->] [H2| ->]; auto.
  left. lia.
Qed.

Lemma sort_insert_lex (a : Point) (l : list Point) :
  StronglySorted lex_le l -> StronglySorted lex_le (sort_insert lexb a l).
Proof.
  induction 1 as [|b l Hl IH Hb]; simpl.
  - repeat constructor.
  - destruct (lexb b a) eqn:E.
    + apply lexb_lt in E. constructor; [exact IH|].
      rewrite List.Forall_forall in Hb |- *. intros x Hx.
      apply (Permutation_in _ (sort_insert_perm _ a l)) in Hx.
      destruct Hx as [<-|Hx]; [left; exact E|apply Hb; exact Hx].
    + apply lexb_ge in E.
      constructor; [constructor; assumption|].
      constructor; [exact E|].
      rewrite List.Forall_forall in Hb |- *. intros x Hx.
      apply (lex_le_trans a b x); [exact E|apply Hb; exact Hx].
Qed.

Lemma std_sort_lex (l : list Point) : StronglySorted lex_le (std_sort lexb l).
Proof.
  induction l as [|a l IH]; simpl; [constructor|].
  apply sort_insert_lex. exact IH.
Qed.

Lemma std_unique_keeps (l : list Point) (p : Point) :
  In p l -> In p (std_unique l).
Proof.
  induction l as [|a l IH]; [tauto|].
  intros [<-|Hin].
  - simpl. destruct l as [|b l']; [left; reflexivity|].
    destruct (decide (a = b)) as [ ->|Hne].
    + apply IH. left. reflexivity.
    + left. reflexivity.
  - simpl. destruct l as [|b l']; [destruct Hin|].
    destruct (decide (a = b)); [apply IH; exact Hin|].
    right. apply IH. exact Hin.
Qed.

Lemma std_unique_strict (l : list Point) :
  StronglySorted lex_le l -> StronglySorted lex_lt (std_unique l).
Proof.
  induction 1 as [|a l Hl IH Ha]; [constructor|].
  simpl. destruct l as [|b l']; [repeat constructor|].
  destruct (decide (a = b)) as [ ->|Hne]; [exact IH|].
  constructor; [exact IH|].
  rewrite List.Forall_forall in Ha |- *. intros x Hx.
  apply std_unique_In in Hx.
  assert (Hab : lex_lt a b).
  { destruct (Ha b (or_introl eq_refl)) as [H|H]; [exact H|contradiction]. }
  destruct Hx as [<-|Hx]; [exact Hab|].
  apply StronglySorted_inv in Hl. destruct Hl as [_ Hb].
  rewrite List.Forall_forall in Hb.
  destruct (Hb x Hx) as [H|<-]; [|exact Hab].
  unfold lex_lt in *. lia.
Qed.

Lemma std_unique_length (l : list Point) :
  (length (std_unique l) <= length l)%nat.
Proof.
  induction l as [|a l IH]; simpl; [lia|].
  destruct l as [|b l']; [simpl; lia|].
  destruct (decide (a = b)); simpl in *; lia.
Qed.

Lemma min_element_first {A} (key : A -> Z) (l : list A) :
  forall done best,
    first_least key done best ->
    first_least key (done ++ l)
      (min_element (fun a b => (key a <? key b)%Z) best l).
Proof.
  induction l as [|a l IH]; intros done best Hbest; simpl.
  - rewrite app_nil_r. exact Hbest.
  - replace (done ++ a :: l) with ((done ++ [a]) ++ l)
      by (rewrite <- app_assoc; reflexivity).
    apply IH. destruct Hbest as (before & after & -> & Hb & Ha).
    destruct (key a <? key best)%Z eqn:E.
    + apply Z.ltb_lt in E. exists (before ++ best :: after), [].
      split; [reflexivity|]. split; [|intros q []].
      intros q Hq. apply in_app_or in Hq.
      destruct Hq as [Hq|[<-|Hq]].
      * specialize (Hb q Hq). lia.
      * exact E.
      * specialize (Ha q Hq). lia.
    + apply Z.ltb_ge in E. exists before, (after ++ [a]).
      split; [rewrite <- app_assoc; reflexivity|]. split; [exact Hb|].
      intros q Hq. apply in_app_or in Hq.
      destruct Hq as [Hq|[<-|[]]]; [apply Ha; exact Hq|exact E].
Qed.

Lemma max_element_first {A} (key : A -> Z) (l : list A) :
  forall done best,
    first_greatest key done best ->
    first_greatest key (done ++ l)
      (max_element (fun a b => (key a <? key b)%Z) best l).
Proof.
  induction l as [|a l IH]; intros done best Hbest; simpl.
  - rewrite app_nil_r. exact Hbest.
  - replace (done ++ a :: l) with ((done ++ [a]) ++ l)
      by (rewrite <- app_assoc; reflexivity).
    apply IH. destruct Hbest as (before & after & -> & Hb & Ha).
    destruct (key best <? key a)%Z eqn:E.
    + apply Z.ltb_lt in E. exists (before ++ best :: after), [].
      split; [reflexivity|]. split; [|intros q []].
      intros q Hq. apply in_app_or in Hq.
      destruct Hq as [Hq|[<-|Hq]].
      * specialize (Hb q Hq). lia.
      * exact E.
      * specialize (Ha q Hq). lia.
    + apply Z.ltb_ge in E. exists before, (after ++ [a]).
      split; [rewrite <- app_assoc; reflexivity|]. split; [exact Hb|].
      intros q Hq. apply in_app_or in Hq.
      destruct Hq as [Hq|[<-|[]]]; [apply Ha; exact Hq|exact E].
Qed.

(** X4.  On more than four points [selectFourCorners] returns the extreme
    points of the list, namely the first leftmost, the first rightmost, the
    first topmost and the first bottommost one (the first of the points of
    least or greatest coordinate, in the order of the list), each once, in
    ascending order by [x] and then by [y].  Where two of these extremes are
    the same point it returns fewer than four corners. *)
Theorem selectFourCorners_extremes (points : list Point) :
  (4 < length points)%nat ->
  exists leftmost rightmost topmost bottommost,
    first_least px points leftmost
    /\ first_greatest px points rightmost
    /\ first_least py points topmost
    /\ first_greatest py points bottommost
    /\ (forall p, In p (ISO.selectFourCorners points)
                  <-> In p [leftmost; rightmost; topmost; bottommost])
    /\ StronglySorted lex_lt (ISO.selectFourCorners points)
    /\ (length (ISO.selectFourCorners points) <= 4)%nat.
Proof.
  intros Hlen. unfold ISO.selectFourCorners.
  destruct (length points <=? 4)%nat eqn:E; [apply Nat.leb_le in E; lia|].
  destruct points as [|p0 rest]; [simpl in Hlen; lia|].
  set (l := min_element (fun a b => (px a <? px b)%Z) p0 rest).
  set (r := max_element (fun a b => (px a <? px b)%Z) p0 rest).
  set (t := min_element (fun a b => (py a <? py b)%Z) p0 rest).
  set (b := max_element (fun a b => (py a <? py b)%Z) p0 rest).
  change (fun a b : Point =>
            (px a <? px b)%Z || ((px a =? px b)%Z && (py a <? py b)%Z))
    with lexb.
  set (corners := std_unique (std_sort lexb [l; r; t; b])).
  assert (Hc4 : (length corners <= 4)%nat).
  { subst corners. etransitivity; [apply std_unique_length|].
    rewrite (Permutation_length (std_sort_perm _ _)). simpl. lia. }
  assert (Hfirst : (if (4 <=? length corners)%nat
                    then firstn 4 corners else corners) = corners).
  { destruct (4 <=? length corners)%nat; [|reflexivity].
    apply firstn_all2. exact Hc4. }
  rewrite Hfirst.
  assert (Hleast : forall key : Point -> Z, first_least key [p0] p0).
  { intros key. exists [], []. split; [reflexivity|]. split; intros q []. }
  assert (Hgreatest : forall key : Point -> Z, first_greatest key [p0] p0).
  { intros key. exists [], []. split; [reflexivity|]. split; intros q []. }
  exists l, r, t, b.
  split; [apply (min_element_first px rest [p0] p0), Hleast|].
  split; [apply (max_element_first px rest [p0] p0), Hgreatest|].
  split; [apply (min_element_first py rest [p0] p0), Hleast|].
  split; [apply (max_element_first py rest [p0] p0), Hgreatest|].
  split; [|split].
  - intros p. split; intros H.
    + subst corners. apply std_unique_In in H.
      apply (Permutation_in _ (std_sort_perm _ _)) in H. exact H.
    + subst corners. apply std_unique_keeps.
      apply (Permutation_in _ (Permutation_sym (std_sort_perm _ _))). exact H.
  - subst corners. apply std_unique_strict, std_sort_lex.
  - exact Hc4.
Qed.

(** The theorem on a rectangle with a fifth vertex on its upper side: its
    upper left corner is both the first leftmost and the first topmost
    point, and three corners are returned. *)
Lemma selectFourCorners_extremes_witness :
  StronglySorted lex_lt (ISO.selectFourCorners Samples.pentagon)
  /\ ISO.selectFourCorners Samples.pentagon
     = [mkPoint 0 0; mkPoint 100 0; mkPoint 100 60].
Proof.
  destruct (selectFourCorners_extremes Samples.pentagon)
    as (_ & _ & _ & _ & _ & _ & _ & _ & _ & Hsorted & _).
  - simpl. lia.
  - split; [exact Hsorted|reflexivity].
Defined.

Lemma rotate4_perm {A} (l : list A) (k : nat) (dflt : A) :
  length l = 4%nat ->
  Permutation
    (map (fun i => nth ((k + i) mod 4)%nat l dflt) [0; 1; 2; 3]%nat) l.
Proof.
  intros Hlen.
  destruct l as [|a [|b [|c [|d [|e l]]]]]; try discriminate Hlen.
  assert (Hk : forall i, ((k + i) mod 4 = (k mod 4 + i) mod 4)%nat).
  { intros i. rewrite <- Nat.Div0.add_mod_idemp_l. reflexivity. }
  cbn [map]. rewrite !Hk.
  assert (Hr : (k mod 4 < 4)%nat) by (apply Nat.mod_upper_bound; lia).
  destruct (k mod 4)%nat as [|[|[|[|r]]]]; try lia; cbn.
  - reflexivity.
  - apply Permutation_sym, Permutation_cons_append with (l := [b; c; d]).
  - change (Permutation ([c; d] ++ [a; b]) ([a; b] ++ [c; d])).
    apply Permutation_app_comm.
  - change (Permutation ([d] ++ [a; b; c]) ([a; b; c] ++ [d])).
    apply Permutation_app_comm.
Qed.

Section CornerOrder.
Context `{ops : CvOps}.

(** X5.  Whatever [atan2] and the norm compute, [sortCornerPoints] returns
    a permutation of its input: no corner is lost, none is repeated.  On
    four points the norm of no point (its distance to the origin (0,0)) is
    below that of the first one returned. *)
Theorem sortCornerPoints_permutation (points : list Point) :
  Permutation (ISO.sortCornerPoints points) points
  /\ (length points = 4%nat ->
      exists first,
        hd_error (ISO.sortCornerPoints points) = Some first
        /\ forall p, In p points ->
             cv_norm (inject_Z (px first)) (inject_Z (py first))
             <= cv_norm (inject_Z (px p)) (inject_Z (py p))).
Proof.
  unfold ISO.sortCornerPoints.
  destruct (length points =? 4)%nat eqn:E; simpl negb; cbv iota.
  2:{ split; [reflexivity|]. intros H. apply Nat.eqb_neq in E. contradiction. }
  apply Nat.eqb_eq in E.
  set (c := ISO.centroid points).
  set (pa := std_sort _ _).
  assert (Hperm : Permutation pa
                    (map (fun p => (p, ISO.angle_from c p)) points))
    by apply std_sort_perm.
  assert (Hlen4 : length pa = 4%nat).
  { rewrite (Permutation_length Hperm), length_map. exact E. }
  set (k := ISO.tl_loop pa 0 None 0).
  assert (Hfst : map fst (map (fun p => (p, ISO.angle_from c p)) points)
                 = points).
  { rewrite map_map. simpl. apply map_id. }
  split.
  - apply Permutation_trans with (map fst pa).
    + rewrite <- (map_map (fun i => nth ((k + i) mod 4)%nat pa (origin, 0))
                          fst).
      apply Permutation_map, rotate4_perm. exact Hlen4.
    + rewrite <- Hfst. apply Permutation_map. exact Hperm.
  - intros _.
    destruct (tl_loop_nearest pa 0 None 0)
      as [[_ Hall]|(j & p & Hj & Hk & Hmin & _)].
    + destruct pa as [|x pa']; [discriminate Hlen4|].
      destruct (Hall x (or_introl eq_refl)) as (mv & Hmv & _).
      discriminate Hmv.
    + fold k in Hk. simpl in Hk.
      assert (Hj4 : (j < 4)%nat).
      { rewrite <- Hlen4. apply nth_error_Some. rewrite Hj. discriminate. }
      exists (fst p). split.
      * cbn [map hd_error].
        rewrite Hk, Nat.add_0_r, Nat.mod_small by exact Hj4.
        rewrite (nth_error_nth _ _ _ Hj). reflexivity.
      * intros q Hq.
        assert (Hin : In (q, ISO.angle_from c q) pa).
        { apply (Permutation_in _ (Permutation_sym Hperm)).
          apply in_map_iff. exists q. split; [reflexivity|exact Hq]. }
        pose proof (Hmin _ Hin) as Hle.
        rewrite !dist_tl_wording in Hle. exact Hle.
Qed.

End CornerOrder.

(** ** The generic detector *)

(** *** Order of the corners *)

Lemma std_sort_ext {A} (lt lt' : A -> A -> bool) (l : list A) :
  (forall a b, lt a b = lt' a b) -> std_sort lt l = std_sort lt' l.
Proof.
  intros H. induction l as [|a l IH]; simpl; [reflexivity|].
  rewrite IH. generalize (std_sort lt' l). intros s.
  induction s as [|b s IHs]; simpl; [reflexivity|].
  rewrite H, IHs. reflexivity.
Qed.

Lemma Zltb_Qltb (a b : Z) : (a <? b)%Z = Qltb (inject_Z a) (inject_Z b).
Proof.
  destruct (Qltb (inject_Z a) (inject_Z b)) eqn:E.
  - apply Qltb_lt in E. rewrite <- Zlt_Qlt in E. apply Z.ltb_lt. exact E.
  - apply Qltb_ge in E. rewrite <- Zle_Qle in E. apply Z.ltb_ge. exact E.
Qed.



Lemma Generic_sortCornerPoints_sorted (points : list Point) :
  length points = 4%nat ->
  Generic.sortCornerPoints points
  = let s := std_sort (key_lt quadrant_key)
               (map (fun p => (p, Generic.quadrant (Generic.centroid points) p))
                    points) in
    [fst (nth 1 s (origin, 0%Z)); fst (nth 0 s (origin, 0%Z));
     fst (nth 3 s (origin, 0%Z)); fst (nth 2 s (origin, 0%Z))].
Proof.
  intros Hlen. unfold Generic.sortCornerPoints. rewrite Hlen.
  cbn [Nat.eqb negb]. cbv zeta.
  rewrite (std_sort_ext (fun a b : Point * Z => (snd a <? snd b)%Z)
             (key_lt quadrant_key)); [reflexivity|].
  intros a b. unfold key_lt, quadrant_key. apply Zltb_Qltb.
Qed.

Lemma Generic_sortCornerPoints_perm (points : list Point) :
  Permutation (Generic.sortCornerPoints points) points.
Proof.
  destruct (Nat.eq_dec (length points) 4%nat) as [Hlen|Hlen].
  - rewrite (Generic_sortCornerPoints_sorted _ Hlen). cbv zeta.
    set (pq := map _ points).
    set (s := std_sort _ pq).
    assert (Hperm : Permutation s pq) by apply std_sort_perm.
    assert (Hfst : map fst pq = points).
    { subst pq. rewrite map_map. simpl. apply map_id. }
    assert (Hlen4 : length s = 4%nat).
    { rewrite (Permutation_length Hperm). subst pq.
      rewrite length_map. exact Hlen. }
    rewrite <- Hfst. rewrite <- Hperm.
    destruct s as [|a [|b [|c [|d [|e s]]]]]; try discriminate Hlen4.
    cbn. rewrite (perm_swap (fst b) (fst a)).
    do 2 apply perm_skip. apply perm_swap.
  - unfold Generic.sortCornerPoints.
    destruct (length points =? 4)%nat eqn:E.
    + apply Nat.eqb_eq in E. contradiction.
    + reflexivity.
Qed.




(** *** Confidence *)

Section GenericConfidence.
Context `{ops : CvOps}.

Lemma Generic_calculateConfidence_bounds (contour : Contour)
    (image_size : Size) :
  contour <> [] ->
  (width image_size * height image_size)%Z <> 0%Z ->
  exists q,
    Generic.calculateConfidence contour image_size = Ret q
    /\ 0.15 <= q /\ q <= 1.
Proof.
  intros Hne Harea. unfold Generic.calculateConfidence.
  destruct contour as [|p rest]; [contradiction|].
  set (c := p :: rest).
  rewrite (fdiv_Ret _ _ (inject_Z_nonzero _ Harea)), bind_Ret.
  set (r := cv_contourArea c / _).
  set (n := length _).
  eexists. split; [reflexivity|].
  assert (Ha : 0 <= (if Qle_bool 0.1 r && Qle_bool r 0.8
                     then 1 - Qabs (0.4 - r) / 0.4 else 0) <= 1).
  { destruct (Qle_bool 0.1 r) eqn:E1; [|cbn [andb]; lra].
    destruct (Qle_bool r 0.8) eqn:E2; cbn [andb]; [|lra].
    apply Qle_bool_iff in E1, E2.
    assert (H0 : 0 <= Qabs (0.4 - r)) by apply Qabs_nonneg.
    assert (H1 : Qabs (0.4 - r) <= 0.4) by (apply Qabs_Qle_condition; lra).
    assert (E : Qabs (0.4 - r) / 0.4 == Qabs (0.4 - r) * (5 # 2)) by field.
    rewrite E. lra. }
  assert (Hs : 0.3 <= (if (n =? 4)%nat then 1
                       else if (3 <=? n)%nat && (n <=? 6)%nat then 0.7
                       else 0.3) <= 1).
  { destruct (n =? 4)%nat; [lra|].
    destruct ((3 <=? n)%nat && (n <=? 6)%nat); lra. }
  set (a := if Qle_bool 0.1 r && _ then _ else _) in *.
  set (s := if (n =? 4)%nat then _ else _) in *.
  assert (E : (a + s) / 2 == (a + s) * (1 # 2)) by field.
  rewrite E. lra.
Qed.


(** X9.  For a contour with at least one point and an image with pixels,
    [calculateConfidence] returns a value between 0.15 and 1. *)
Theorem Generic_calculateConfidence_range (contour : Contour)
    (image_size : Size) :
  contour <> [] ->
  (width image_size * height image_size)%Z <> 0%Z ->
  exists q,
    Generic.calculateConfidence contour image_size = Ret q
    /\ 0.15 <= q /\ q <= 1.
Proof.
  apply Generic_calculateConfidence_bounds.
Qed.

End GenericConfidence.

(** The theorem on the sample card in the 1200 x 800 frame: a quarter of
    the frame, four vertices, confidence 0.8125. *)
Lemma Generic_calculateConfidence_range_witness :
  exists q,
    @Generic.calculateConfidence Ref.ops Samples.card (mkSize 1200 800)
    = Ret q
    /\ 0.15 <= q /\ q <= 1.
Proof.
  apply (@Generic_calculateConfidence_range Ref.ops Samples.card
           (mkSize 1200 800)); discriminate.
Defined.

(** *** The best contour *)

Section GenericBest.
Context `{ops : CvOps}.

Lemma quadrilateral_loop_result (d : Generic.DocumentDetector)
    (contours : list Contour) :
  forall (i : Z) (m : Q) (idx : Z) (b : Contour),
    (Generic.quadrilateral_loop d contours i (m, idx, b) = (m, idx, b)
     /\ forall c, In c contours ->
          length (Generic.approximate d c) = 4%nat ->
          cv_contourArea (Generic.approximate d c) <= m)
    \/ exists (j : nat) (c : Contour),
         nth_error contours j = Some c
         /\ Generic.quadrilateral_loop d contours i (m, idx, b)
            = (cv_contourArea (Generic.approximate d c),
               (i + Z.of_nat j)%Z, Generic.approximate d c)
         /\ length (Generic.approximate d c) = 4%nat
         /\ m < cv_contourArea (Generic.approximate d c)
         /\ (forall c', In c' contours ->
               length (Generic.approximate d c') = 4%nat ->
               cv_contourArea (Generic.approximate d c')
               <= cv_contourArea (Generic.approximate d c))
         /\ (forall j' c', (j' < j)%nat -> nth_error contours j' = Some c' ->
               length (Generic.approximate d c') = 4%nat ->
               cv_contourArea (Generic.approximate d c')
               < cv_contourArea (Generic.approximate d c)).
Proof.
  induction contours as [|c rest IH]; intros i m idx b.
  - left. split; [reflexivity|]. intros c [].
  - cbn [Generic.quadrilateral_loop]. cbv zeta.
    destruct (length (Generic.approximate d c) =? 4)%nat eqn:E4.
    + apply Nat.eqb_eq in E4.
      destruct (Qltb m (cv_contourArea (Generic.approximate d c))) eqn:Elt.
      * apply Qltb_lt in Elt. right.
        destruct (IH (i + 1)%Z (cv_contourArea (Generic.approximate d c)) i
                     (Generic.approximate d c))
          as [[Hr Hall]|(j & c1 & Hj & Hr & Hq & Hlt & Hmax & Hfirst)].
        -- exists 0%nat, c. rewrite Hr. repeat split.
           ++ f_equal. f_equal. lia.
           ++ exact E4.
           ++ exact Elt.
           ++ intros c' [<-|Hin] H4; [lra|apply Hall; assumption].
           ++ intros j' c' Hj'. lia.
        -- exists (S j), c1. rewrite Hr. repeat split.
           ++ exact Hj.
           ++ f_equal. f_equal. lia.
           ++ exact Hq.
           ++ lra.
           ++ intros c' [<-|Hin] H4; [lra|apply Hmax; assumption].
           ++ intros j' c' Hj' Hc' H4. destruct j' as [|j']; simpl in Hc'.
              ** injection Hc' as <-. exact Hlt.
              ** apply (Hfirst j'); [lia|exact Hc'|exact H4].
      * apply Qltb_ge in Elt.
        destruct (IH (i + 1)%Z m idx b)
          as [[Hr Hall]|(j & c1 & Hj & Hr & Hq & Hlt & Hmax & Hfirst)].
        -- left. split; [exact Hr|].
           intros c' [<-|Hin] H4; [exact Elt|apply Hall; assumption].
        -- right. exists (S j), c1. rewrite Hr. repeat split.
           ++ exact Hj.
           ++ f_equal. f_equal. lia.
           ++ exact Hq.
           ++ exact Hlt.
           ++ intros c' [<-|Hin] H4; [lra|apply Hmax; assumption].
           ++ intros j' c' Hj' Hc' H4. destruct j' as [|j']; simpl in Hc'.
              ** injection Hc' as <-. lra.
              ** apply (Hfirst j'); [lia|exact Hc'|exact H4].
    + apply Nat.eqb_neq in E4.
      destruct (IH (i + 1)%Z m idx b)
        as [[Hr Hall]|(j & c1 & Hj & Hr & Hq & Hlt & Hmax & Hfirst)].
      * left. split; [exact Hr|].
        intros c' [<-|Hin] H4; [contradiction|apply Hall; assumption].
      * right. exists (S j), c1. rewrite Hr. repeat split.
        -- exact Hj.
        -- f_equal. f_equal. lia.
        -- exact Hq.
        -- exact Hlt.
        -- intros c' [<-|Hin] H4; [contradiction|apply Hmax; assumption].
        -- intros j' c' Hj' Hc' H4. destruct j' as [|j']; simpl in Hc'.
           ++ injection Hc' as <-. contradiction.
           ++ apply (Hfirst j'); [lia|exact Hc'|exact H4].
Qed.

Lemma largest_loop_result (contours : list Contour) :
  forall (i : Z) (m : Q) (idx : Z),
    (Generic.largest_loop contours i (m, idx) = (m, idx)
     /\ forall c, In c contours -> cv_contourArea c <= m)
    \/ exists (j : nat) (c : Contour),
         nth_error contours j = Some c
         /\ Generic.largest_loop contours i (m, idx)
            = (cv_contourArea c, (i + Z.of_nat j)%Z)
         /\ m < cv_contourArea c
         /\ (forall c', In c' contours ->
               cv_contourArea c' <= cv_contourArea c)
         /\ (forall j' c', (j' < j)%nat -> nth_error contours j' = Some c' ->
               cv_contourArea c' < cv_contourArea c).
Proof.
  induction contours as [|c rest IH]; intros i m idx.
  - left. split; [reflexivity|]. intros c [].
  - cbn [Generic.largest_loop]. cbv zeta. cbn [fst].
    destruct (Qltb m (cv_contourArea c)) eqn:Elt.
    + apply Qltb_lt in Elt. right.
      destruct (IH (i + 1)%Z (cv_contourArea c) i)
        as [[Hr Hall]|(j & c1 & Hj & Hr & Hlt & Hmax & Hfirst)].
      * exists 0%nat, c. rewrite Hr. repeat split.
        -- f_equal. lia.
        -- exact Elt.
        -- intros c' [<-|Hin]; [lra|apply Hall; assumption].
        -- intros j' c' Hj'. lia.
      * exists (S j), c1. rewrite Hr. repeat split.
        -- exact Hj.
        -- f_equal. lia.
        -- lra.
        -- intros c' [<-|Hin]; [lra|apply Hmax; assumption].
        -- intros j' c' Hj' Hc'. destruct j' as [|j']; simpl in Hc'.
           ++ injection Hc' as <-. exact Hlt.
           ++ apply (Hfirst j'); [lia|exact Hc'].
    + apply Qltb_ge in Elt.
      destruct (IH (i + 1)%Z m idx)
        as [[Hr Hall]|(j & c1 & Hj & Hr & Hlt & Hmax & Hfirst)].
      * left. split; [exact Hr|].
        intros c' [<-|Hin]; [exact Elt|apply Hall; assumption].
      * right. exists (S j), c1. rewrite Hr. repeat split.
        -- exact Hj.
        -- f_equal. lia.
        -- exact Hlt.
        -- intros c' [<-|Hin]; [lra|apply Hmax; assumption].
        -- intros j' c' Hj' Hc'. destruct j' as [|j']; simpl in Hc'.
           ++ injection Hc' as <-. lra.
           ++ apply (Hfirst j'); [lia|exact Hc'].
Qed.

Lemma Generic_findBestDocumentContour_approximates
    (d : Generic.DocumentDetector) (contours : list Contour)
    (best_contour best : Contour) :
  Generic.findBestDocumentContour d contours best_contour = (true, best) ->
  exists c, In c contours /\ best = Generic.approximate d c.
Proof.
  unfold Generic.findBestDocumentContour.
  destruct (quadrilateral_loop_result d contours 0 0 (-1) best_contour)
    as [[Hr _]|(j & c & Hj & Hr & _)]; rewrite Hr.
  - cbn [Z.eqb andb Pos.eqb].
    destruct contours as [|c0 rest] eqn:Ec; [discriminate|].
    rewrite <- Ec in *. clear Ec.
    destruct (largest_loop_result contours 0 0 (-1))
      as [[Hr' _]|(j & c & Hj & Hr' & _)]; rewrite Hr'.
    + discriminate.
    + replace (negb (0 + Z.of_nat j =? -1)%Z) with true
        by (symmetry; apply negb_true_iff, Z.eqb_neq; lia).
      rewrite Z.add_0_l, Nat2Z.id, (nth_error_nth _ _ _ Hj).
      intros H. injection H as <-. exists c.
      split; [eapply nth_error_In; exact Hj|reflexivity].
  - replace (0 + Z.of_nat j =? -1)%Z with false
      by (symmetry; apply Z.eqb_neq; lia).
    cbn [andb negb]. intros H. injection H as <-. exists c.
    split; [eapply nth_error_In; exact Hj|reflexivity].
Qed.

(** X7.  The generic [findBestDocumentContour] returns the first of the
    approximated contours that has four vertices and the largest positive
    area among those with four vertices: every earlier approximation with
    four vertices has a strictly smaller area.  When no approximation with
    four vertices has a positive area, it returns the approximation of the
    first contour of largest positive area, every earlier contour having a
    strictly smaller area; when no contour has a positive area either, it
    returns false and leaves the output vector as it was. *)
Theorem Generic_findBestDocumentContour_largest (d : Generic.DocumentDetector)
    (contours : list Contour) (best_contour : Contour) :
  let approx c :=
    cv_approxPolyDP c (Generic.approx_epsilon_factor_ d * cv_arcLength c) in
  let quadrilateral c := length (approx c) = 4%nat in
  (exists (j : nat) c,
     nth_error contours j = Some c
     /\ quadrilateral c /\ 0 < cv_contourArea (approx c)
     /\ (forall c', In c' contours -> quadrilateral c' ->
           cv_contourArea (approx c') <= cv_contourArea (approx c))
     /\ (forall j' c', (j' < j)%nat -> nth_error contours j' = Some c' ->
           quadrilateral c' ->
           cv_contourArea (approx c') < cv_contourArea (approx c))
     /\ Generic.findBestDocumentContour d contours best_contour
        = (true, approx c))
  \/ ((forall c, In c contours -> quadrilateral c ->
         cv_contourArea (approx c) <= 0)
      /\ ((exists (j : nat) c,
             nth_error contours j = Some c /\ 0 < cv_contourArea c
             /\ (forall c', In c' contours ->
                   cv_contourArea c' <= cv_contourArea c)
             /\ (forall j' c', (j' < j)%nat ->
                   nth_error contours j' = Some c' ->
                   cv_contourArea c' < cv_contourArea c)
             /\ Generic.findBestDocumentContour d contours best_contour
                = (true, approx c))
          \/ ((forall c, In c contours -> cv_contourArea c <= 0)
              /\ Generic.findBestDocumentContour d contours best_contour
                 = (false, best_contour)))).
Proof.
  intros approx quadrilateral.
  change approx with (Generic.approximate d) in *.
  unfold Generic.findBestDocumentContour.
  destruct (quadrilateral_loop_result d contours 0 0 (-1) best_contour)
    as [[Hr Hall]|(j & c & Hj & Hr & Hq & Hlt & Hmax & Hfirst)]; rewrite Hr.
  - right. split; [exact Hall|].
    cbn [Z.eqb andb Pos.eqb].
    destruct contours as [|c0 rest] eqn:Ec.
    { right. split; [intros c []|reflexivity]. }
    rewrite <- Ec in *. clear Ec.
    destruct (largest_loop_result contours 0 0 (-1))
      as [[Hr' Hall']|(j & c & Hj & Hr' & Hlt & Hmax & Hfirst)]; rewrite Hr'.
    + right. split; [exact Hall'|]. reflexivity.
    + left. exists j, c.
      split; [exact Hj|]. split; [exact Hlt|]. split; [exact Hmax|].
      split; [exact Hfirst|].
      replace (negb (0 + Z.of_nat j =? -1)%Z) with true
        by (symmetry; apply negb_true_iff, Z.eqb_neq; lia).
      rewrite Z.add_0_l, Nat2Z.id.
      rewrite (nth_error_nth _ _ _ Hj). reflexivity.
  - left. exists j, c.
    split; [exact Hj|]. split; [exact Hq|]. split; [exact Hlt|].
    split; [exact Hmax|]. split; [exact Hfirst|].
    replace (0 + Z.of_nat j =? -1)%Z with false
      by (symmetry; apply Z.eqb_neq; lia).
    reflexivity.
Qed.

End GenericBest.

(** *** Safety of the generic pipeline *)

Lemma in_unit_interval_closed (x w : Z) :
  (0 <= x <= w)%Z -> (0 < w)%Z -> unit_interval (inject_Z x / inject_Z w).
Proof.
  intros [H0 Hw] Hpos.
  assert (Hp : 0 < inject_Z w) by (apply inject_Z_pos; lia).
  assert (Hx : 0 <= inject_Z x).
  { change 0 with (inject_Z 0). rewrite <- Zle_Qle. exact H0. }
  assert (Hxw : inject_Z x <= inject_Z w) by (rewrite <- Zle_Qle; lia).
  split.
  - apply Qle_shift_div_l; [exact Hp|]. lra.
  - apply Qle_shift_div_r; [exact Hp|]. lra.
Qed.

Section GenericSafety.
Context `{sound : CvSound} {rect : CvSoundRect}.

Lemma Generic_extractDocumentBounds_in_range (contour : Contour)
    (image_size : Size) :
  (forall p, In p contour -> inside image_size p) ->
  exists answer,
    Generic.extractDocumentBounds contour image_size = Ret answer
    /\ (answer = None <-> (length contour < 4)%nat)
    /\ forall b, answer = Some b ->
         bounds_in_range b /\ 0.15 <= confidence b.
Proof.
  intros Hin. unfold Generic.extractDocumentBounds.
  destruct (length contour <? 4)%nat eqn:E4.
  { apply Nat.ltb_lt in E4. exists None.
    split; [reflexivity|]. split; [tauto|discriminate]. }
  apply Nat.ltb_ge in E4.
  assert (Hne : contour <> []) by (intros ->; simpl in E4; lia).
  assert (Hpos : (0 < width image_size)%Z /\ (0 < height image_size)%Z).
  { destruct contour as [|p rest]; [contradiction|].
    destruct (Hin p (or_introl eq_refl)) as [? ?]. lia. }
  destruct Hpos as [Hw Hh].
  assert (HW : ~ inject_Z (width image_size) == 0)
    by (apply inject_Z_nonzero; lia).
  assert (HH : ~ inject_Z (height image_size) == 0)
    by (apply inject_Z_nonzero; lia).
  assert (Harea : (width image_size * height image_size)%Z <> 0%Z) by nia.
  destruct (Generic_calculateConfidence_bounds contour image_size Hne Harea)
    as (q & Hq & Hq0 & Hq1).
  cbv zeta.
  destruct (length contour =? 4)%nat eqn:E.
  - apply Nat.eqb_eq in E. rewrite bind_Ret.
    assert (Hat : forall i, (i < 4)%nat ->
              inside image_size
                (nth i (Generic.sortCornerPoints contour) origin)).
    { intros i Hi. apply Hin.
      apply (Permutation_in _ (Generic_sortCornerPoints_perm contour)).
      apply nth_In.
      rewrite (Permutation_length
                 (Generic_sortCornerPoints_perm contour)). lia. }
    repeat (rewrite fdiv_Ret by (first [exact HW|exact HH]);
            rewrite ?bind_Ret).
    rewrite Hq, bind_Ret.
    eexists. split; [reflexivity|]. split.
    { split; [discriminate|lia]. }
    intros b Hb. inversion Hb; subst. unfold bounds_in_range. simpl.
    pose proof (Hat 0%nat ltac:(lia)) as [? ?].
    pose proof (Hat 1%nat ltac:(lia)) as [? ?].
    pose proof (Hat 2%nat ltac:(lia)) as [? ?].
    pose proof (Hat 3%nat ltac:(lia)) as [? ?].
    repeat split; try (apply in_unit_interval; assumption); lra.
  - rewrite bind_Ret.
    destruct (boundingRect_inside contour image_size Hne Hin)
      as (Hx0 & Hrw & Hx1 & Hy0 & Hrh & Hy1).
    cbn [px py].
    repeat (rewrite fdiv_Ret by (first [exact HW|exact HH]);
            rewrite ?bind_Ret).
    rewrite Hq, bind_Ret.
    eexists. split; [reflexivity|]. split.
    { split; [discriminate|lia]. }
    intros b Hb. inversion Hb; subst. unfold bounds_in_range. simpl.
    repeat split;
      try (apply in_unit_interval_closed; [lia|assumption]); lra.
Qed.

Lemma Generic_preprocess_size (d : Generic.DocumentDetector)
    (input : Mat Pixels) :
  exists pre,
    Generic.preprocessImage d input = (true, pre)
    /\ mat_size pre = mat_size input.
Proof.
  unfold Generic.preprocessImage. eexists. split; [reflexivity|].
  destruct (channels input =? 3)%Z; [reflexivity|].
  destruct (channels input =? 4)%Z; reflexivity.
Qed.

Lemma Generic_findContours_subset (d : Generic.DocumentDetector)
    (edge_image : Mat Pixels) (c : Contour) :
  In c (snd (Generic.findContours d edge_image)) ->
  In c (cv_findContours edge_image).
Proof.
  unfold Generic.findContours.
  destruct (cv_findContours edge_image) as [|c0 l]; [simpl; tauto|].
  cbn [snd]. intros H. apply filter_In in H. exact (proj1 H).
Qed.

Lemma Generic_detectDocument_safe (d : Generic.DocumentDetector)
    (input_image : Mat Pixels) :
  exists answer,
    Generic.detectDocument d input_image = Ret answer
    /\ forall b, answer = Some b ->
         bounds_in_range b /\ 0.15 <= confidence b.
Proof.
  unfold Generic.detectDocument.
  destruct (mat_empty input_image).
  { exists None. split; [reflexivity|discriminate]. }
  destruct (Generic_preprocess_size d input_image) as (pre & Hpre & Hsize).
  rewrite Hpre. cbn [negb].
  destruct (Generic.findContours d pre) as [ok contours] eqn:Hfind.
  destruct ok; cbn [negb].
  2:{ exists None. split; [reflexivity|discriminate]. }
  assert (Hcont : forall c p, In c contours -> In p c ->
                    inside (mat_size input_image) p).
  { intros c p Hc Hp. rewrite <- Hsize.
    apply (findContours_inside pre c p); [|exact Hp].
    apply (Generic_findContours_subset d pre c).
    rewrite Hfind. exact Hc. }
  destruct (Generic.findBestDocumentContour d contours []) as [ok best]
    eqn:Hbest.
  destruct ok; cbn [negb].
  2:{ exists None. split; [reflexivity|discriminate]. }
  assert (Hin : forall p, In p best -> inside (mat_size input_image) p).
  { destruct (Generic_findBestDocumentContour_approximates _ _ _ _ Hbest)
      as (c & Hc & ->).
    intros p Hp. apply (Hcont c p Hc).
    apply (approxPolyDP_subset _ _ _ Hp). }
  destruct (Generic_extractDocumentBounds_in_range best _ Hin)
    as (answer & Hans & _ & Hrange).
  exists answer. split; assumption.
Qed.

(** X10.  With sound primitives the generic [detectDocument] evaluates no
    division with a zero divisor, on any image.  Whenever it answers true,
    the eight corner coordinates lie in [0, 1] and the confidence lies
    between 0.15 and 1.  (Whether a primitive rejects the image is not part
    of the statement.) *)
Theorem Generic_detectDocument_in_range (d : Generic.DocumentDetector)
    (input_image : Mat Pixels) :
  Generic.detectDocument d input_image <> DivisionByZero
  /\ forall b,
       Generic.detectDocument d input_image = Ret (Some b) ->
       bounds_in_range b /\ 0.15 <= confidence b.
Proof.
  destruct (Generic_detectDocument_safe d input_image)
    as (answer & E & Hrange).
  rewrite E. split; [discriminate|].
  intros b Hb. apply Hrange. congruence.
Qed.

End GenericSafety.

Lemma Ref_sound_rect : @CvSoundRect Ref.ops.
Proof.
  constructor. intros c s Hne Hin.
  destruct (boundingRect_extent c s Hne Hin)
    as (Hx0 & Hw & Hx1 & Hy0 & Hh & Hy1).
  cbv zeta in Hx0, Hw, Hx1, Hy0, Hh, Hy1.
  change (@cv_boundingRect Ref.ops c) with (Ref.boundingRect c).
  lia.
Qed.

(** The theorem on the 1200 x 800 sample: the card is found, with
    confidence 0.8125. *)
Lemma Generic_detectDocument_in_range_witness :
  exists b,
    @Generic.detectDocument Ref.ops Generic.DocumentDetector_new
      Samples.small_photo = Ret (Some b)
    /\ bounds_in_range b /\ 0.15 <= confidence b.
Proof.
  assert (E : exists b,
            @Generic.detectDocument Ref.ops Generic.DocumentDetector_new
              Samples.small_photo = Ret (Some b)).
  { eexists. vm_compute. reflexivity. }
  destruct E as (b & E). exists b. split; [exact E|].
  exact (proj2 (@Generic_detectDocument_in_range Ref.ops Ref_sound
                  Ref_sound_rect Generic.DocumentDetector_new
                  Samples.small_photo) b E).
Defined.

(** *** Configuration *)

Section GenericHonours.
Context `{ops : CvOps}.



End GenericHonours.

(** *** Contours of more than four points *)

Section GenericBox.
Context `{ops : CvOps} {rect : @CvSoundRect ops}.

(** X20.  The generic [extractDocumentBounds] reports a contour of more
    than four points of the image as its bounding box: it returns true, and
    the corners are those of the upright rectangle that [cv::boundingRect]
    gives, normalised by the image size, in the order top-left, top-right,
    bottom-right, bottom-left. *)
Theorem Generic_extractDocumentBounds_box (contour : Contour)
    (image_size : Size) :
  (4 < length contour)%nat ->
  (forall p, In p contour -> inside image_size p) ->
  exists b,
    Generic.extractDocumentBounds contour image_size = Ret (Some b)
    /\ x1 b = x4 b /\ x2 b = x3 b /\ y1 b = y2 b /\ y3 b = y4 b
    /\ x1 b <= x2 b /\ y1 b <= y3 b
    /\ x1 b * inject_Z (width image_size)
       == inject_Z (rx (cv_boundingRect contour))
    /\ y1 b * inject_Z (height image_size)
       == inject_Z (ry (cv_boundingRect contour))
    /\ (x2 b - x1 b) * inject_Z (width image_size)
       == inject_Z (rwidth (cv_boundingRect contour))
    /\ (y3 b - y1 b) * inject_Z (height image_size)
       == inject_Z (rheight (cv_boundingRect contour)).
Proof.
  intros Hlen Hin. unfold Generic.extractDocumentBounds.
  destruct (length contour <? 4)%nat eqn:E4;
    [apply Nat.ltb_lt in E4; lia|].
  destruct (length contour =? 4)%nat eqn:E;
    [apply Nat.eqb_eq in E; lia|].
  assert (Hne : contour <> []) by (intros ->; simpl in Hlen; lia).
  assert (Hpos : (0 < width image_size)%Z /\ (0 < height image_size)%Z).
  { destruct contour as [|p rest]; [contradiction|].
    destruct (Hin p (or_introl eq_refl)) as [? ?]. lia. }
  destruct Hpos as [Hw Hh].
  pose proof (inject_Z_pos _ Hw) as HWp.
  pose proof (inject_Z_pos _ Hh) as HHp.
  assert (HW : ~ inject_Z (width image_size) == 0) by lra.
  assert (HH : ~ inject_Z (height image_size) == 0) by lra.
  assert (Harea : (width image_size * height image_size)%Z <> 0%Z) by nia.
  destruct (Generic_calculateConfidence_bounds contour image_size Hne Harea)
    as (q & Hq & _).
  destruct (boundingRect_inside contour image_size Hne Hin)
    as (Hx0 & Hrw & Hx1 & Hy0 & Hrh & Hy1).
  cbv zeta. rewrite bind_Ret. cbn [px py].
  repeat (rewrite fdiv_Ret by (first [exact HW|exact HH]);
          rewrite ?bind_Ret).
  rewrite Hq, bind_Ret.
  eexists. split; [reflexivity|]. cbn [x1 x2 x3 x4 y1 y2 y3 y4].
  set (r := cv_boundingRect contour) in *.
  assert (Hrw' : 0 <= inject_Z (rwidth r)).
  { change 0 with (inject_Z 0). rewrite <- Zle_Qle. exact Hrw. }
  assert (Hrh' : 0 <= inject_Z (rheight r)).
  { change 0 with (inject_Z 0). rewrite <- Zle_Qle. exact Hrh. }
  repeat split.
  - rewrite inject_Z_plus.
    apply Qle_shift_div_l; [exact HWp|].
    assert (E1 : inject_Z (rx r) / inject_Z (width image_size)
                 * inject_Z (width image_size) == inject_Z (rx r))
      by (field; exact HW).
    rewrite E1. lra.
  - rewrite inject_Z_plus.
    apply Qle_shift_div_l; [exact HHp|].
    assert (E1 : inject_Z (ry r) / inject_Z (height image_size)
                 * inject_Z (height image_size) == inject_Z (ry r))
      by (field; exact HH).
    rewrite E1. lra.
  - field. exact HW.
  - field. exact HH.
  - rewrite inject_Z_plus. field. exact HW.
  - rewrite inject_Z_plus. field. exact HH.
Qed.

End GenericBox.

(** The theorem on the five-point sample in a 200 x 100 frame. *)
Lemma Generic_extractDocumentBounds_box_witness :
  exists b,
    @Generic.extractDocumentBounds Ref.ops Samples.pentagon (mkSize 200 100)
    = Ret (Some b)
    /\ x1 b = x4 b /\ x2 b = x3 b /\ y1 b = y2 b /\ y3 b = y4 b
    /\ x1 b <= x2 b /\ y1 b <= y3 b.
Proof.
  destruct (@Generic_extractDocumentBounds_box Ref.ops Ref_sound_rect
              Samples.pentagon (mkSize 200 100))
    as (b & Hb & H1 & H2 & H3 & H4 & H5 & H6 & _).
  - simpl. lia.
  - intros p [<-|[<-|[<-|[<-|[<-|[]]]]]]; unfold inside; simpl; lia.
  - exists b. repeat split; assumption.
Defined.

(** ** The C interface *)

(** *** Reading the configuration back *)

Section GetConfig.
Variable stod : string -> option Q.

Lemma id_reader_set_config_stores (ctx : Api.id_reader_context)
    (key value : string) :
  exists d,
    snd (Api.id_reader_set_config stod (Some ctx) (Some key) (Some value))
    = Some (Api.mkContext d (<[key := value]> (Api.config ctx))).
Proof.
  unfold Api.id_reader_set_config, Api.with_detector.
  cbn [Api.config Api.detector].
  repeat match goal with
         | |- context [if ?c then _ else _] => destruct c
         end;
    try destruct (stod value); eexists; reflexivity.
Qed.

(** X11.  After [id_reader_set_config(key, value)], whatever it returned,
    [id_reader_get_config] copies [value] into a buffer that has room for
    it and its terminator, and returns invalid input without touching the
    buffer otherwise; the other keys read as before the call. *)
Theorem id_reader_get_config_after_set (ctx : Api.id_reader_context)
    (key value buffer : string) (value_size : N) :
  let after :=
    snd (Api.id_reader_set_config stod (Some ctx) (Some key) (Some value)) in
  Api.id_reader_get_config after (Some key) (Some buffer) value_size
  = (if (N.of_nat (String.length value) <? value_size)%N
     then (Api.ID_READER_SUCCESS, Some value)
     else (Api.ID_READER_ERROR_INVALID_INPUT, Some buffer))
  /\ forall other,
       other <> key ->
       Api.id_reader_get_config after (Some other) (Some buffer) value_size
       = Api.id_reader_get_config (Some ctx) (Some other) (Some buffer)
           value_size.
Proof.
  intros after. subst after.
  destruct (id_reader_set_config_stores ctx key value) as (d & ->).
  unfold Api.id_reader_get_config. cbn [Api.config]. split.
  - rewrite lookup_insert_eq.
    destruct (N.ltb_spec (N.of_nat (String.length value)) value_size) as [H|H].
    + replace (value_size =? 0)%N with false
        by (symmetry; apply N.eqb_neq; lia).
      replace (value_size <=? N.of_nat (String.length value))%N with false
        by (symmetry; apply N.leb_gt; exact H).
      reflexivity.
    + destruct (value_size =? 0)%N; [reflexivity|].
      replace (value_size <=? N.of_nat (String.length value))%N with true
        by (symmetry; apply N.leb_le; exact H).
      reflexivity.
  - intros other Hne. rewrite lookup_insert_ne by congruence. reflexivity.
Qed.

(** X12.  A key that is none of the four detector parameters is recorded
    with success, whatever the value.  A detector parameter whose value is
    not a number is answered with processing failed; the detector keeps its
    parameters, but the text is recorded in the configuration map. *)
Theorem id_reader_set_config_rejected (ctx : Api.id_reader_context)
    (key value : string) :
  detector_key key = false \/ stod value = None ->
  Api.id_reader_set_config stod (Some ctx) (Some key) (Some value)
  = (if detector_key key then Api.ID_READER_ERROR_PROCESSING_FAILED
     else Api.ID_READER_SUCCESS,
     Some (Api.mkContext (Api.detector ctx)
             (<[key := value]> (Api.config ctx)))).
Proof.
  unfold detector_key, Api.id_reader_set_config, Api.with_detector.
  cbn [Api.config Api.detector].
  intros [H|H].
  - rewrite H. repeat (apply orb_false_iff in H; destruct H as [H ?]).
    rewrite H, H0, H1, H2. reflexivity.
  - rewrite H.
    destruct (String.eqb key "canny_threshold1"); [reflexivity|].
    destruct (String.eqb key "canny_threshold2"); [reflexivity|].
    destruct (String.eqb key "min_contour_area"); [reflexivity|].
    destruct (String.eqb key "max_contour_area"); reflexivity.
Qed.

Lemma id_reader_set_config_invariant (ctx : Api.id_reader_context)
    (key value : string) :
  partner_at_default (Api.detector ctx) ->
  exists ctx',
    snd (Api.id_reader_set_config stod (Some ctx) (Some key) (Some value))
    = Some ctx'
    /\ partner_at_default (Api.detector ctx').
Proof.
  intros (Hc & Ha & He).
  unfold Api.id_reader_set_config, Api.with_detector.
  cbn [Api.config Api.detector].
  repeat match goal with
         | |- context [if ?c then _ else _] => destruct c
         end;
    try destruct (stod value); eexists; (split; [reflexivity|]);
    unfold partner_at_default; cbn; tauto.
Qed.

(** X13.  Through [id_reader_set_config] the two Canny thresholds cannot
    both be moved from their defaults, nor can the two area bounds: after
    [id_reader_init] and any sequence of configuration calls, the first
    threshold is 50 or the second is 150, the minimum area is 10000 or the
    maximum is 500000, and the epsilon factor is 0.02. *)
Theorem configured_detector_partner_at_default
    (calls : list (string * string)) :
  exists d,
    configured_detector stod calls = Some d /\ partner_at_default d.
Proof.
  unfold configured_detector. cbn [Api.id_reader_init].
  set (ctx0 := Api.mkContext Generic.DocumentDetector_new ∅).
  assert (H0 : partner_at_default (Api.detector ctx0)).
  { unfold partner_at_default. cbn. tauto. }
  revert H0. generalize ctx0. clear ctx0.
  induction calls as [|[key value] calls IH]; intros ctx Hctx.
  - exists (Api.detector ctx). split; [reflexivity|exact Hctx].
  - cbn [Api.configure fold_left fst snd].
    destruct (id_reader_set_config_invariant ctx key value Hctx)
      as (ctx' & -> & Hctx').
    apply (IH ctx' Hctx').
Qed.

End GetConfig.

(** The theorem on a threshold that is not a number. *)
Lemma id_reader_set_config_rejected_witness :
  Api.id_reader_set_config Api.stod_decimal (Some Samples.fresh_context)
    (Some "canny_threshold1"%string) (Some "high"%string)
  = (Api.ID_READER_ERROR_PROCESSING_FAILED,
     Some (Api.mkContext Generic.DocumentDetector_new
             (<["canny_threshold1"%string := "high"%string]> ∅))).
Proof.
  apply (id_reader_set_config_rejected Api.stod_decimal Samples.fresh_context
           "canny_threshold1" "high").
  right. reflexivity.
Defined.

(** *** The name tables *)

Ltac table_cases :=
  repeat match goal with
         | |- context [(?x =? ?y)%Z] =>
             let E := fresh "E" in
             destruct (Z.eqb_spec x y) as [E|E]; [try rewrite E in *|]
         end.

(** X14.  Each of the three name functions gives different texts for
    different named values, and its fallback text exactly for the integers
    that name nothing (for a document type or a country also for the value
    0, "unknown"). *)
Theorem id_reader_error_string_injective (a b : Z) :
  (Api.id_reader_error_string a = Api.id_reader_error_string b
   <-> a = b \/ (~ (-6 <= a <= 0)%Z /\ ~ (-6 <= b <= 0)%Z))
  /\ (Api.id_reader_document_type_string a
      = Api.id_reader_document_type_string b
      <-> a = b \/ (~ (1 <= a <= 4)%Z /\ ~ (1 <= b <= 4)%Z))
  /\ (Api.id_reader_country_string a = Api.id_reader_country_string b
      <-> a = b \/ (~ (1 <= a <= 6)%Z /\ ~ (1 <= b <= 6)%Z)).
Proof.
  unfold Api.id_reader_error_string, Api.id_reader_document_type_string,
    Api.id_reader_country_string, Api.error_value,
    Api.ID_READER_DOCUMENT_DRIVERS_LICENSE, Api.ID_READER_DOCUMENT_PASSPORT,
    Api.ID_READER_DOCUMENT_ID_CARD, Api.ID_READER_DOCUMENT_CREDIT_CARD,
    Api.ID_READER_COUNTRY_US, Api.ID_READER_COUNTRY_CA,
    Api.ID_READER_COUNTRY_GB, Api.ID_READER_COUNTRY_DE,
    Api.ID_READER_COUNTRY_FR, Api.ID_READER_COUNTRY_AU.
  split; [|split].
  all: table_cases; subst;
    (split; [intros H; first [discriminate H | left; reflexivity | right; lia]
            |intros [H|[H1 H2]]; first [reflexivity | lia | discriminate H]]).
Qed.

(** *** Processing an image *)

Section ProcessImage.
Context `{ops : CvOps} {api : @Api.CvApiOps ops}.
Context {sound : @CvSound ops} {rect : @CvSoundRect ops}.

Lemma convert_input_returns (image : Api.id_reader_image_t Api.Buffer)
    (buffer : Api.Buffer) (converted : outcome (Mat Pixels)) :
  Api.convert_input image buffer = Some converted ->
  converted = CvException \/ exists m, converted = Ret m.
Proof.
  unfold Api.convert_input, Api.cv_Mat, Api.cvtColor.
  intros H.
  repeat match type of H with
         | (if ?c then _ else _) = _ => destruct c
         end;
    inversion H; subst; clear H;
    destruct (Api.cv_Mat_data _ _ _ _ _); cbn; eauto;
    destruct (Api.cv_cvtColor _ _); cbn; eauto.
Qed.

(** X15.  With sound primitives [id_reader_process_image] returns an error
    code on every input, null pointers included.  When the code is success,
    the result it stored has corner coordinates in [0, 1], an overall
    confidence equal to that of the bounds and between 0.15 and 1, unknown
    document type and country, and no fields.  With every other code the
    caller's result pointer is left as it was.  The codes for a failed
    allocation and a failed initialisation are never returned. *)
Theorem id_reader_process_image_result
    (context : option Api.id_reader_context)
    (image : option (Api.id_reader_image_t Api.Buffer))
    (result : option (option Api.id_reader_result_t)) :
  exists error slot,
    Api.id_reader_process_image context image result = Ret (error, slot)
    /\ (error = Api.ID_READER_SUCCESS ->
        exists r,
          slot = Some (Some r)
          /\ bounds_in_range (Api.bounds r)
          /\ 0.15 <= Api.overall_confidence r
          /\ Api.overall_confidence r = confidence (Api.bounds r)
          /\ Api.document_type r = Api.ID_READER_DOCUMENT_UNKNOWN
          /\ Api.country r = Api.ID_READER_COUNTRY_UNKNOWN
          /\ Api.fields r = None /\ Api.field_count r = 0%N)
    /\ (error <> Api.ID_READER_SUCCESS -> slot = result)
    /\ error <> Api.ID_READER_ERROR_MEMORY_ALLOCATION
    /\ error <> Api.ID_READER_ERROR_INITIALIZATION_FAILED.
Proof.
  assert (Hfail : forall e : Api.id_reader_error_t,
            e <> Api.ID_READER_SUCCESS ->
            e <> Api.ID_READER_ERROR_MEMORY_ALLOCATION ->
            e <> Api.ID_READER_ERROR_INITIALIZATION_FAILED ->
            exists error slot,
              Ret (e, result) = Ret (error, slot)
              /\ (error = Api.ID_READER_SUCCESS ->
                  exists r,
                    slot = Some (Some r)
                    /\ bounds_in_range (Api.bounds r)
                    /\ 0.15 <= Api.overall_confidence r
                    /\ Api.overall_confidence r = confidence (Api.bounds r)
                    /\ Api.document_type r = Api.ID_READER_DOCUMENT_UNKNOWN
                    /\ Api.country r = Api.ID_READER_COUNTRY_UNKNOWN
                    /\ Api.fields r = None /\ Api.field_count r = 0%N)
              /\ (error <> Api.ID_READER_SUCCESS -> slot = result)
              /\ error <> Api.ID_READER_ERROR_MEMORY_ALLOCATION
              /\ error <> Api.ID_READER_ERROR_INITIALIZATION_FAILED).
  { intros e H1 H2 H3. exists e, result. split; [reflexivity|].
    split; [intros ->; contradiction|]. tauto. }
  unfold Api.id_reader_process_image.
  destruct context as [ctx|]; [|apply Hfail; discriminate].
  destruct image as [img|]; [|apply Hfail; discriminate].
  destruct result as [slot0|]; [|apply Hfail; discriminate].
  destruct (Api.image_data img) as [buffer|]; [|apply Hfail; discriminate].
  destruct (Api.convert_input img buffer) as [converted|] eqn:Hconv;
    [|apply Hfail; discriminate].
  destruct (convert_input_returns _ _ _ Hconv) as [->|(m & ->)].
  { cbn. apply Hfail; discriminate. }
  rewrite bind_Ret.
  destruct (Generic_detectDocument_safe (Api.detector ctx) m)
    as (answer & -> & Hrange).
  rewrite bind_Ret.
  destruct answer as [b|]; [|cbn; apply Hfail; discriminate].
  destruct (Hrange b eq_refl) as [Hb Hc].
  cbn. eexists _, _. split; [reflexivity|].
  split; [|split; [intros H; contradiction|split; discriminate]].
  intros _. eexists. split; [reflexivity|]. cbn.
  split; [exact Hb|]. split; [exact Hc|]. repeat split.
Qed.

End ProcessImage.

(** The theorem on the 1200 x 800 sample, handed over as BGR pixels. *)
Lemma id_reader_process_image_result_witness :
  exists r,
    @Api.id_reader_process_image Ref.ops Ref.api_ops
      (Some Samples.fresh_context) (Some Samples.api_image) (Some None)
    = Ret (Api.ID_READER_SUCCESS, Some (Some r))
    /\ bounds_in_range (Api.bounds r)
    /\ 0.15 <= Api.overall_confidence r.
Proof.
  destruct (@id_reader_process_image_result Ref.ops Ref.api_ops Ref_sound
              Ref_sound_rect (Some Samples.fresh_context)
              (Some Samples.api_image) (Some None))
    as (error & slot & Hrun & Hok & _).
  assert (E : exists r,
            @Api.id_reader_process_image Ref.ops Ref.api_ops
              (Some Samples.fresh_context) (Some Samples.api_image)
              (Some None)
            = Ret (Api.ID_READER_SUCCESS, Some (Some r))).
  { eexists. vm_compute. reflexivity. }
  destruct E as (r & E). rewrite E in Hrun. injection Hrun as <- <-.
  destruct (Hok eq_refl) as (r' & Hr & Hb & Hc & _).
  injection Hr as <-.
  exists r. split; [exact E|]. split; [exact Hb|exact Hc].
Defined.

(** ** The test framework *)

Lemma Qmin_le (x y : Q) : Qmin x y <= x /\ Qmin x y <= y.
Proof.
  unfold Qmin. destruct (Qltb y x) eqn:E.
  - apply Qltb_lt in E. lra.
  - apply Qltb_ge in E. lra.
Qed.

Lemma Qmax_ge (x y : Q) : x <= Qmax x y /\ y <= Qmax x y.
Proof.
  unfold Qmax. destruct (Qltb x y) eqn:E.
  - apply Qltb_lt in E. lra.
  - apply Qltb_ge in E. lra.
Qed.

Lemma successes_app (l l' : list Harness.TestResult) :
  successes (l ++ l') = successes l ++ successes l'.
Proof. apply List.filter_app. Qed.

Lemma accumulate_invariant (stats0 : Harness.TestStatistics)
    (results : list Harness.TestResult) :
  Harness.successful_detections stats0 = 0%Z ->
  Harness.failed_detections stats0 = 0%Z ->
  exists stats tc tt,
    fold_left Harness.accumulate results (stats0, 0, 0) = (stats, tc, tt)
    /\ Harness.total_images stats = Harness.total_images stats0
    /\ Harness.average_confidence stats = Harness.average_confidence stats0
    /\ Harness.successful_detections stats
       = Z.of_nat (length (successes results))
    /\ Harness.failed_detections stats
       = (Z.of_nat (length results) - Z.of_nat (length (successes results)))%Z
    /\ (successes results = [] ->
        Harness.min_confidence stats = Harness.min_confidence stats0
        /\ Harness.max_confidence stats = Harness.max_confidence stats0)
    /\ (forall r, In r (successes results) ->
          Harness.min_confidence stats <= Harness.confidence r
          /\ Harness.confidence r <= Harness.max_confidence stats)
    /\ (forall r, In r results ->
          Harness.min_processing_time stats <= Harness.processing_time_ms r
          /\ Harness.processing_time_ms r
             <= Harness.max_processing_time stats)
    /\ Harness.min_confidence stats <= Harness.min_confidence stats0
    /\ Harness.max_confidence stats0 <= Harness.max_confidence stats
    /\ Harness.min_processing_time stats <= Harness.min_processing_time stats0
    /\ Harness.max_processing_time stats0
       <= Harness.max_processing_time stats.
Proof.
  intros Hs0 Hf0.
  induction results as [|r results IH] using rev_ind.
  - exists stats0, 0, 0. cbn. rewrite Hs0, Hf0.
    repeat split; try lra; try reflexivity; try (intros ? []).
  - destruct IH as (stats & tc & tt & Hfold & Htot & Havg & Hsucc & Hfail
                    & Hnone & Hconf & Htime & Hmc & HMc & Hmt & HMt).
    rewrite fold_left_app, Hfold. cbn [fold_left].
    assert (Hsr : successes (results ++ [r])
                  = if Harness.detection_success r
                    then successes results ++ [r] else successes results).
    { rewrite successes_app. unfold successes at 2. cbn [List.filter].
      destruct (Harness.detection_success r); [reflexivity|apply app_nil_r]. }
    rewrite Hsr. clear Hsr.
    assert (Hlen : Z.of_nat (length (results ++ [r]))
                   = (Z.of_nat (length results) + 1)%Z).
    { rewrite length_app, Nat2Z.inj_add. reflexivity. }
    rewrite Hlen. clear Hlen.
    assert (Hlen : Z.of_nat (length (successes results ++ [r]))
                   = (Z.of_nat (length (successes results)) + 1)%Z).
    { rewrite length_app, Nat2Z.inj_add. reflexivity. }
    pose proof (Qmin_le (Harness.min_processing_time stats)
                  (Harness.processing_time_ms r)) as [Hm1 Hm2].
    pose proof (Qmax_ge (Harness.max_processing_time stats)
                  (Harness.processing_time_ms r)) as [HM1 HM2].
    pose proof (Qmin_le (Harness.min_confidence stats)
                  (Harness.confidence r)) as [Hq1 Hq2].
    pose proof (Qmax_ge (Harness.max_confidence stats)
                  (Harness.confidence r)) as [HQ1 HQ2].
    unfold Harness.accumulate.
    destruct (Harness.detection_success r) eqn:Er.
    + rewrite Hlen.
      set (mc := Qmin (Harness.min_confidence stats) _) in *.
      set (Mc := Qmax (Harness.max_confidence stats) _) in *.
      set (mt := Qmin (Harness.min_processing_time stats) _) in *.
      set (Mt := Qmax (Harness.max_processing_time stats) _) in *.
      eexists _, _, _. split; [reflexivity|].
      cbn [Harness.total_images Harness.average_confidence
           Harness.successful_detections Harness.failed_detections
           Harness.min_confidence Harness.max_confidence
           Harness.min_processing_time Harness.max_processing_time].
      split; [exact Htot|]. split; [exact Havg|].
      split; [lia|]. split; [lia|].
      split.
      { intros H. apply app_eq_nil in H. destruct H as [_ H].
        discriminate H. }
      split.
      { intros x H. apply in_app_or in H. destruct H as [H|[<-|[]]]; [|lra].
        destruct (Hconf _ H). lra. }
      split.
      { intros x H. apply in_app_or in H. destruct H as [H|[<-|[]]]; [|lra].
        destruct (Htime _ H). lra. }
      repeat split; lra.
    + set (mt := Qmin (Harness.min_processing_time stats) _) in *.
      set (Mt := Qmax (Harness.max_processing_time stats) _) in *.
      eexists _, _, _. split; [reflexivity|].
      cbn [Harness.total_images Harness.average_confidence
           Harness.successful_detections Harness.failed_detections
           Harness.min_confidence Harness.max_confidence
           Harness.min_processing_time Harness.max_processing_time].
      split; [exact Htot|]. split; [exact Havg|].
      split; [lia|]. split; [lia|].
      split; [exact Hnone|]. split; [exact Hconf|].
      split.
      { intros x H. apply in_app_or in H. destruct H as [H|[<-|[]]]; [|lra].
        destruct (Htime _ H). lra. }
      repeat split; lra.
Qed.

Lemma binary32_count (n : Z) : (0 < n)%Z -> ~ binary32 (inject_Z n) == 0.
Proof.
  intros Hn.
  pose proof (round_to_positive 24 (inject_Z n) ltac:(lia)
                (inject_Z_pos n Hn)) as H.
  unfold binary32. lra.
Qed.

Lemma calculateStatistics_result (results : list Harness.TestResult) :
  exists stats,
    Harness.calculateStatistics results = Ret stats
    /\ Harness.total_images stats = Z.of_nat (length results)
    /\ Harness.successful_detections stats
       = Z.of_nat (length (successes results))
    /\ Harness.failed_detections stats
       = (Z.of_nat (length results) - Z.of_nat (length (successes results)))%Z
    /\ (successes results = [] ->
        Harness.average_confidence stats = 0
        /\ Harness.min_confidence stats = 1
        /\ Harness.max_confidence stats = 0)
    /\ (forall r, In r (successes results) ->
          Harness.min_confidence stats <= Harness.confidence r
          /\ Harness.confidence r <= Harness.max_confidence stats)
    /\ (forall r, In r results ->
          Harness.min_processing_time stats <= Harness.processing_time_ms r
          /\ Harness.processing_time_ms r
             <= Harness.max_processing_time stats)
    /\ Harness.min_confidence stats <= 1
    /\ 0 <= Harness.max_confidence stats
    /\ Harness.min_processing_time stats <= 999999
    /\ 0 <= Harness.max_processing_time stats.
Proof.
  unfold Harness.calculateStatistics.
  cbn [Harness.total_images].
  destruct (Z.eqb_spec (Z.of_nat (length results)) 0) as [E|E].
  { assert (results = []) by (destruct results; [reflexivity|discriminate E]).
    subst results. eexists. split; [reflexivity|]. cbn.
    repeat split; try reflexivity; try contradiction; try (intros ? []);
      lra. }
  set (stats0 := Harness.mkStatistics _ _ _ _ _ _ _ _ _).
  destruct (accumulate_invariant stats0 results eq_refl eq_refl)
    as (stats & tc & tt & Hfold & Htot & Havg & Hsucc & Hfail
        & Hnone & Hconf & Htime & Hmc & HMc & Hmt & HMt).
  rewrite Hfold.
  assert (Htot' : Harness.total_images stats = Z.of_nat (length results))
    by (rewrite Htot; reflexivity).
  assert (Hn0 : ~ binary32 (inject_Z (Harness.total_images stats)) == 0).
  { apply binary32_count. rewrite Htot'. lia. }
  subst stats0.
  cbn [Harness.min_confidence Harness.max_confidence
       Harness.min_processing_time Harness.max_processing_time
       Harness.TestStatistics_new] in Hmc, HMc, Hmt, HMt.
  destruct (Z.ltb_spec 0 (Harness.successful_detections stats)) as [Hpos|Hpos].
  - assert (Hk0 : ~ binary32 (inject_Z (Harness.successful_detections stats))
                    == 0)
      by (apply binary32_count; exact Hpos).
    cbv beta iota.
    rewrite (fdivf_Ret _ _ Hk0), bind_Ret.
    rewrite fdivf_Ret by exact Hn0. rewrite bind_Ret.
    eexists. split; [reflexivity|].
    cbn [Harness.total_images Harness.average_confidence
         Harness.successful_detections Harness.failed_detections
         Harness.min_confidence Harness.max_confidence
         Harness.min_processing_time Harness.max_processing_time
         Harness.average_processing_time].
    split; [exact Htot'|]. split; [exact Hsucc|]. split; [exact Hfail|].
    split.
    { intros H. rewrite H in Hsucc. cbn in Hsucc. lia. }
    repeat split; try assumption; first [apply Hconf|apply Htime]; assumption.
  - cbv beta iota. rewrite bind_Ret.
    rewrite fdivf_Ret by exact Hn0. rewrite bind_Ret.
    eexists. split; [reflexivity|].
    cbn [Harness.total_images Harness.average_confidence
         Harness.successful_detections Harness.failed_detections
         Harness.min_confidence Harness.max_confidence
         Harness.min_processing_time Harness.max_processing_time
         Harness.average_processing_time].
    assert (Hnil : successes results = []).
    { destruct (successes results); [reflexivity|].
      rewrite Hsucc in Hpos. cbn in Hpos. lia. }
    split; [exact Htot'|]. split; [exact Hsucc|]. split; [exact Hfail|].
    split.
    { intros _. destruct (Hnone Hnil) as [-> ->]. rewrite Havg.
      repeat split. }
    repeat split; try assumption; first [apply Hconf|apply Htime]; assumption.
Qed.

(** X16.  [calculateStatistics] returns on every list of results, the
    empty one included: it never divides by zero.  The total is the number
    of results, the successes are the results flagged successful, and the
    failures are the others.  Without a success the average confidence is
    0, and the minimum 1 is above the maximum 0. *)
Theorem calculateStatistics_counts (results : list Harness.TestResult) :
  exists stats,
    Harness.calculateStatistics results = Ret stats
    /\ Harness.total_images stats = Z.of_nat (length results)
    /\ Harness.successful_detections stats
       = Z.of_nat (length (successes results))
    /\ (Harness.successful_detections stats
        + Harness.failed_detections stats)%Z
       = Harness.total_images stats
    /\ (successes results = [] ->
        Harness.average_confidence stats = 0
        /\ Harness.min_confidence stats = 1
        /\ Harness.max_confidence stats = 0).
Proof.
  destruct (calculateStatistics_result results)
    as (stats & Hrun & Htot & Hsucc & Hfail & Hnone & _).
  exists stats. split; [exact Hrun|]. split; [exact Htot|].
  split; [exact Hsucc|]. split; [lia|exact Hnone].
Qed.

(** X17.  The minimum and the maximum that [calculateStatistics] reports
    bound what they summarise: the confidence of every successful result
    lies between the minimum and the maximum confidence, and the processing
    time of every result between the minimum and the maximum time; the
    minima are at most their initial values 1 and 999999, the maxima at
    least 0.  The averages are quotients of rounded float sums and are not
    covered: they can lie outside these bounds. *)
Theorem calculateStatistics_ordered (results : list Harness.TestResult) :
  exists stats,
    Harness.calculateStatistics results = Ret stats
    /\ (forall r, In r (successes results) ->
          Harness.min_confidence stats <= Harness.confidence r
          /\ Harness.confidence r <= Harness.max_confidence stats)
    /\ (forall r, In r results ->
          Harness.min_processing_time stats <= Harness.processing_time_ms r
          /\ Harness.processing_time_ms r
             <= Harness.max_processing_time stats)
    /\ Harness.min_confidence stats <= 1
    /\ 0 <= Harness.max_confidence stats
    /\ Harness.min_processing_time stats <= 999999
    /\ 0 <= Harness.max_processing_time stats.
Proof.
  destruct (calculateStatistics_result results)
    as (stats & Hrun & _ & _ & _ & _ & Hrest).
  exists stats. split; [exact Hrun|exact Hrest].
Qed.

(** X22.  The average confidence can lie below the minimum.  Three
    detections with the confidence 0.9f: their float sum divided by 3 is
    0.89999992, below the minimum 0.89999998. *)
Lemma calculateStatistics_average_below_minimum :
  exists stats,
    Harness.calculateStatistics Samples.rounded_run = Ret stats
    /\ Harness.average_confidence stats < Harness.min_confidence stats
    /\ Harness.min_confidence stats == 7549747 # 8388608
    /\ Harness.average_confidence stats == 15099493 # 16777216.
Proof.
  eexists. split; [vm_compute; reflexivity|].
  split; [apply Qltb_lt; vm_compute; reflexivity|].
  split; apply Qeq_bool_iff; vm_compute; reflexivity.
Qed.

(** ** The bitmap loader of the C example *)

Lemma land_lnot_3 (x : Z) : Z.land x (Z.lnot 3) = (4 * (x / 4))%Z.
Proof.
  change 3%Z with (Z.ones 2). rewrite <- Z.ldiff_land.
  rewrite Z.ldiff_ones_r by lia.
  rewrite Z.shiftl_mul_pow2, Z.shiftr_div_pow2 by lia.
  change (2 ^ 2)%Z with 4%Z. lia.
Qed.

(** X18.  When [load_bmp_image] returns a buffer for a file whose size
    fits a [long], the file starts with the letters BM and has 24 bits per
    pixel, the width is the one of the header, the height is the absolute
    value of the height in the header, the stride is the width times three
    rounded up to a multiple of 4, the allocation of height times stride
    bytes succeeded, and the buffer holds exactly height times stride bytes,
    those of the file from the offset given in the header.  When the height
    is not zero, the width and the stride are positive; a file of height
    zero yields an empty buffer whatever its width. *)
Theorem load_bmp_image_buffer (file : list Byte.byte) (malloc : Z -> bool)
    (out : Z * Z * Z) (image_data : list Byte.byte) (width height stride : Z) :
  (Z.of_nat (length file) < 2 ^ 63)%Z ->
  Example.load_bmp_image (Some file) malloc out
  = (Example.Buffer image_data, (width, height, stride)) ->
  let rest := skipn (Z.to_nat (Example.member file 10 4)) file in
  Example.member file 0 2 = 19778%Z
  /\ Example.member file 28 2 = 24%Z
  /\ width = Example.int32 (Example.member file 18 4)
  /\ height = Z.abs (Example.int32 (Example.member file 22 4))
  /\ (stride mod 4 = 0)%Z /\ (3 * width <= stride < 3 * width + 4)%Z
  /\ malloc (height * stride)%Z = true
  /\ image_data = firstn (Z.to_nat (height * stride)) rest
  /\ Z.of_nat (length image_data) = (height * stride)%Z
  /\ (height <> 0%Z -> (0 < width)%Z /\ (0 < stride)%Z).
Proof.
  intros Hfile H rest. unfold Example.load_bmp_image in H.
  destruct (length file <? 14 + 40)%nat; [discriminate H|].
  destruct (Z.eqb_spec (Example.member file 0 2) 19778) as [Ht|];
    [|discriminate H].
  destruct (Z.eqb_spec (Example.member file 28 2) 24) as [Hb|];
    [|discriminate H].
  cbn [negb orb] in H.
  set (iw := Example.int32 (Example.member file 18 4)) in *.
  set (ih := Example.int32 (Example.member file 22 4)) in *.
  destruct (Z.eqb_spec ih Example.INT_MIN) as [|Hmin]; [discriminate H|].
  destruct (Z.ltb_spec (iw * 3) Example.INT_MIN) as [|Hw0];
    [discriminate H|].
  destruct (Z.ltb_spec Example.INT_MAX (iw * 3 + 3)) as [|Hw3];
    [discriminate H|].
  cbn [orb] in H.
  set (h := if (0 <? ih)%Z then ih else (- ih)%Z) in *.
  assert (Hh : h = Z.abs ih).
  { subst h. destruct (Z.ltb_spec 0 ih); lia. }
  assert (Hih : (Example.INT_MIN <= ih < 2 ^ 31)%Z).
  { subst ih. unfold Example.int32, Example.INT_MIN.
    assert (Hu : (0 <= Example.member file 22 4 < 2 ^ 32)%Z).
    { unfold Example.member.
      assert (Hlen : (length (firstn 4 (skipn 22 file)) <= 4)%nat)
        by (rewrite length_firstn; lia).
      revert Hlen. generalize (firstn 4 (skipn 22 file)). intros l Hl.
      assert (Hgen : forall (l : list Byte.byte),
                (0 <= Example.unsigned l < 256 ^ Z.of_nat (length l))%Z).
      { clear. induction l as [|b l IH]; [cbn; lia|].
        cbn [Example.unsigned fold_right length].
        fold (Example.unsigned l).
        assert (Hb : (0 <= Z.of_N (Byte.to_N b) < 256)%Z).
        { pose proof (Byte.to_N_bounded b). lia. }
        rewrite Nat2Z.inj_succ, Z.pow_succ_r by lia. nia. }
      specialize (Hgen l).
      assert (256 ^ Z.of_nat (length l) <= 256 ^ 4)%Z
        by (apply Z.pow_le_mono_r; lia).
      change (2 ^ 32)%Z with (256 ^ 4)%Z. lia. }
    destruct (Z.ltb_spec (Example.member file 22 4) (2 ^ 31)); lia. }
  assert (Hh31 : (0 <= h < 2 ^ 31)%Z).
  { unfold Example.INT_MIN in *. lia. }
  set (s := Z.land (iw * 3 + 3) (Z.lnot 3)) in *.
  assert (Hs : s = (4 * ((iw * 3 + 3) / 4))%Z) by apply land_lnot_3.
  destruct (Z.ltb_spec (h * s) Example.INT_MIN) as [|Hhs0];
    [discriminate H|].
  destruct (Z.ltb_spec Example.INT_MAX (h * s)) as [|Hhs]; [discriminate H|].
  cbn [orb] in H.
  destruct (malloc (Example.size_t (h * s))) eqn:Hmalloc; [|discriminate H].
  cbn [negb] in H.
  fold rest in H.
  destruct (Z.eqb_spec (Example.fread (Example.size_t s) (Example.size_t h)
                          (length rest)) (Example.size_t h)) as [Hread|];
    [|discriminate H].
  cbn [negb] in H. inversion H; subst image_data width height stride.
  clear H.
  assert (Hs4 : (3 * iw <= s < 3 * iw + 4)%Z).
  { pose proof (Z.div_mod (iw * 3 + 3) 4 ltac:(lia)).
    pose proof (Z.mod_pos_bound (iw * 3 + 3) 4 ltac:(lia)). lia. }
  assert (Hsh : Example.size_t h = h).
  { unfold Example.size_t. apply Z.mod_small. lia. }
  rewrite Hsh in Hread.
  assert (Hrest : (Z.of_nat (length rest) < 2 ^ 63)%Z).
  { subst rest. rewrite length_skipn. lia. }
  assert (Hs31 : (- 2 ^ 31 <= s < 2 ^ 31)%Z).
  { unfold Example.INT_MIN, Example.INT_MAX in *. lia. }
  assert (Hpos : h <> 0%Z ->
            (0 < s)%Z /\ (h * s <= Z.of_nat (length rest))%Z).
  { intros Hh0. unfold Example.fread in Hread.
    destruct (Z.eqb_spec (Example.size_t s) 0) as [E0|E0];
      [cbn [orb] in Hread; lia|].
    destruct (Z.eqb_spec h 0) as [|_]; [contradiction|].
    cbn [orb] in Hread.
    assert (Hle : (h <= Z.of_nat (length rest) / Example.size_t s)%Z) by lia.
    destruct (Z.lt_ge_cases s 0) as [Hneg|Hnn].
    - exfalso.
      assert (Hsz : Example.size_t s = (s + 2 ^ 64)%Z).
      { unfold Example.size_t.
        rewrite <- (Z.mod_add s 1 (2 ^ 64)) by lia.
        apply Z.mod_small. lia. }
      rewrite Hsz in Hle.
      rewrite Z.div_small in Hle by lia. lia.
    - assert (Hsz : Example.size_t s = s).
      { unfold Example.size_t. apply Z.mod_small. lia. }
      rewrite Hsz in Hle, E0.
      assert (Hsp : (0 < s)%Z) by lia.
      split; [exact Hsp|].
      pose proof (Z.div_mod (Z.of_nat (length rest)) s ltac:(lia)).
      pose proof (Z.mod_pos_bound (Z.of_nat (length rest)) s ltac:(lia)).
      nia. }
  assert (Hprod : (0 <= h * s <= Z.of_nat (length rest))%Z).
  { destruct (Z.eq_dec h 0%Z) as [E|E]; [nia|].
    destruct (Hpos E). nia. }
  assert (Hsize : Example.size_t (h * s) = (h * s)%Z).
  { unfold Example.size_t. apply Z.mod_small.
    unfold Example.INT_MAX in Hhs. lia. }
  rewrite Hsize in Hmalloc.
  split; [exact Ht|]. split; [exact Hb|]. split; [reflexivity|].
  split; [exact Hh|]. split.
  { rewrite Hs, Z.mul_comm. apply Z.mod_mul. lia. }
  split; [exact Hs4|]. split; [exact Hmalloc|]. split; [reflexivity|].
  split.
  { rewrite length_firstn. lia. }
  intros Hh0. destruct (Hpos Hh0) as [Hsp _]. split; [lia|exact Hsp].
Qed.

(** The theorem on a top-down bitmap of 2 x 2 pixels. *)
Lemma load_bmp_image_buffer_witness :
  exists image_data,
    Example.load_bmp_image (Some Samples.bitmap) (fun _ => true) (0, 0, 0)%Z
    = (Example.Buffer image_data, (2, 2, 8)%Z)
    /\ Z.of_nat (length image_data) = 16%Z.
Proof.
  assert (E : exists image_data,
            Example.load_bmp_image (Some Samples.bitmap) (fun _ => true)
              (0, 0, 0)%Z
            = (Example.Buffer image_data, (2, 2, 8)%Z)).
  { eexists. vm_compute. reflexivity. }
  destruct E as (image_data & E). exists image_data. split; [exact E|].
  assert (Hfile : (Z.of_nat (length Samples.bitmap) < 2 ^ 63)%Z)
    by (vm_compute; reflexivity).
  apply (load_bmp_image_buffer _ _ _ _ _ _ _ Hfile E).
Defined.

(** A file of height zero and width -2: where [malloc(0)] returns a
    pointer, the loader returns it, an empty buffer, with the width -2 and
    the stride -4 stored. *)
Lemma load_bmp_image_without_rows :
  Example.load_bmp_image (Some Samples.bitmap_without_rows) (fun _ => true)
    (0, 0, 0)%Z
  = (Example.Buffer [], (-2, 0, -4)%Z).
Proof. vm_compute. reflexivity. Qed.

(** X19.  The configuration calls of [initialize] leave the detector with
    the parameters of its constructor: the minimum contour area 5000 that
    the third call asks for is put back to 10000 by the fourth, and only
    the configuration map keeps the text.  When the context cannot be
    allocated, [initialize] returns false. *)
Theorem initialize_leaves_defaults (stod : string -> option Q) :
  stod "50"%string = Some 50 -> stod "150"%string = Some 150 ->
  stod "5000"%string = Some 5000 -> stod "500000"%string = Some 500000 ->
  exists context_,
    Harness.initialize stod true = (true, Some context_)
    /\ Api.detector context_ = Generic.DocumentDetector_new
    /\ Api.config context_ !! "min_contour_area"%string = Some "5000"%string
    /\ Harness.initialize stod false = (false, None).
Proof.
  intros H50 H150 H5000 H500000.
  unfold Harness.initialize, Api.id_reader_init, Api.configure.
  cbn [fold_left fst snd].
  unfold Api.id_reader_set_config at 4. cbn [String.eqb Ascii.eqb Bool.eqb].
  rewrite H50. cbn [snd].
  unfold Api.id_reader_set_config at 3. cbn [String.eqb Ascii.eqb Bool.eqb].
  rewrite H150. cbn [snd].
  unfold Api.id_reader_set_config at 2. cbn [String.eqb Ascii.eqb Bool.eqb].
  rewrite H5000. cbn [snd].
  unfold Api.id_reader_set_config at 1. cbn [String.eqb Ascii.eqb Bool.eqb].
  rewrite H500000. cbn [snd].
  eexists. split; [reflexivity|].
  split; [reflexivity|]. split; [|reflexivity].
  cbn [Api.config Api.with_detector].
  vm_compute. reflexivity.
Qed.

(** The theorem with the decimal reader. *)
Lemma initialize_leaves_defaults_witness :
  exists context_,
    Harness.initialize Api.stod_decimal true = (true, Some context_)
    /\ Api.detector context_ = Generic.DocumentDetector_new
    /\ Api.config context_ !! "min_contour_area"%string = Some "5000"%string.
Proof.
  destruct (initialize_leaves_defaults Api.stod_decimal)
    as (context_ & Hrun & Hd & Hc & _); try reflexivity.
  exists context_. split; [exact Hrun|]. split; [exact Hd|exact Hc].
Defined.
